(** * ConversationApp: capture/playback engines and the transcription queue

    A shallow embedding of the client core of the repository:

    - [client/src/lib/audio.ts]           AudioRecorderService,
                                          AudioPlayerService, formatTime
    - [client/src/store/promptsStore.ts]  the session store (useSessionStore)
                                          and the prompts store
    - [client/src/store/conversationsStore.ts]  the conversations store
    - the TranscriptionQueue component    (completion eviction effect)
    - the AudioRecorder component         (handleSaveRecording dispatch)
    - the server's FileStorage            (audio files of the base directory)

    JavaScript numbers are modelled by [JS.num]: a rational, NaN or one of
    the two infinities; arithmetic on the finite part is exact.  Wall-clock
    readings ([Date.now()]) are explicit arguments of the operations that
    read the clock. *)

From Stdlib Require Import ZArith QArith Qround Qminmax Qabs Lqa Lia.
From Stdlib Require Import List String Ascii Bool.
From Stdlib Require Import Decimal DecimalString.
Import ListNotations.

Set Implicit Arguments.

(* ================================================================== *)
(** ** JavaScript numbers *)
(* ================================================================== *)

Module JS.

Inductive num : Type :=
| NaN
| NegInf
| Fin (q : Q)
| PosInf.

Definition isNaN (x : num) : bool :=
  match x with NaN => true | _ => false end.

Definition isFinite (x : num) : bool :=
  match x with Fin _ => true | _ => false end.

(** [x <= y] on numbers that are not NaN. *)
Definition leb (x y : num) : bool :=
  match x, y with
  | NaN, _ | _, NaN => false
  | NegInf, _ => true
  | _, PosInf => true
  | Fin p, Fin q => Qle_bool p q
  | _, _ => false
  end.

(** [Math.max(x, y)]: NaN is contagious. *)
Definition max (x y : num) : num :=
  match x, y with
  | NaN, _ | _, NaN => NaN
  | _, _ => if leb x y then y else x
  end.

(** [Math.min(x, y)]: NaN is contagious. *)
Definition min (x y : num) : num :=
  match x, y with
  | NaN, _ | _, NaN => NaN
  | _, _ => if leb x y then x else y
  end.

Definition neg (x : num) : num :=
  match x with
  | NaN => NaN
  | NegInf => PosInf
  | PosInf => NegInf
  | Fin q => Fin (- q)
  end.

Definition add (x y : num) : num :=
  match x, y with
  | NaN, _ | _, NaN => NaN
  | PosInf, NegInf | NegInf, PosInf => NaN
  | PosInf, _ | _, PosInf => PosInf
  | NegInf, _ | _, NegInf => NegInf
  | Fin p, Fin q => Fin (p + q)
  end.

Definition sub (x y : num) : num := add x (neg y).

(** Truthiness of a number: everything but NaN and zero. *)
Definition truthy (x : num) : bool :=
  match x with
  | NaN => false
  | Fin q => negb (Qeq_bool q 0)
  | _ => true
  end.

(** [x || 0]. *)
Definition orZero (x : num) : num :=
  if truthy x then x else Fin 0.

(** Equality of numbers up to the representation of the rational. *)
Definition eqn (x y : num) : Prop :=
  match x, y with
  | NaN, NaN | NegInf, NegInf | PosInf, PosInf => True
  | Fin p, Fin q => p == q
  | _, _ => False
  end.

(** [lo <= x <= hi], which in particular says that [x] is a number. *)
Definition within (lo hi x : num) : Prop :=
  leb lo x = true /\ leb x hi = true.

End JS.

(* ================================================================== *)
(** ** Telemetry records ([audio.ts], lines 1-14) *)
(* ================================================================== *)

Record Blob : Type := mkBlob {
  blob_bytes : list Byte.byte;
  blob_type  : string
}.

(** [new Blob(parts, { type })]: the parts' bytes in order. *)
Definition newBlob (parts : list Blob) (type : string) : Blob :=
  mkBlob (List.concat (map blob_bytes parts)) type.

Record RecordingState : Type := mkRecordingState {
  isRecording : bool;
  isPaused    : bool;
  rec_duration : Q;
  audioBlob   : option Blob;
  audioLevel  : option Q
}.

Record PlayerState : Type := mkPlayerState {
  isPlaying   : bool;
  currentTime : JS.num;
  duration    : JS.num
}.

(* ================================================================== *)
(** ** The session store ([promptsStore.ts], lines 105-236) *)
(* ================================================================== *)

Module Store.

Inductive Status : Type := Pending | Processing | Completed | Failed.

Definition Status_eqb (a b : Status) : bool :=
  match a, b with
  | Pending, Pending | Processing, Processing
  | Completed, Completed | Failed, Failed => true
  | _, _ => false
  end.

Record TranscriptionQueueItem : Type := mkItem {
  conversationId : Z;
  audioPath      : string;
  status         : Status;
  error          : option string
}.

(** [Omit<TranscriptionQueueItem, 'status'>] *)
Record NewItem : Type := mkNewItem {
  new_conversationId : Z;
  new_audioPath      : string;
  new_error          : option string
}.

(** [Partial<TranscriptionQueueItem>]: a key is present or not; the
    optional [error] key may be present with the value [undefined]. *)
Record ItemUpdate : Type := mkUpdate {
  upd_conversationId : option Z;
  upd_audioPath      : option string;
  upd_status         : option Status;
  upd_error          : option (option string)
}.

Definition over {A} (old : A) (new : option A) : A :=
  match new with Some v => v | None => old end.

(** [{ ...item, ...update }] *)
Definition merge (item : TranscriptionQueueItem) (u : ItemUpdate)
  : TranscriptionQueueItem :=
  mkItem (over (conversationId item) (upd_conversationId u))
         (over (audioPath item) (upd_audioPath u))
         (over (status item) (upd_status u))
         (over (error item) (upd_error u)).

Inductive Tab : Type := TabTranscript | TabAnalysis.

Record SessionData : Type := mkSessionData {
  studentName        : string;
  class              : string;
  conversationTypeId : option Z;
  date               : string
}.

(** Rows of the shared schema the store refers to. *)
Record Student : Type := mkStudent {
  student_id    : Z;
  student_name  : string;
  student_class : option string
}.

Record Conversation : Type := mkConversation {
  conv_id        : Z;
  conv_studentId : option Z;
  conv_typeId    : option Z;
  conv_audioPath : string;
  conv_date      : string
}.

Record SessionState : Type := mkSessionState {
  activeTab             : Tab;
  currentSessionData    : SessionData;
  recordingState        : RecordingState;
  playbackState         : PlayerState;
  isTranscribing        : bool;
  transcriptSearchQuery : string;
  studentSuggestions    : list Student;
  currentConversation   : option Conversation;
  transcriptionQueue    : list TranscriptionQueueItem
}.

(** [initialSessionData]; [today] is the value of
    [new Date().toISOString().split('T')[0]] when the module is loaded. *)
Definition initialSessionData (today : string) : SessionData :=
  mkSessionData "" "" None today.

Definition initialRecordingState : RecordingState :=
  mkRecordingState false false 0 None None.

Definition initialPlaybackState : PlayerState :=
  mkPlayerState false (JS.Fin 0) (JS.Fin 0).

Definition initialState (today : string) : SessionState :=
  mkSessionState TabTranscript (initialSessionData today)
                 initialRecordingState initialPlaybackState
                 false "" [] None [].

Definition setQueue (s : SessionState) (q : list TranscriptionQueueItem)
  : SessionState :=
  mkSessionState (activeTab s) (currentSessionData s) (recordingState s)
                 (playbackState s) (isTranscribing s)
                 (transcriptSearchQuery s) (studentSuggestions s)
                 (currentConversation s) q.

Definition setRecordingState (r : RecordingState) (s : SessionState)
  : SessionState :=
  mkSessionState (activeTab s) (currentSessionData s) r
                 (playbackState s) (isTranscribing s)
                 (transcriptSearchQuery s) (studentSuggestions s)
                 (currentConversation s) (transcriptionQueue s).

Definition setPlaybackState (p : PlayerState) (s : SessionState)
  : SessionState :=
  mkSessionState (activeTab s) (currentSessionData s) (recordingState s)
                 p (isTranscribing s)
                 (transcriptSearchQuery s) (studentSuggestions s)
                 (currentConversation s) (transcriptionQueue s).

(** [addToTranscriptionQueue] (lines 206-211) *)
Definition addToTranscriptionQueue (item : NewItem) (s : SessionState)
  : SessionState :=
  setQueue s
    (transcriptionQueue s ++
     [mkItem (new_conversationId item) (new_audioPath item)
             Pending (new_error item)]).

(** [updateTranscriptionQueueItem] (lines 213-219) *)
Definition updateTranscriptionQueueItem
           (id : Z) (update : ItemUpdate) (s : SessionState)
  : SessionState :=
  setQueue s
    (map (fun item =>
            if Z.eqb (conversationId item) id then merge item update
            else item)
         (transcriptionQueue s)).

(** [removeFromTranscriptionQueue] (lines 221-225) *)
Definition removeFromTranscriptionQueue (id : Z) (s : SessionState)
  : SessionState :=
  setQueue s
    (filter (fun item => negb (Z.eqb (conversationId item) id))
            (transcriptionQueue s)).

(** [resetSession] (lines 227-235) *)
Definition resetSession (today : string) (s : SessionState)
  : SessionState :=
  mkSessionState (activeTab s) (initialSessionData today)
                 initialRecordingState initialPlaybackState
                 false "" (studentSuggestions s) None
                 (transcriptionQueue s).

(** The jobs of the queue that carry a given id. *)
Definition jobsWithId (id : Z) (q : list TranscriptionQueueItem)
  : list TranscriptionQueueItem :=
  filter (fun item => Z.eqb (conversationId item) id) q.

Definition ids (q : list TranscriptionQueueItem) : list Z :=
  map conversationId q.

(** [enqueue id path]: the call made by the save handler. *)
Definition enqueue (id : Z) (path : string) (s : SessionState)
  : SessionState :=
  addToTranscriptionQueue (mkNewItem id path None) s.

(** A sequence of [enqueue] calls, first to last. *)
Definition enqueueAll (items : list (Z * string)) (s : SessionState)
  : SessionState :=
  fold_left (fun acc it => enqueue (fst it) (snd it) acc) items s.

End Store.

(* ================================================================== *)
(** ** AudioRecorderService ([audio.ts], lines 16-298) *)
(* ================================================================== *)

Module Recorder.

(** *** Browser objects the service holds on to *)

Inductive NodeKind : Type :=
| KSource | KHighpass | KLowpass | KCompressor
| KAnalyser | KProcessor | KDestination.

Definition NodeKind_eqb (a b : NodeKind) : bool :=
  match a, b with
  | KSource, KSource | KHighpass, KHighpass | KLowpass, KLowpass
  | KCompressor, KCompressor | KAnalyser, KAnalyser
  | KProcessor, KProcessor | KDestination, KDestination => true
  | _, _ => false
  end.

(** A node is identified by the audio context that created it and by
    its kind: [start] creates one node of each kind per context. *)
Definition NodeId : Type := (nat * NodeKind)%type.

Definition NodeId_eqb (a b : NodeId) : bool :=
  Nat.eqb (fst a) (fst b) && NodeKind_eqb (snd a) (snd b).

Inductive BiquadType : Type := BqLowpass | BqHighpass.

Record BiquadFilterNode : Type := mkBiquad {
  bq_node      : NodeId;
  bq_type      : BiquadType;
  bq_frequency : Q
}.

Record DynamicsCompressorNode : Type := mkCompressor {
  dc_node      : NodeId;
  dc_threshold : Q;
  dc_knee      : Q;
  dc_ratio     : Q;
  dc_attack    : Q;
  dc_release   : Q
}.

Record AnalyserNode : Type := mkAnalyser {
  an_node    : NodeId;
  an_fftSize : Z
}.

Definition frequencyBinCount (a : AnalyserNode) : Z := an_fftSize a / 2.

Inductive ContextState : Type := CtxRunning | CtxSuspended | CtxClosed.

Record AudioContext : Type := mkContext {
  ctx_id    : nat;
  ctx_state : ContextState
}.

Inductive RecorderState : Type := Inactive | Recording | Paused.

Record RecorderOptions : Type := mkOptions {
  mimeType           : string;
  audioBitsPerSecond : Z
}.

Record MediaRecorder : Type := mkMediaRecorder {
  mr_input     : NodeId;
  mr_options   : option RecorderOptions;
  mr_state     : RecorderState;
  mr_timeslice : option Z
}.

Record MediaStream : Type := mkStream { tracks : list nat }.

(** *** The part of the browser the service acts on *)

Record Browser : Type := mkBrowser {
  liveTracks  : list nat;                 (* tracks not yet stopped   *)
  edges       : list (NodeId * NodeId);   (* audio graph connections  *)
  intervals   : list (nat * Z);           (* registered timers, period *)
  nextTimer   : nat;
  nextContext : nat
}.

Definition stopTrack (t : nat) (b : Browser) : Browser :=
  mkBrowser (filter (fun x => negb (Nat.eqb x t)) (liveTracks b))
            (edges b) (intervals b) (nextTimer b) (nextContext b).

Definition stopTracks (s : MediaStream) (b : Browser) : Browser :=
  fold_left (fun acc t => stopTrack t acc) (tracks s) b.

Definition goLive (s : MediaStream) (b : Browser) : Browser :=
  mkBrowser (liveTracks b ++ tracks s)
            (edges b) (intervals b) (nextTimer b) (nextContext b).

(** [src.connect(dst)] *)
Definition connect (src dst : NodeId) (b : Browser) : Browser :=
  mkBrowser (liveTracks b) (edges b ++ [(src, dst)])
            (intervals b) (nextTimer b) (nextContext b).

(** [n.disconnect()]: every outgoing connection of [n] goes. *)
Definition disconnect (n : NodeId) (b : Browser) : Browser :=
  mkBrowser (liveTracks b)
            (filter (fun e => negb (NodeId_eqb (fst e) n)) (edges b))
            (intervals b) (nextTimer b) (nextContext b).

Definition setInterval (period : Z) (b : Browser) : nat * Browser :=
  (nextTimer b,
   mkBrowser (liveTracks b) (edges b)
             (intervals b ++ [(nextTimer b, period)])
             (S (nextTimer b)) (nextContext b)).

Definition clearInterval (id : nat) (b : Browser) : Browser :=
  mkBrowser (liveTracks b) (edges b)
            (filter (fun t => negb (Nat.eqb (fst t) id)) (intervals b))
            (nextTimer b) (nextContext b).

Definition newContext (b : Browser) : AudioContext * Browser :=
  (mkContext (nextContext b) CtxRunning,
   mkBrowser (liveTracks b) (edges b) (intervals b)
             (nextTimer b) (S (nextContext b))).

Definition timerActive (id : nat) (b : Browser) : bool :=
  existsb (fun t => Nat.eqb (fst t) id) (intervals b).

(** *** The service's private fields (lines 18-38) *)

Record Nodes : Type := mkNodes {
  sourceNode     : option NodeId;
  analyserNode   : option AnalyserNode;
  processorNode  : option NodeId;
  highpassFilter : option BiquadFilterNode;
  lowpassFilter  : option BiquadFilterNode;
  compressorNode : option DynamicsCompressorNode
}.

Definition noNodes : Nodes := mkNodes None None None None None None.

Record Service : Type := mkService {
  audioContext   : option AudioContext;
  nodes          : Nodes;
  mediaRecorder  : option MediaRecorder;
  audioChunks    : list Blob;
  stream         : option MediaStream;
  startTime      : Q;
  pausedTime     : Q;
  updateCallback : bool;            (* null, or the caller's onUpdate *)
  intervalId     : option nat;
  audioLevelF    : Q;
  dataArray      : option (list Z)
}.

(** The service, the browser, and the states handed to [onUpdate] so
    far (oldest first). *)
Record World : Type := mkWorld {
  svc     : Service;
  browser : Browser;
  updates : list RecordingState
}.

(** What a call reads from outside: the clock and, through the
    analyser, the current spectrum. *)
Record Reading : Type := mkReading {
  clock    : Q;            (* Date.now(), in milliseconds *)
  spectrum : list Z        (* bytes of getByteFrequencyData *)
}.

Definition set_nodes (n : Nodes) (r : Service) : Service :=
  mkService (audioContext r) n (mediaRecorder r) (audioChunks r)
            (stream r) (startTime r) (pausedTime r) (updateCallback r)
            (intervalId r) (audioLevelF r) (dataArray r).

Definition set_mediaRecorder (m : option MediaRecorder) (r : Service)
  : Service :=
  mkService (audioContext r) (nodes r) m (audioChunks r)
            (stream r) (startTime r) (pausedTime r) (updateCallback r)
            (intervalId r) (audioLevelF r) (dataArray r).

Definition set_audioContext (c : option AudioContext) (r : Service)
  : Service :=
  mkService c (nodes r) (mediaRecorder r) (audioChunks r)
            (stream r) (startTime r) (pausedTime r) (updateCallback r)
            (intervalId r) (audioLevelF r) (dataArray r).

Definition set_audioChunks (c : list Blob) (r : Service) : Service :=
  mkService (audioContext r) (nodes r) (mediaRecorder r) c
            (stream r) (startTime r) (pausedTime r) (updateCallback r)
            (intervalId r) (audioLevelF r) (dataArray r).

Definition set_stream (s : option MediaStream) (r : Service) : Service :=
  mkService (audioContext r) (nodes r) (mediaRecorder r) (audioChunks r)
            s (startTime r) (pausedTime r) (updateCallback r)
            (intervalId r) (audioLevelF r) (dataArray r).

Definition set_startTime (t : Q) (r : Service) : Service :=
  mkService (audioContext r) (nodes r) (mediaRecorder r) (audioChunks r)
            (stream r) t (pausedTime r) (updateCallback r)
            (intervalId r) (audioLevelF r) (dataArray r).

Definition set_pausedTime (t : Q) (r : Service) : Service :=
  mkService (audioContext r) (nodes r) (mediaRecorder r) (audioChunks r)
            (stream r) (startTime r) t (updateCallback r)
            (intervalId r) (audioLevelF r) (dataArray r).

Definition set_updateCallback (c : bool) (r : Service) : Service :=
  mkService (audioContext r) (nodes r) (mediaRecorder r) (audioChunks r)
            (stream r) (startTime r) (pausedTime r) c
            (intervalId r) (audioLevelF r) (dataArray r).

Definition set_intervalId (i : option nat) (r : Service) : Service :=
  mkService (audioContext r) (nodes r) (mediaRecorder r) (audioChunks r)
            (stream r) (startTime r) (pausedTime r) (updateCallback r)
            i (audioLevelF r) (dataArray r).

Definition set_level (l : Q) (d : option (list Z)) (r : Service)
  : Service :=
  mkService (audioContext r) (nodes r) (mediaRecorder r) (audioChunks r)
            (stream r) (startTime r) (pausedTime r) (updateCallback r)
            (intervalId r) l d.

Definition set_mr_state (st : RecorderState) (m : MediaRecorder)
  : MediaRecorder :=
  mkMediaRecorder (mr_input m) (mr_options m) st (mr_timeslice m).

Definition set_ctx_state (st : ContextState) (c : AudioContext)
  : AudioContext :=
  mkContext (ctx_id c) st.

(** *** [disposeAudioNodes] (lines 66-102) *)

Definition dropNode (n : option NodeId) (b : Browser) : Browser :=
  match n with Some id => disconnect id b | None => b end.

Definition disposeAudioNodes (r : Service) (b : Browser)
  : Service * Browser :=
  let n  := nodes r in
  let b1 := dropNode (sourceNode n) b in
  let b2 := dropNode (option_map an_node (analyserNode n)) b1 in
  let b3 := dropNode (processorNode n) b2 in
  let b4 := dropNode (option_map bq_node (highpassFilter n)) b3 in
  let b5 := dropNode (option_map bq_node (lowpassFilter n)) b4 in
  let b6 := dropNode (option_map dc_node (compressorNode n)) b5 in
  (set_nodes noNodes r, b6).

(** *** [reset] (lines 44-64) *)

Definition reset (r : Service) (b : Browser) : Service * Browser :=
  let '(r1, b1) :=
    match stream r with
    | Some s => (set_stream None r, stopTracks s b)
    | None => (r, b)
    end in
  let '(r2, b2) := disposeAudioNodes r1 b1 in
  let r3 :=
    mkService (audioContext r2) (nodes r2) None [] (stream r2) 0 0
              (updateCallback r2) (intervalId r2) 0 None in
  match intervalId r3 with
  | Some id => (set_intervalId None r3, clearInterval id b2)
  | None => (r3, b2)
  end.

(** *** [updateAudioLevel] (lines 135-149) *)

(** What [getByteFrequencyData] leaves in an array of [n] bytes.  The
    array built by [start] has 128 entries; for an empty array the
    quotient below is 0 here and NaN in JavaScript. *)
Definition fillBytes (n : nat) (data : list Z) : list Z :=
  firstn n (data ++ repeat 0%Z n).

Definition updateAudioLevel (data : list Z) (r : Service) : Service :=
  match analyserNode (nodes r), dataArray r with
  | Some _, Some arr =>
      let arr' := fillBytes (List.length arr) data in
      let sum  := fold_left Z.add arr' 0%Z in
      set_level (inject_Z sum
                 / inject_Z (Z.of_nat (List.length arr') * 255))
                (Some arr') r
  | _, _ => r
  end.

(** *** [updateState] (lines 104-133) *)

Definition Qgt_bool (x y : Q) : bool := negb (Qle_bool x y).

Definition stateOf (m : option MediaRecorder) : option RecorderState :=
  option_map mr_state m.

Definition snapshot (now : Q) (r : Service) : RecordingState :=
  let isRec :=
    match stateOf (mediaRecorder r) with
    | Some Inactive | None => false
    | Some _ => true
    end in
  let isPau :=
    match stateOf (mediaRecorder r) with
    | Some Paused => true
    | _ => false
    end in
  let dur :=
    if Qgt_bool (startTime r) 0 then
      if isPau then pausedTime r
      else (now - startTime r) / 1000
    else 0 in
  let blob :=
    match audioChunks r with
    | [] => None
    | _ :: _ => Some (newBlob (audioChunks r) "audio/wav")
    end in
  mkRecordingState isRec isPau dur blob (Some (audioLevelF r)).

Definition updateState (rd : Reading) (w : World) : World :=
  if updateCallback (svc w) then
    let r := updateAudioLevel (spectrum rd) (svc w) in
    mkWorld r (browser w) (updates w ++ [snapshot (clock rd) r])
  else w.

(** *** [start] (lines 151-257) *)

(** What the platform answers during one call of [start]. *)
Record StartEnv : Type := mkStartEnv {
  userMedia      : string + MediaStream;  (* getUserMedia: error or stream *)
  opusSupported  : bool;    (* new MediaRecorder(stream, options) works *)
  plainSupported : bool     (* new MediaRecorder(stream) works          *)
}.

Definition recorderOptions : RecorderOptions :=
  mkOptions "audio/webm;codecs=opus" 128000.

(** Lines 252-256: the catch block. *)
Definition startFailed (msg : string) (w : World)
  : World * option string :=
  let '(r, b) := reset (svc w) (browser w) in
  (mkWorld r b (updates w),
   Some ("Could not start recording: " ++ msg)%string).

(** Lines 170-216: context, nodes and their connections. *)
Definition buildGraph (s : MediaStream) (r : Service) (b : Browser)
  : Service * Browser * NodeId :=
  let '(ctx, b0) := newContext b in
  let c    := ctx_id ctx in
  let src  := (c, KSource) in
  let hp   := mkBiquad (c, KHighpass) BqHighpass 85 in
  let lp   := mkBiquad (c, KLowpass) BqLowpass 10000 in
  let comp := mkCompressor (c, KCompressor)
                           (-24) 30 12 (3 # 1000) (25 # 100) in
  let an   := mkAnalyser (c, KAnalyser) 256 in
  let arr  := repeat 0%Z (Z.to_nat (frequencyBinCount an)) in
  let b1 := connect src (bq_node hp) b0 in
  let b2 := connect (bq_node hp) (bq_node lp) b1 in
  let b3 := connect (bq_node lp) (dc_node comp) b2 in
  let b4 := connect (dc_node comp) (an_node an) b3 in
  let proc := (c, KProcessor) in
  let destination := (c, KDestination) in
  let b5 := connect (dc_node comp) destination b4 in
  let r1 :=
    mkService (Some ctx)
              (mkNodes (Some src) (Some an) (Some proc)
                       (Some hp) (Some lp) (Some comp))
              (mediaRecorder r) (audioChunks r) (stream r)
              (startTime r) (pausedTime r) (updateCallback r)
              (intervalId r) (audioLevelF r) (Some arr) in
  (r1, b5, destination).

(** Lines 219-225: the recorder, with the fallback constructor. *)
Definition newMediaRecorder (env : StartEnv) (destination : NodeId)
  : string + MediaRecorder :=
  if opusSupported env then
    inr (mkMediaRecorder destination (Some recorderOptions) Inactive None)
  else if plainSupported env then
    inr (mkMediaRecorder destination None Inactive None)
  else inl "MediaRecorder is not supported"%string.

(** [start(onUpdate)]: [now] is the clock read for [startTime], [rd]
    what the first [updateState] reads.  The result carries the message
    of the error thrown, if any. *)
Definition start (env : StartEnv) (now : Q) (rd : Reading) (w : World)
  : World * option string :=
  let r0 := set_updateCallback true (svc w) in
  let '(r1, b1) := reset r0 (browser w) in
  match userMedia env with
  | inl msg => startFailed msg (mkWorld r1 b1 (updates w))
  | inr s =>
      let r2 := set_stream (Some s) r1 in
      let b2 := goLive s b1 in
      let '(r3, b3, destination) := buildGraph s r2 b2 in
      match newMediaRecorder env destination with
      | inl msg => startFailed msg (mkWorld r3 b3 (updates w))
      | inr mr =>
          let r4 := set_startTime now r3 in
          let r5 := set_mediaRecorder
                      (Some (mkMediaRecorder (mr_input mr) (mr_options mr)
                                             Recording (Some 1000%Z)))
                      r4 in
          let '(id, b4) := setInterval 100 b3 in
          let r6 := set_intervalId (Some id) r5 in
          (updateState rd (mkWorld r6 b4 (updates w)), None)
      end
  end.

(** *** Recorder events *)

(** [mediaRecorder.ondataavailable] (lines 227-231) *)
Definition ondataavailable (data : Blob) (w : World) : World :=
  match blob_bytes data with
  | [] => w
  | _ :: _ =>
      mkWorld (set_audioChunks (audioChunks (svc w) ++ [data]) (svc w))
              (browser w) (updates w)
  end.

(** [mediaRecorder.onstop] (lines 233-242) *)
Definition onstop (rd : Reading) (w : World) : World :=
  let w1 := updateState rd w in
  let b1 :=
    match stream (svc w1) with
    | Some s => stopTracks s (browser w1)
    | None => browser w1
    end in
  let '(r2, b2) := disposeAudioNodes (svc w1) b1 in
  mkWorld r2 b2 (updates w1).

(** The callback registered with [setInterval] (line 249); the browser
    calls it only while the timer is registered. *)
Definition tick (id : nat) (rd : Reading) (w : World) : World :=
  if timerActive id (browser w) then updateState rd w else w.

(** *** [pause], [resume], [stop] (lines 259-290) *)

Definition pause (now : Q) (rd : Reading) (w : World) : World :=
  match mediaRecorder (svc w) with
  | Some mr =>
      match mr_state mr with
      | Recording =>
          let r1 := set_mediaRecorder (Some (set_mr_state Paused mr))
                                      (svc w) in
          let r2 := set_pausedTime ((now - startTime r1) / 1000) r1 in
          let w3 := updateState rd (mkWorld r2 (browser w) (updates w)) in
          match audioContext (svc w3) with
          | Some ctx =>
              match ctx_state ctx with
              | CtxRunning =>
                  mkWorld (set_audioContext
                             (Some (set_ctx_state CtxSuspended ctx))
                             (svc w3))
                          (browser w3) (updates w3)
              | _ => w3
              end
          | None => w3
          end
      | _ => w
      end
  | None => w
  end.

Definition resume (now : Q) (rd : Reading) (w : World) : World :=
  match mediaRecorder (svc w) with
  | Some mr =>
      match mr_state mr with
      | Paused =>
          let r1 :=
            match audioContext (svc w) with
            | Some ctx =>
                match ctx_state ctx with
                | CtxSuspended =>
                    set_audioContext
                      (Some (set_ctx_state CtxRunning ctx)) (svc w)
                | _ => svc w
                end
            | None => svc w
            end in
          let r2 := set_mediaRecorder (Some (set_mr_state Recording mr))
                                      r1 in
          let r3 := set_startTime (now - pausedTime r2 * 1000) r2 in
          updateState rd (mkWorld r3 (browser w) (updates w))
      | _ => w
      end
  | None => w
  end.

(** [stop()]: the recorder becomes inactive; the browser then delivers
    the last chunk and the stop event. *)
Definition stop (w : World) : World :=
  match mediaRecorder (svc w) with
  | Some mr =>
      match mr_state mr with
      | Inactive => w
      | _ =>
          mkWorld (set_mediaRecorder (Some (set_mr_state Inactive mr))
                                     (svc w))
                  (browser w) (updates w)
      end
  | None => w
  end.

(** [stop()] together with the two events it causes, when it is not a
    no-op: [last] is the final chunk, [rd] what the stop handler reads. *)
Definition stopped (last : Blob) (rd : Reading) (w : World) : World :=
  match stateOf (mediaRecorder (svc w)) with
  | Some Recording | Some Paused =>
      onstop rd (ondataavailable last (stop w))
  | _ => w
  end.

(** [getAudioBlob] (lines 292-297) *)
Definition getAudioBlob (r : Service) : option Blob :=
  match audioChunks r with
  | [] => None
  | _ :: _ => Some (newBlob (audioChunks r) "audio/wav")
  end.

(** The service after its constructor (line 40), in an idle browser. *)
Definition idleService : Service :=
  mkService None noNodes None [] None 0 0 false None 0 None.

Definition idleBrowser : Browser := mkBrowser [] [] [] 0 0.

Definition idleWorld : World := mkWorld idleService idleBrowser [].

(** Nothing of a capture is held any more: tracks stopped, no node
    kept or connected, no timer registered. *)
Definition tracksStopped (s : MediaStream) (b : Browser) : bool :=
  forallb (fun t => negb (existsb (Nat.eqb t) (liveTracks b))) (tracks s).

Definition nodesDropped (r : Service) : bool :=
  match nodes r with
  | mkNodes None None None None None None => true
  | _ => false
  end.

(** The browser once the tracks of the stream held are stopped
    (lines 237-239). *)
Definition afterTracks (w : World) : Browser :=
  match stream (svc w) with
  | Some s => stopTracks s (browser w)
  | None => browser w
  end.

(** The nodes whose output is connected to [n]. *)
Definition feeders (n : NodeId) (b : Browser) : list NodeId :=
  map fst (filter (fun e => NodeId_eqb (snd e) n) (edges b)).

Definition timerCancelled (id : nat) (r : Service) (b : Browser) : bool :=
  negb (timerActive id b) &&
  match intervalId r with None => true | Some _ => false end.

End Recorder.

(* ================================================================== *)
(** ** AudioPlayerService ([audio.ts], lines 300-417) *)
(* ================================================================== *)

Module Player.

(** The fields of the [HTMLAudioElement] the service reads and writes.
    [el_currentTime] holds the value last assigned by the service. *)
Record AudioElement : Type := mkAudio {
  el_paused      : bool;
  el_currentTime : JS.num;
  el_duration    : JS.num      (* NaN until metadata is known *)
}.

Record Service : Type := mkService {
  audio          : option AudioElement;
  updateCallback : bool
}.

Record World : Type := mkWorld {
  svc     : Service;
  updates : list PlayerState
}.

(** [updateState] (lines 323-331) *)
Definition updateState (w : World) : World :=
  match updateCallback (svc w), audio (svc w) with
  | true, Some a =>
      mkWorld (svc w)
              (updates w ++
               [mkPlayerState (negb (el_paused a)) (el_currentTime a)
                              (JS.orZero (el_duration a))])
  | _, _ => w
  end.

Definition assignTime (t : JS.num) (a : AudioElement) (w : World)
  : World :=
  updateState
    (mkWorld (mkService (Some (mkAudio (el_paused a) t (el_duration a)))
                        (updateCallback (svc w)))
             (updates w)).

(** The value [seek] assigns (line 399). *)
Definition seekTarget (time : JS.num) (a : AudioElement) : JS.num :=
  JS.max (JS.Fin 0) (JS.min time (JS.orZero (el_duration a))).

(** The value [rewind] assigns (line 406). *)
Definition rewindTarget (seconds : JS.num) (a : AudioElement) : JS.num :=
  JS.max (JS.Fin 0) (JS.sub (el_currentTime a) seconds).

(** The value [forward] assigns (line 413). *)
Definition forwardTarget (seconds : JS.num) (a : AudioElement) : JS.num :=
  JS.min (JS.orZero (el_duration a)) (JS.add (el_currentTime a) seconds).

(** [seek(time)] (lines 397-402) *)
Definition seek (time : JS.num) (w : World) : World :=
  match audio (svc w) with
  | Some a => assignTime (seekTarget time a) a w
  | None => w
  end.

(** A parameter with the default value 5. *)
Definition orFive (seconds : option JS.num) : JS.num :=
  match seconds with Some s => s | None => JS.Fin 5 end.

(** [rewind(seconds = 5)] (lines 404-409) *)
Definition rewind (seconds : option JS.num) (w : World) : World :=
  match audio (svc w) with
  | Some a => assignTime (rewindTarget (orFive seconds) a) a w
  | None => w
  end.

(** [forward(seconds = 5)] (lines 411-416) *)
Definition forward (seconds : option JS.num) (w : World) : World :=
  match audio (svc w) with
  | Some a => assignTime (forwardTarget (orFive seconds) a) a w
  | None => w
  end.

(** The current time of the loaded element, if there is one. *)
Definition timeOf (w : World) : option JS.num :=
  option_map el_currentTime (audio (svc w)).

(** A player holding an element at [time] whose metadata reports
    [dur]. *)
Definition loaded (time dur : JS.num) : World :=
  mkWorld (mkService (Some (mkAudio true time dur)) true) [].

(** The duration is unknown: no metadata (NaN), reported as 0. *)
Definition durationUnknown (a : AudioElement) : bool :=
  negb (JS.truthy (el_duration a)).

(** A duration as a media element reports it: NaN while unknown,
    otherwise not negative. *)
Definition mediaDuration (d : JS.num) : Prop :=
  d = JS.NaN \/ JS.leb (JS.Fin 0) d = true.

End Player.

(* ================================================================== *)
(** ** [formatTime] ([audio.ts], lines 422-441) *)
(* ================================================================== *)

Module Format.











End Format.

(* ================================================================== *)
(** ** The queue at work: dispatch and eviction *)
(* ================================================================== *)

Module App.

Import Store.

(** How the promise of the transcription request settles
    (AudioRecorder, lines 210-242). *)
Inductive Response : Type :=
| Resolved (ok : bool) (statusText : string)
| Rejected (message : option string).   (* message of an [Error], if one *)

Definition toProcessing : ItemUpdate :=
  mkUpdate None None (Some Processing) None.

Definition toCompleted : ItemUpdate :=
  mkUpdate None None (Some Completed) None.

Definition toFailed (msg : string) : ItemUpdate :=
  mkUpdate None None (Some Failed) (Some (Some msg)).

(** The update a settled request writes (lines 215-242). *)
Definition outcome (r : Response) : ItemUpdate :=
  match r with
  | Resolved true _ => toCompleted
  | Resolved false statusText =>
      toFailed ("Failed to transcribe: " ++ statusText)
  | Rejected (Some message) => toFailed message
  | Rejected None => toFailed "Unknown error"
  end.

(** Calls of the store's actions. *)
Inductive Action : Type :=
| Add (id : Z) (path : string)
| Update (id : Z) (u : ItemUpdate)
| Remove (id : Z)
| Reset.

(** The store, the timeouts registered by the queue component (due
    time and conversation id, oldest first) and the clock, in
    milliseconds. *)
Record Sys : Type := mkSys {
  store    : SessionState;
  timeouts : list (Z * Z);
  now      : Z;
  loadDate : string
}.

Definition queue (s : Sys) : list TranscriptionQueueItem :=
  transcriptionQueue (store s).

(** The effect of the TranscriptionQueue component (lines 14-29): it
    runs each time the store holds a new queue array. *)
Definition evictionEffect (s : Sys) : Sys :=
  let completedItems :=
    filter (fun item => Status_eqb (status item) Completed) (queue s) in
  match completedItems with
  | [] => s
  | _ :: _ =>
      mkSys (store s)
            (timeouts s ++
             map (fun item => (now s + 5000, conversationId item)%Z)
                 completedItems)
            (now s) (loadDate s)
  end.

Definition withStore (st : SessionState) (s : Sys) : Sys :=
  mkSys st (timeouts s) (now s) (loadDate s).

(** One action of the store followed, when it replaces the queue
    array, by the component's effect. *)
Definition perform (a : Action) (s : Sys) : Sys :=
  match a with
  | Add id path => evictionEffect (withStore (enqueue id path (store s)) s)
  | Update id u =>
      evictionEffect
        (withStore (updateTranscriptionQueueItem id u (store s)) s)
  | Remove id =>
      evictionEffect
        (withStore (removeFromTranscriptionQueue id (store s)) s)
  | Reset => withStore (resetSession (loadDate s) (store s)) s
  end.

(** The states after each of a list of actions. *)
Fixpoint performAll (acts : list Action) (s : Sys) : list Sys :=
  match acts with
  | [] => []
  | a :: rest => let s' := perform a s in s' :: performAll rest s'
  end.

(** What happens to the queue. *)
Inductive Event : Type :=
| Save (id : Z) (path : string)      (* AudioRecorder, lines 194-206 *)
| Settle (id : Z) (r : Response)     (* AudioRecorder, lines 215-242 *)
| Dismiss (id : Z)                   (* the remove button of a job   *)
| Elapse (t : Z)                     (* the clock reaches [t]        *)
| ResetSession.

(** The remove button is rendered for completed and failed jobs only
    (TranscriptionQueue, lines 103-111). *)
Definition dismissible (id : Z) (s : Sys) : bool :=
  existsb (fun item =>
             Z.eqb (conversationId item) id &&
             (Status_eqb (status item) Completed ||
              Status_eqb (status item) Failed))
          (queue s).

Definition isDue (t : Z) (e : Z * Z) : bool := (fst e <=? t)%Z.

(** The states an event leads through, one per action. *)
Definition step (ev : Event) (s : Sys) : list Sys :=
  match ev with
  | Save id path => performAll [Add id path; Update id toProcessing] s
  | Settle id r => performAll [Update id (outcome r)] s
  | Dismiss id =>
      if dismissible id s then performAll [Remove id] s else []
  | Elapse t =>
      let due  := filter (isDue t) (timeouts s) in
      let keep := filter (fun e => negb (isDue t e)) (timeouts s) in
      let s0 := mkSys (store s) keep t (loadDate s) in
      s0 :: performAll (map (fun e => Remove (snd e)) due) s0
  | ResetSession => performAll [Reset] s
  end.

Fixpoint trace (evs : list Event) (s : Sys) : list Sys :=
  match evs with
  | [] => []
  | ev :: rest =>
      let ss := step ev s in ss ++ trace rest (last ss s)
  end.

Definition run (evs : list Event) (s : Sys) : Sys :=
  last (trace evs s) s.

Definition boot (today : string) : Sys :=
  mkSys (initialState today) [] 0 today.

Definition memZ (x : Z) (l : list Z) : bool := existsb (Z.eqb x) l.

Definition dropZ (x : Z) (l : list Z) : list Z :=
  filter (fun y => negb (Z.eqb x y)) l.

(** Schedules the application can produce: every save carries the id of
    a conversation just created (ids are never reused), a request
    settles once and after its save, and the clock does not run
    backwards.  [used] are the ids saved so far, [open] those whose
    request has not settled. *)
Fixpoint schedule (used open : list Z) (clk : Z) (evs : list Event)
  : bool :=
  match evs with
  | [] => true
  | Save id _ :: rest =>
      negb (memZ id used) && schedule (id :: used) (id :: open) clk rest
  | Settle id _ :: rest =>
      memZ id open && schedule used (dropZ id open) clk rest
  | Elapse t :: rest => (clk <=? t)%Z && schedule used open t rest
  | Dismiss _ :: rest | ResetSession :: rest =>
      schedule used open clk rest
  end.

Definition wellFormed (evs : list Event) : bool := schedule [] [] 0 evs.

(** The statuses of the jobs with a given id. *)
Definition statusesIn (id : Z) (q : list TranscriptionQueueItem)
  : list Status :=
  map status (jobsWithId id q).

Definition statusOf (id : Z) (s : Sys) : list Status :=
  statusesIn id (queue s).


(** The statuses a job goes through along a list of states. *)
Definition statusHistory (id : Z) (ss : list Sys) : list Status :=
  flat_map (statusOf id) ss.

(** Consecutive repetitions removed. *)
Fixpoint squash (h : list Status) : list Status :=
  match h with
  | [] => []
  | a :: r =>
      match r with
      | [] => [a]
      | b :: _ => if Status_eqb a b then squash r else a :: squash r
      end
  end.




(** *** Invariants of the schedules *)

(** An update that writes a status and leaves the id alone. *)
Definition writes (u : ItemUpdate) (st : Status) : Prop :=
  upd_conversationId u = None /\ upd_status u = Some st.

(** What an action does to the queue. *)
Definition actQ (a : Action) (q : list TranscriptionQueueItem)
  : list TranscriptionQueueItem :=
  match a with
  | Add id path => q ++ [mkItem id path Pending None]
  | Update id u =>
      map (fun item =>
             if Z.eqb (conversationId item) id then merge item u else item)
          q
  | Remove id => filter (fun item => negb (Z.eqb (conversationId item) id)) q
  | Reset => q
  end.

Definition terminal (st : Status) : bool :=
  Status_eqb st Completed || Status_eqb st Failed.

(** Between two events: ids are unique and were all saved; a job whose
    request is open is Processing, any other job is Completed or
    Failed. *)
Definition queueOk (used open : list Z) (q : list TranscriptionQueueItem)
  : Prop :=
  NoDup (ids q) /\
  forall item, In item q ->
    In (conversationId item) used /\
    (if memZ (conversationId item) open
     then status item = Processing
     else terminal (status item) = true).

(** The history of a job so far: empty before its save, afterwards
    Pending, Processing and possibly one terminal status; it ends with
    the job's current status. *)
Definition historyOk (id : Z) (used : list Z)
           (q : list TranscriptionQueueItem) (h : list Status) : Prop :=
  (~ In id used -> h = []) /\
  (In id used ->
   squash h = [Pending; Processing] \/
   squash h = [Pending; Processing; Completed] \/
   squash h = [Pending; Processing; Failed]) /\
  (forall st, In st (statusesIn id q) -> last h Pending = st).

(** Every timeout is still in the future and belongs to a saved
    conversation whose request has settled. *)
Definition timersOk (used open : list Z) (s : Sys) : Prop :=
  forall d j, In (d, j) (timeouts s) ->
    (now s < d)%Z /\ In j used /\ memZ j open = false.


(** The timeouts the component's effect registers for a queue. *)
Definition registered (clk : Z) (q : list TranscriptionQueueItem)
  : list (Z * Z) :=
  map (fun item => (clk + 5000, conversationId item)%Z)
      (filter (fun item => Status_eqb (status item) Completed) q).





End App.

(* ================================================================== *)
(** ** Capture sessions *)
(* ================================================================== *)

Module Capture.

Import Recorder.

(** What happens between [start] and [stop]. *)
Inductive Op : Type :=
| OpTick (rd : Reading)               (* the 100 ms timer fires *)
| OpPause (now : Q) (rd : Reading)    (* pause() at clock [now] *)
| OpResume (now : Q) (rd : Reading)   (* resume() at clock [now] *)
| OpData (chunk : Blob).              (* a chunk is delivered   *)

Definition apply (w : World) (op : Op) : World :=
  match op with
  | OpTick rd =>
      match intervalId (svc w) with
      | Some id => tick id rd w
      | None => w
      end
  | OpPause now rd => pause now rd w
  | OpResume now rd => resume now rd w
  | OpData chunk => ondataavailable chunk w
  end.

Definition runOps (ops : list Op) (w : World) : World :=
  fold_left apply ops w.

(** The shape start, (pause, resume)*, stop: a pause only while
    recording, a resume only while paused, recording at the end. *)
Fixpoint alternating (rec : bool) (ops : list Op) : bool :=
  match ops with
  | [] => rec
  | OpPause _ _ :: rest => rec && alternating false rest
  | OpResume _ _ :: rest => negb rec && alternating true rest
  | _ :: rest => alternating rec rest
  end.

(** The clock readings never decrease, starting from [t]. *)
Fixpoint wellTimed (t : Q) (ops : list Op) : bool :=
  match ops with
  | [] => true
  | OpTick rd :: rest => Qle_bool t (clock rd) && wellTimed (clock rd) rest
  | OpPause now _ :: rest => Qle_bool t now && wellTimed now rest
  | OpResume now rd :: rest =>
      Qle_bool t now && Qle_bool now (clock rd)
      && wellTimed (clock rd) rest
  | OpData _ :: rest => wellTimed t rest
  end.

Fixpoint endTime (t : Q) (ops : list Op) : Q :=
  match ops with
  | [] => t
  | OpTick rd :: rest => endTime (clock rd) rest
  | OpPause now _ :: rest => endTime now rest
  | OpResume _ rd :: rest => endTime (clock rd) rest
  | OpData _ :: rest => endTime t rest
  end.

(** *** The time spent recording, from the schedule alone

    A stopwatch that follows the specification's words: it runs while
    the capture is in the Recording state and stands still while it is
    Paused.  [banked] is the time of the recording intervals already
    closed, [since] the start of the open one; all in milliseconds. *)
Record Meter : Type := mkMeter {
  recordingNow : bool;
  banked       : Q;
  since        : Q
}.

Definition startMeter (t0 : Q) : Meter := mkMeter true 0 t0.

Definition meterStep (m : Meter) (op : Op) : Meter :=
  match op with
  | OpPause now _ =>
      if recordingNow m
      then mkMeter false (banked m + (now - since m)) (since m)
      else m
  | OpResume now _ =>
      if recordingNow m then m else mkMeter true (banked m) now
  | _ => m
  end.

Definition meterRun (m : Meter) (ops : list Op) : Meter :=
  fold_left meterStep ops m.

(** Milliseconds spent in the Recording state up to clock [t]. *)
Definition spent (m : Meter) (t : Q) : Q :=
  if recordingNow m then banked m + (t - since m) else banked m.

(** The time spent recording at each telemetry update of a run. *)
Fixpoint expected (m : Meter) (ops : list Op) : list Q :=
  match ops with
  | [] => []
  | OpTick rd :: rest => spent m (clock rd) :: expected m rest
  | OpPause now rd :: rest =>
      if recordingNow m
      then spent (meterStep m (OpPause now rd)) now
           :: expected (meterStep m (OpPause now rd)) rest
      else expected m rest
  | OpResume now rd :: rest =>
      if recordingNow m
      then expected m rest
      else spent (meterStep m (OpResume now rd)) (clock rd)
           :: expected (meterStep m (OpResume now rd)) rest
  | OpData _ :: rest => expected m rest
  end.

Definition supported (env : StartEnv) : bool :=
  opusSupported env || plainSupported env.

(** The telemetry durations, in milliseconds, agree with a list. *)
Definition reports (us : list RecordingState) (ms : list Q) : Prop :=
  Forall2 (fun u e => rec_duration u * 1000 == e) us ms.

(** The service agrees with the stopwatch at clock [t]: the telemetry
    timer [id] is registered, and [startTime] / [pausedTime] encode the
    stopwatch's reading. *)
Definition linked (id : nat) (w : World) (m : Meter) (t : Q) : Prop :=
  updateCallback (svc w) = true /\
  intervalId (svc w) = Some id /\
  timerActive id (browser w) = true /\
  0 < startTime (svc w) /\
  exists mr,
    mediaRecorder (svc w) = Some mr /\
    ((mr_state mr = Recording /\ recordingNow m = true /\
      startTime (svc w) == since m - banked m)
     \/
     (mr_state mr = Paused /\ recordingNow m = false /\
      pausedTime (svc w) * 1000 == banked m /\
      startTime (svc w) + banked m <= t)).

End Capture.

(* ================================================================== *)
(** ** Sample inputs *)
(* ================================================================== *)

Module Samples.

Import Store.

Definition today : string := "2024-05-01".

Definition job7 : TranscriptionQueueItem := mkItem 7 "a.wav" Pending None.
Definition job9 : TranscriptionQueueItem :=
  mkItem 9 "b.wav" Processing None.

Definition twoJobs : SessionState :=
  setQueue (initialState today) [job7; job9].

(** A microphone with one track, on a platform with the opus codec. *)
Definition micEnv : Recorder.StartEnv :=
  Recorder.mkStartEnv (inr (Recorder.mkStream [0%nat])) true true.

(** A platform that refuses the microphone. *)
Definition deniedEnv : Recorder.StartEnv :=
  Recorder.mkStartEnv (inl "Permission denied"%string) true true.

(** A platform without any recorder: [start] fails after the graph has
    been built. *)
Definition noRecorderEnv : Recorder.StartEnv :=
  Recorder.mkStartEnv (inr (Recorder.mkStream [0%nat])) false false.

Definition quiet (t : Q) : Recorder.Reading := Recorder.mkReading t [].

Definition chunk : Blob := mkBlob [Byte.x01; Byte.x02] "audio/webm".
Definition lastChunk : Blob := mkBlob [Byte.x03] "audio/webm".

(** A capture started at clock 1000 ms. *)
Definition started : Recorder.World :=
  fst (Recorder.start micEnv 1000 (quiet 1000) Recorder.idleWorld).

(** ... one chunk, then [stop()] at 3000 ms, the stop event handled at
    3000 ms. *)
Definition stoppedCapture : Recorder.World :=
  Recorder.stopped lastChunk (quiet 3000)
                   (Recorder.ondataavailable chunk started).

(** start at 1000 ms; pause at 2000 ms; resume at 4000 ms. *)
Definition pausedOnce : list Capture.Op :=
  [ Capture.OpTick (quiet 1100);
    Capture.OpPause 2000 (quiet 2000);
    Capture.OpTick (quiet 2500);
    Capture.OpResume 4000 (quiet 4000);
    Capture.OpData chunk ].

(** Two recordings saved; the first is transcribed, the second fails. *)
Definition busyDay : list App.Event :=
  [ App.Save 7 "a.wav";
    App.Save 9 "b.wav";
    App.Settle 7 (App.Resolved true "OK");
    App.Elapse 6000;
    App.Settle 9 (App.Rejected (Some "Network error"%string));
    App.Elapse 20000 ].

End Samples.

(* ================================================================== *)
(** ** More of the queue at work *)
(* ================================================================== *)

Module Runs.

Import Store App.


End Runs.

(* ================================================================== *)
(** ** More of the session store ([promptsStore.ts], lines 186-235) *)
(* ================================================================== *)

Module Session.

Import Store.

(** [Partial<SessionState['currentSessionData']>] *)
Record SessionDataUpdate : Type := mkDataUpdate {
  upd_studentName        : option string;
  upd_class              : option string;
  upd_conversationTypeId : option (option Z);
  upd_date               : option string
}.

Definition setSessionData (d : SessionData) (s : SessionState)
  : SessionState :=
  mkSessionState (activeTab s) d (recordingState s) (playbackState s)
                 (isTranscribing s) (transcriptSearchQuery s)
                 (studentSuggestions s) (currentConversation s)
                 (transcriptionQueue s).

(** [updateSessionData] (lines 189-191) *)
Definition updateSessionData (data : SessionDataUpdate) (s : SessionState)
  : SessionState :=
  setSessionData
    (mkSessionData
       (over (studentName (currentSessionData s)) (upd_studentName data))
       (over (class (currentSessionData s)) (upd_class data))
       (over (conversationTypeId (currentSessionData s))
             (upd_conversationTypeId data))
       (over (date (currentSessionData s)) (upd_date data)))
    s.

(** The session data the save handler writes twice after [resetSession]
    (AudioRecorder, lines 257-274); [day] is [format(new Date(),
    'yyyy-MM-dd')]. *)
Definition clearedData (day : string) : SessionData :=
  mkSessionData "" "" None day.

Definition clearedUpdate (day : string) : SessionDataUpdate :=
  mkDataUpdate (Some ""%string) (Some ""%string) (Some None) (Some day).

(** The reset sequence of the save handler (AudioRecorder, lines
    250-274): the store's [resetSession], a direct [setState] of the
    session data, then [updateSessionData]. *)
Definition resetAfterSave (today day : string) (s : SessionState)
  : SessionState :=
  updateSessionData (clearedUpdate day)
    (setSessionData (clearedData day) (resetSession today s)).

(** [{ ...u1, ...u2 }] of two partial updates: the later key wins. *)
Definition later {A} (a b : option A) : option A :=
  match b with Some _ => b | None => a end.

Definition combine (u1 u2 : ItemUpdate) : ItemUpdate :=
  mkUpdate (later (upd_conversationId u1) (upd_conversationId u2))
           (later (upd_audioPath u1) (upd_audioPath u2))
           (later (upd_status u1) (upd_status u2))
           (later (upd_error u1) (upd_error u2)).

End Session.

(* ================================================================== *)
(** ** Whole recorder sessions *)
(* ================================================================== *)

Module RecorderOps.

Import Recorder.

(** The data events of a capture, first to last. *)
Definition deliver (datas : list Blob) (w : World) : World :=
  fold_left (fun acc d => ondataavailable d acc) datas w.

(** The recorder state an operation leads to: [pause] acts only while
    recording (the guard of line 260), [resume] only while paused
    (line 273); ticks and data events leave the state alone. *)
Definition next (st : RecorderState) (op : Capture.Op) : RecorderState :=
  match op, st with
  | Capture.OpPause _ _, Recording => Paused
  | Capture.OpResume _ _, Paused => Recording
  | _, _ => st
  end.

(** The nodes the service holds a reference to. *)
Definition heldNodes (n : Nodes) : list NodeId :=
  match sourceNode n with Some x => [x] | None => [] end ++
  match analyserNode n with Some x => [an_node x] | None => [] end ++
  match processorNode n with Some x => [x] | None => [] end ++
  match highpassFilter n with Some x => [bq_node x] | None => [] end ++
  match lowpassFilter n with Some x => [bq_node x] | None => [] end ++
  match compressorNode n with Some x => [dc_node x] | None => [] end.

(** Calls a client makes on the service, and what the browser calls
    back.  Calls do not overlap: a call, with the events it causes
    ([getUserMedia] settling, the stop event), is over before the next
    one begins. *)
Inductive Call : Type :=
| CallStart (env : StartEnv) (now : Q) (rd : Reading)
| CallStop (last : Blob) (rd : Reading)
| CallOp (op : Capture.Op).

Definition call (w : World) (c : Call) : World :=
  match c with
  | CallStart env now rd => fst (start env now rd w)
  | CallStop last rd => stopped last rd w
  | CallOp op => Capture.apply w op
  end.

(** Everything that happens to the service after its construction. *)
Definition session (calls : list Call) : World :=
  fold_left call calls idleWorld.

(** A capture is under way: the recorder exists and is not inactive. *)
Definition capturing (w : World) : bool :=
  match stateOf (mediaRecorder (svc w)) with
  | Some Recording | Some Paused => true
  | _ => false
  end.

(** The timers the service accounts for. *)
Definition ownTimers (r : Service) : list (nat * Z) :=
  match intervalId r with Some id => [(id, 100%Z)] | None => [] end.

(** Nothing in the browser that the service has lost track of: every
    live track belongs to the stream held, every connection leaves a
    node held, the only timer is the one remembered; outside a capture
    no track is live, no node held or connected. *)
Definition tidy (w : World) : Prop :=
  (forall t, In t (liveTracks (browser w)) ->
             exists s, stream (svc w) = Some s /\ In t (tracks s)) /\
  (forall e, In e (edges (browser w)) ->
             In (fst e) (heldNodes (nodes (svc w)))) /\
  intervals (browser w) = ownTimers (svc w) /\
  (capturing w = false ->
   liveTracks (browser w) = [] /\ edges (browser w) = [] /\
   nodes (svc w) = noNodes).

(** A value of a [Uint8Array]. *)
Definition isByte (x : Z) : Prop := (0 <= x <= 255)%Z.

End RecorderOps.

(* ================================================================== *)
(** ** The whole player ([audio.ts], AudioPlayerService, lines 300-417) *)
(* ================================================================== *)

Module Playback.

(** The [src] of an audio element: empty, an object URL made from a
    blob, or a URL given by the caller. *)
Inductive Src : Type :=
| NoSrc
| ObjectUrl (n : nat)
| Url (u : string).

(** An [HTMLAudioElement]: the media fields of [Player.AudioElement],
    its source, and whether [load]/[loadUrl] attached the service's
    handlers ([onloadedmetadata], [onended]) to it. *)
Record Element : Type := mkElement {
  media : Player.AudioElement;
  src   : Src;
  wired : bool
}.

(** The part of the page the service acts on: every element it has
    constructed (oldest first), the object URLs it has created, the
    registered interval timers, and the [audio-player-error] events
    dispatched on the document. *)
Record Page : Type := mkPage {
  elements    : list Element;
  objectUrls  : list Blob;
  intervals   : list (nat * Z);
  nextTimer   : nat;
  errorEvents : list string
}.

(** The private fields (lines 301-303); [audio] is the index of the
    element held. *)
Record Service : Type := mkService {
  audio          : option nat;
  updateCallback : bool;
  intervalId     : option nat
}.

Record World : Type := mkWorld {
  svc     : Service;
  page    : Page;
  updates : list PlayerState
}.

Fixpoint updAt (A : Type) (i : nat) (f : A -> A) (l : list A) : list A :=
  match l, i with
  | [], _ => []
  | x :: rest, O => f x :: rest
  | x :: rest, S j => x :: updAt j f rest
  end.

Definition onElement (i : nat) (f : Element -> Element) (p : Page) : Page :=
  mkPage (updAt i f (elements p)) (objectUrls p) (intervals p)
         (nextTimer p) (errorEvents p).

Definition onMedia (f : Player.AudioElement -> Player.AudioElement)
                   (e : Element) : Element :=
  mkElement (f (media e)) (src e) (wired e).

Definition set_paused (b : bool) (a : Player.AudioElement)
  : Player.AudioElement :=
  Player.mkAudio b (Player.el_currentTime a) (Player.el_duration a).

Definition set_currentTime (t : JS.num) (a : Player.AudioElement)
  : Player.AudioElement :=
  Player.mkAudio (Player.el_paused a) t (Player.el_duration a).

Definition set_duration (d : JS.num) (a : Player.AudioElement)
  : Player.AudioElement :=
  Player.mkAudio (Player.el_paused a) (Player.el_currentTime a) d.

Definition set_src (s : Src) (e : Element) : Element :=
  mkElement (media e) s (wired e).

(** [new Audio(src)]: paused, at time 0, duration not yet known. *)
Definition newAudio (s : Src) (handlers : bool) (p : Page) : nat * Page :=
  (List.length (elements p),
   mkPage (elements p ++
           [mkElement (Player.mkAudio true (JS.Fin 0) JS.NaN) s handlers])
          (objectUrls p) (intervals p) (nextTimer p) (errorEvents p)).

Definition setInterval (period : Z) (p : Page) : nat * Page :=
  (nextTimer p,
   mkPage (elements p) (objectUrls p)
          (intervals p ++ [(nextTimer p, period)])
          (S (nextTimer p)) (errorEvents p)).

Definition clearInterval (id : nat) (p : Page) : Page :=
  mkPage (elements p) (objectUrls p)
         (filter (fun t => negb (Nat.eqb (fst t) id)) (intervals p))
         (nextTimer p) (errorEvents p).

Definition createObjectURL (b : Blob) (p : Page) : Src * Page :=
  (ObjectUrl (List.length (objectUrls p)),
   mkPage (elements p) (objectUrls p ++ [b]) (intervals p)
          (nextTimer p) (errorEvents p)).

Definition dispatchError (msg : string) (p : Page) : Page :=
  mkPage (elements p) (objectUrls p) (intervals p) (nextTimer p)
         (errorEvents p ++ [msg]).

Definition timerActive (id : nat) (p : Page) : bool :=
  existsb (fun t => Nat.eqb (fst t) id) (intervals p).

(** The element held, if any. *)
Definition held (w : World) : option Element :=
  match audio (svc w) with
  | Some i => nth_error (elements (page w)) i
  | None => None
  end.

(** The service as the element-level model of [seek], [rewind] and
    [forward] sees it. *)
Definition view (w : World) : Player.World :=
  Player.mkWorld
    (Player.mkService (option_map media (held w)) (updateCallback (svc w)))
    (updates w).

(** [reset] (lines 309-321) *)
Definition reset (r : Service) (p : Page) : Service * Page :=
  let p1 :=
    match audio r with
    | Some i =>
        onElement i (fun e => set_src NoSrc (onMedia (set_paused true) e)) p
    | None => p
    end in
  let '(i, p2) := newAudio NoSrc false p1 in
  match intervalId r with
  | Some id => (mkService (Some i) (updateCallback r) None,
                clearInterval id p2)
  | None => (mkService (Some i) (updateCallback r) None, p2)
  end.

(** [updateState] (lines 323-331) *)
Definition updateState (w : World) : World :=
  mkWorld (svc w) (page w) (Player.updates (Player.updateState (view w))).

(** The common part of [load] and [loadUrl] once the URL is known
    (lines 338-345 and 352-359). *)
Definition attach (s : Src) (r : Service) (p : Page)
                  (u : list PlayerState) : World :=
  let '(i, p1) := newAudio s true p in
  let '(id, p2) := setInterval 100 p1 in
  updateState (mkWorld (mkService (Some i) (updateCallback r) (Some id))
                       p2 u).

(** [load(audioBlob, onUpdate)] (lines 333-346) *)
Definition load (b : Blob) (w : World) : World :=
  let '(r1, p1) := reset (svc w) (page w) in
  let r2 := mkService (audio r1) true (intervalId r1) in
  let '(url, p2) := createObjectURL b p1 in
  attach url r2 p2 (updates w).

(** [loadUrl(url, onUpdate)] (lines 348-360) *)
Definition loadUrl (url : string) (w : World) : World :=
  let '(r1, p1) := reset (svc w) (page w) in
  let r2 := mkService (audio r1) true (intervalId r1) in
  attach (Url url) r2 p1 (updates w).

(** What the element answers to [play()]: whether it leaves the paused
    state, and the error the returned promise is rejected with, if any
    (its name and message). *)
Record PlayAnswer : Type := mkAnswer {
  starts   : bool;
  rejected : option (string * option string)
}.

(** Lines 368-370. *)
Definition errorMessage (err : string * option string) : string :=
  if String.eqb (fst err) "NotAllowedError" then
    "Playback was blocked by browser. User interaction required."
  else
    ("Error playing audio: " ++
     match snd err with
     | Some (String c rest) => String c rest
     | _ => "Unknown error"
     end)%string.

Definition onHeld (f : Element -> Element) (w : World) : World :=
  match audio (svc w) with
  | Some i => mkWorld (svc w) (onElement i f (page w)) (updates w)
  | None => w
  end.

(** [play()] (lines 362-380): the state is reported before the promise
    settles. *)
Definition play (ans : PlayAnswer) (w : World) : World :=
  match audio (svc w) with
  | Some _ =>
      let w1 :=
        if starts ans then onHeld (onMedia (set_paused false)) w else w in
      let w2 := updateState w1 in
      match rejected ans with
      | Some err =>
          mkWorld (svc w2) (dispatchError (errorMessage err) (page w2))
                  (updates w2)
      | None => w2
      end
  | None => w
  end.

(** [pause()] (lines 382-387) *)
Definition pause (w : World) : World :=
  match audio (svc w) with
  | Some _ => updateState (onHeld (onMedia (set_paused true)) w)
  | None => w
  end.

(** [stop()] (lines 389-395) *)
Definition stop (w : World) : World :=
  match audio (svc w) with
  | Some _ =>
      updateState
        (onHeld (onMedia (set_currentTime (JS.Fin 0)))
                (onHeld (onMedia (set_paused true)) w))
  | None => w
  end.

(** [seek], [rewind], [forward] (lines 397-416): the value assigned is
    the one of the element-level model. *)
Definition assign (target : Player.AudioElement -> JS.num) (w : World)
  : World :=
  match audio (svc w) with
  | Some _ =>
      updateState
        (onHeld (onMedia (fun a => set_currentTime (target a) a)) w)
  | None => w
  end.

Definition seek (time : JS.num) (w : World) : World :=
  assign (Player.seekTarget time) w.

Definition rewind (seconds : option JS.num) (w : World) : World :=
  assign (Player.rewindTarget (Player.orFive seconds)) w.

Definition forward (seconds : option JS.num) (w : World) : World :=
  assign (Player.forwardTarget (Player.orFive seconds)) w.

(** What the page does to the elements and timers in between. *)
Inductive PageEvent : Type :=
| Metadata (i : nat) (d : JS.num)    (* loadedmetadata on element i *)
| Ended (i : nat)                    (* playback of element i ended *)
| Progress (i : nat) (t : JS.num)    (* element i plays on to time t *)
| Tick (id : nat).                   (* interval timer id fires     *)

Definition wiredAt (i : nat) (w : World) : bool :=
  match nth_error (elements (page w)) i with
  | Some e => wired e
  | None => false
  end.

Definition pageEvent (ev : PageEvent) (w : World) : World :=
  match ev with
  | Metadata i d =>
      let w1 := mkWorld (svc w)
                        (onElement i (onMedia (set_duration d)) (page w))
                        (updates w) in
      if wiredAt i w then updateState w1 else w1
  | Ended i =>
      let w1 := mkWorld (svc w)
                        (onElement i (onMedia (set_paused true)) (page w))
                        (updates w) in
      if wiredAt i w then updateState w1 else w1
  | Progress i t =>
      mkWorld (svc w)
              (onElement i
                 (onMedia (fun a => if Player.el_paused a then a
                                    else set_currentTime t a))
                 (page w))
              (updates w)
  | Tick id => if timerActive id (page w) then updateState w else w
  end.

(** Calls of a client and events of the page. *)
Inductive Call : Type :=
| CallLoad (b : Blob)
| CallLoadUrl (url : string)
| CallPlay (ans : PlayAnswer)
| CallPause
| CallStop
| CallSeek (time : JS.num)
| CallRewind (seconds : option JS.num)
| CallForward (seconds : option JS.num)
| Event (ev : PageEvent).

Definition call (w : World) (c : Call) : World :=
  match c with
  | CallLoad b => load b w
  | CallLoadUrl url => loadUrl url w
  | CallPlay ans => play ans w
  | CallPause => pause w
  | CallStop => stop w
  | CallSeek time => seek time w
  | CallRewind seconds => rewind seconds w
  | CallForward seconds => forward seconds w
  | Event ev => pageEvent ev w
  end.

(** The constructor (lines 305-307), on an empty page. *)
Definition constructed : World :=
  let '(r, p) := reset (mkService None false None) (mkPage [] [] [] 0 []) in
  mkWorld r p [].

Definition session (calls : list Call) : World :=
  fold_left call calls constructed.

(** An element nobody can hear: paused, without a source. *)
Definition silent (e : Element) : Prop :=
  Player.el_paused (media e) = true /\ src e = NoSrc.

Definition ownTimers (r : Service) : list (nat * Z) :=
  match intervalId r with Some id => [(id, 100%Z)] | None => [] end.

(** Every element but the one held is silent, and the only timer is the
    one remembered. *)
Definition calm (r : Service) (p : Page) : Prop :=
  (forall i e, nth_error (elements p) i = Some e ->
               audio r <> Some i -> silent e) /\
  intervals p = ownTimers r.

Definition holding (r : Service) (p : Page) : Prop :=
  exists i, audio r = Some i /\ (i < List.length (elements p))%nat.

End Playback.

(* ================================================================== *)
(** ** The level meter *)
(* ================================================================== *)

Module Level.

Import Recorder RecorderOps.

(** The level a telemetry update carries is a fraction. *)
Definition levelOk (u : RecordingState) : Prop :=
  match audioLevel u with
  | Some l => 0 <= l <= 1
  | None => True
  end.

(** The reading a call takes, if it takes one. *)
Definition readingOf (c : Call) : option Reading :=
  match c with
  | CallStart _ _ rd => Some rd
  | CallStop _ rd => Some rd
  | CallOp (Capture.OpTick rd) => Some rd
  | CallOp (Capture.OpPause _ rd) => Some rd
  | CallOp (Capture.OpResume _ rd) => Some rd
  | CallOp (Capture.OpData _) => None
  end.

(** The analyser fills its array with bytes. *)
Definition bytesOnly (c : Call) : Prop :=
  match readingOf c with
  | Some rd => Forall isByte (spectrum rd)
  | None => True
  end.

Definition metered (w : World) : Prop :=
  0 <= audioLevelF (svc w) <= 1 /\
  dataArray (svc w) <> Some [] /\
  Forall levelOk (updates w).

End Level.

(* ================================================================== *)
(** ** Text search as the selectors use it *)
(* ================================================================== *)

Module Text.

(** [s.includes(q)]: [q] occurs in [s] as a substring. *)
Fixpoint includes (s q : string) : bool :=
  String.prefix q s ||
  match s with
  | EmptyString => false
  | String _ rest => includes rest q
  end.

(** [toLowerCase] on text in the ASCII range. *)
Definition lowerChar (c : ascii) : ascii :=
  let n := nat_of_ascii c in
  if (65 <=? n)%nat && (n <=? 90)%nat then ascii_of_nat (n + 32) else c.

Fixpoint asciiLower (s : string) : string :=
  match s with
  | EmptyString => EmptyString
  | String c rest => String (lowerChar c) (asciiLower rest)
  end.

(** [!s] for a string: only the empty string is falsy. *)
Definition isEmpty (s : string) : bool :=
  match s with EmptyString => true | String _ _ => false end.

End Text.

(* ================================================================== *)
(** ** The prompts store ([promptsStore.ts], lines 1-103) *)
(* ================================================================== *)

Module Prompts.

Record Prompt : Type := mkPrompt {
  prompt_id        : Z;
  prompt_name      : string;
  prompt_text      : string;
  prompt_createdAt : string;
  prompt_updatedAt : string
}.

Record NewPrompt : Type := mkNewPrompt {
  np_name : string;
  np_text : string
}.

Record PromptsState : Type := mkState {
  prompts           : list Prompt;
  isLoading         : bool;
  newPrompt         : NewPrompt;
  editingPromptId   : option Z;
  selectedPromptIds : list Z;
  promptSearchQuery : string
}.

Definition initialNewPrompt : NewPrompt :=
  mkNewPrompt EmptyString EmptyString.

Definition initialState : PromptsState :=
  mkState [] false initialNewPrompt None [] EmptyString.

Definition setPrompts (ps : list Prompt) (s : PromptsState) : PromptsState :=
  mkState ps (isLoading s) (newPrompt s) (editingPromptId s)
          (selectedPromptIds s) (promptSearchQuery s).

Definition setEditingPromptId (id : option Z) (s : PromptsState)
  : PromptsState :=
  mkState (prompts s) (isLoading s) (newPrompt s) id
          (selectedPromptIds s) (promptSearchQuery s).

Definition setSelectedPromptIds (ids : list Z) (s : PromptsState)
  : PromptsState :=
  mkState (prompts s) (isLoading s) (newPrompt s) (editingPromptId s)
          ids (promptSearchQuery s).

Definition setPromptSearchQuery (q : string) (s : PromptsState)
  : PromptsState :=
  mkState (prompts s) (isLoading s) (newPrompt s) (editingPromptId s)
          (selectedPromptIds s) q.

(** [ids.includes(id)] *)
Definition includes (id : Z) (ids : list Z) : bool :=
  existsb (Z.eqb id) ids.

(** [ids.filter(promptId => promptId !== id)] *)
Definition without (id : Z) (ids : list Z) : list Z :=
  filter (fun promptId => negb (Z.eqb promptId id)) ids.

(** Lines 55-62. *)
Definition toggleSelectedPrompt (id : Z) (s : PromptsState) : PromptsState :=
  setSelectedPromptIds
    (if includes id (selectedPromptIds s)
     then without id (selectedPromptIds s)
     else selectedPromptIds s ++ [id])
    s.

(** Lines 68-70. *)
Definition addPrompt (p : Prompt) (s : PromptsState) : PromptsState :=
  setPrompts (prompts s ++ [p]) s.

(** Lines 78-82. *)
Definition removePrompt (id : Z) (s : PromptsState) : PromptsState :=
  mkState (filter (fun p => negb (Z.eqb (prompt_id p) id)) (prompts s))
          (isLoading s) (newPrompt s)
          (match editingPromptId s with
           | Some e => if Z.eqb e id then None else Some e
           | None => None
           end)
          (without id (selectedPromptIds s))
          (promptSearchQuery s).

(** Lines 84-87. *)
Definition resetNewPrompt (s : PromptsState) : PromptsState :=
  mkState (prompts s) (isLoading s) initialNewPrompt None
          (selectedPromptIds s) (promptSearchQuery s).

(** The ids the store refers to, outside the list of prompts. *)
Definition refersTo (id : Z) (s : PromptsState) : Prop :=
  In id (selectedPromptIds s) \/ editingPromptId s = Some id.

Section Search.

(** The platform's [String.prototype.toLowerCase]. *)
Variable toLowerCase : string -> string.

(** Lines 91-103. *)
Definition selectFilteredPrompts (s : PromptsState) : list Prompt :=
  if Text.isEmpty (promptSearchQuery s) then prompts s
  else
    let query := toLowerCase (promptSearchQuery s) in
    filter (fun p =>
              Text.includes (toLowerCase (prompt_name p)) query ||
              Text.includes (toLowerCase (prompt_text p)) query)
           (prompts s).

End Search.

End Prompts.

(* ================================================================== *)
(** ** The conversations store ([conversationsStore.ts]) *)
(* ================================================================== *)

Module Conversations.

Record ConversationType : Type := mkType {
  type_id   : Z;
  type_name : string
}.

Record Transcription : Type := mkTranscription {
  tr_id             : Z;
  tr_conversationId : Z;
  tr_text           : string;
  tr_isEdited       : option bool
}.

Record Analysis : Type := mkAnalysis {
  an_id             : Z;
  an_conversationId : Z;
  an_promptId       : Z;
  an_result         : string
}.

(** [ConversationWithDetails]: the row and the optional related rows. *)
Record ConversationWithDetails : Type := mkDetails {
  row           : Store.Conversation;
  student       : option Store.Student;
  type          : option ConversationType;
  transcription : option Transcription;
  analyses      : option (list Analysis)
}.

Definition id (c : ConversationWithDetails) : Z := Store.conv_id (row c).

Definition typeId (c : ConversationWithDetails) : option Z :=
  Store.conv_typeId (row c).

Record ConversationsState : Type := mkState {
  conversations          : list ConversationWithDetails;
  isLoading              : bool;
  selectedConversationId : option Z;
  searchQuery            : string;
  selectedTypeId         : option Z
}.

Definition initialState : ConversationsState :=
  mkState [] false None EmptyString None.

Definition setConversations (cs : list ConversationWithDetails)
                            (s : ConversationsState) : ConversationsState :=
  mkState cs (isLoading s) (selectedConversationId s) (searchQuery s)
          (selectedTypeId s).

Definition setSelectedConversationId (i : option Z) (s : ConversationsState)
  : ConversationsState :=
  mkState (conversations s) (isLoading s) i (searchQuery s)
          (selectedTypeId s).

Definition setSearchQuery (q : string) (s : ConversationsState)
  : ConversationsState :=
  mkState (conversations s) (isLoading s) (selectedConversationId s) q
          (selectedTypeId s).

Definition setSelectedTypeId (t : option Z) (s : ConversationsState)
  : ConversationsState :=
  mkState (conversations s) (isLoading s) (selectedConversationId s)
          (searchQuery s) t.

(** Lines 43-45. *)
Definition addConversation (c : ConversationWithDetails)
                           (s : ConversationsState) : ConversationsState :=
  setConversations (conversations s ++ [c]) s.

(** Lines 53-56. *)
Definition removeConversation (i : Z) (s : ConversationsState)
  : ConversationsState :=
  mkState (filter (fun conv => negb (Z.eqb (id conv) i)) (conversations s))
          (isLoading s)
          (match selectedConversationId s with
           | Some sel => if Z.eqb sel i then None else Some sel
           | None => None
           end)
          (searchQuery s) (selectedTypeId s).

(** [conv.id === state.selectedConversationId] *)
Definition isSelected (s : ConversationsState) (conv : ConversationWithDetails)
  : bool :=
  match selectedConversationId s with
  | Some sel => Z.eqb (id conv) sel
  | None => false
  end.

(** Lines 78-80: [find(...) || null]. *)
Definition selectSelectedConversation (s : ConversationsState)
  : option ConversationWithDetails :=
  find (isSelected s) (conversations s).

Section Search.

Variable toLowerCase : string -> string.

(** [x?.name.toLowerCase().includes(query.toLowerCase())], undefined
    (falsy) when the related row is missing. *)
Definition mentions (text : option string) (query : string) : bool :=
  match text with
  | Some t => Text.includes (toLowerCase t) (toLowerCase query)
  | None => false
  end.

(** Lines 63-67. *)
Definition matchesSearch (s : ConversationsState)
                         (conv : ConversationWithDetails) : bool :=
  Text.isEmpty (searchQuery s) ||
  (mentions (option_map Store.student_name (student conv)) (searchQuery s) ||
   mentions (option_map type_name (type conv)) (searchQuery s) ||
   mentions (option_map tr_text (transcription conv)) (searchQuery s)).

(** Line 70. *)
Definition matchesType (s : ConversationsState)
                       (conv : ConversationWithDetails) : bool :=
  match selectedTypeId s with
  | None => true
  | Some t =>
      match typeId conv with
      | Some ct => Z.eqb ct t
      | None => false
      end
  end.

(** Lines 60-74. *)
Definition selectFilteredConversations (s : ConversationsState)
  : list ConversationWithDetails :=
  filter (fun conv => matchesSearch s conv && matchesType s conv)
         (conversations s).

End Search.

(** A conversation loaded without any related row. *)
Definition bare (c : ConversationWithDetails) : Prop :=
  student c = None /\ type c = None /\ transcription c = None.

End Conversations.

(* ================================================================== *)
(** ** Error texts of the jobs *)
(* ================================================================== *)

Module Outcome.

Import Store.


End Outcome.

(* ================================================================== *)
(** ** Audio files on the server ([FileStorage]) *)
(* ================================================================== *)

Module FileStorage.

Definition Buffer : Type := list Byte.byte.

(** The regular files of the base directory, by name.  File names are
    plain names: [path.join(basePath, fileName)] stays inside the
    directory and names one entry. *)
Definition Dir : Type := list (string * Buffer).

(** A promise: fulfilled with a value or rejected with an [Error] of
    the given message. *)
Inductive Result (A : Type) : Type :=
| Fulfilled (a : A)
| Rejected (message : string).

Arguments Fulfilled {A} a.
Arguments Rejected {A} message.

Definition named (name : string) (e : string * Buffer) : bool :=
  String.eqb (fst e) name.

(** [fs.readFile]: the contents, or ENOENT. *)
Definition readFile (name : string) (d : Dir) : option Buffer :=
  option_map snd (find (named name) d).

(** [fs.writeFile]: the file is created or its contents replaced. *)
Fixpoint writeFile (name : string) (buffer : Buffer) (d : Dir) : Dir :=
  match d with
  | [] => [(name, buffer)]
  | e :: rest =>
      if named name e then (fst e, buffer) :: rest
      else e :: writeFile name buffer rest
  end.

(** [fs.unlink]: ENOENT if there is no such file. *)
Definition unlink (name : string) (d : Dir) : option Dir :=
  match readFile name d with
  | Some _ => Some (filter (fun e => negb (named name e)) d)
  | None => None
  end.

(** [saveAudioFile] (lines 39-46): what it does to the directory; the
    joined path it returns is left out. *)
Definition saveAudioFile (buffer : Buffer) (fileName : string) (d : Dir)
  : Dir :=
  writeFile fileName buffer d.

(** [getAudioFile] (lines 48-74) *)
Definition getAudioFile (fileName : string) (d : Dir) : Result Buffer :=
  match readFile fileName d with
  | Some [] =>
      Rejected ("Audio file exists but is empty: " ++ fileName)
  | Some (b :: bs) => Fulfilled (b :: bs)
  | None => Rejected ("Audio file not found: " ++ fileName)
  end.

(** [deleteAudioFile] (lines 76-79): the error of [unlink] is passed
    on. *)
Definition deleteAudioFile (fileName : string) (d : Dir) : Result Dir :=
  match unlink fileName d with
  | Some d' => Fulfilled d'
  | None => Rejected ("ENOENT: no such file or directory, unlink " ++ fileName)
  end.

(** The loop of lines 85-91: the sizes of the entries, added up. *)
Definition sizes (d : Dir) : Z :=
  fold_left (fun acc e => (acc + Z.of_nat (List.length (snd e)))%Z) d 0%Z.



End FileStorage.

(* ================================================================== *)
(** * Properties *)
(* ================================================================== *)

(** ** The store *)

Section StoreFacts.

Import Store.

Lemma Status_eqb_eq (a b : Status) : Status_eqb a b = true <-> a = b.
Proof. destruct a, b; simpl; split; congruence. Qed.

Lemma setQueue_same (s : SessionState) :
  setQueue s (transcriptionQueue s) = s.
Proof. destruct s; reflexivity. Qed.

Lemma queue_enqueue id path s :
  transcriptionQueue (enqueue id path s)
  = transcriptionQueue s ++ [mkItem id path Pending None].
Proof. reflexivity. Qed.

Lemma jobsWithId_app id q1 q2 :
  jobsWithId id (q1 ++ q2) = jobsWithId id q1 ++ jobsWithId id q2.
Proof. unfold jobsWithId. apply filter_app. Qed.

Lemma jobsWithId_absent id q :
  ~ In id (ids q) -> jobsWithId id q = [].
Proof.
  induction q as [|j q IH]; simpl; intros H; [reflexivity|].
  destruct (Z.eqb_spec (conversationId j) id) as [E|E].
  - exfalso. apply H. now left.
  - apply IH. intros K. apply H. now right.
Qed.

Lemma enqueueAll_queue items : forall s,
  transcriptionQueue (Store.enqueueAll items s)
  = transcriptionQueue s
    ++ map (fun it => mkItem (fst it) (snd it) Pending None) items.
Proof.
  induction items as [|it items IH]; intros s; simpl.
  - now rewrite app_nil_r.
  - unfold Store.enqueueAll in IH. rewrite IH, queue_enqueue.
    now rewrite <- app_assoc.
Qed.

Lemma ids_pending items :
  ids (map (fun it : Z * string => mkItem (fst it) (snd it) Pending None)
           items)
  = map fst items.
Proof. unfold ids. rewrite map_map. reflexivity. Qed.

Lemma jobsWithId_pending id path items :
  NoDup (map fst items) -> In (id, path) items ->
  jobsWithId id
    (map (fun it : Z * string => mkItem (fst it) (snd it) Pending None)
         items)
  = [mkItem id path Pending None].
Proof.
  induction items as [|[j p] items IH]; simpl; intros ND HIn; [easy|].
  inversion ND as [|? ? Hnot ND']; subst.
  destruct HIn as [E|HIn].
  - inversion E; subst. rewrite Z.eqb_refl. f_equal.
    apply jobsWithId_absent. now rewrite ids_pending.
  - destruct (Z.eqb_spec j id) as [E|E].
    + subst. exfalso. apply Hnot.
      change id with (fst (id, path)). now apply in_map.
    + now apply IH.
Qed.

End StoreFacts.

(** C1, as the code has it: [addToTranscriptionQueue] always appends one
    Pending job and keeps the jobs already queued; for enqueue calls with
    pairwise distinct conversation ids the queue holds no two jobs with
    the same id, and exactly one job for each id enqueued. *)
Theorem enqueue_appends_distinct_ids_unique :
  (forall id path s,
      Store.transcriptionQueue (Store.enqueue id path s)
      = Store.transcriptionQueue s ++ [Store.mkItem id path Store.Pending None])
  /\
  (forall today items,
      NoDup (map fst items) ->
      let q := Store.transcriptionQueue
                 (Store.enqueueAll items (Store.initialState today)) in
      NoDup (Store.ids q) /\
      forall id path, In (id, path) items ->
        Store.jobsWithId id q = [Store.mkItem id path Store.Pending None]).
Proof.
  split; [intros; apply queue_enqueue|].
  intros today items ND q. subst q.
  rewrite enqueueAll_queue. simpl. split.
  - now rewrite ids_pending.
  - intros id path HIn. now apply jobsWithId_pending.
Qed.

Lemma enqueue_appends_distinct_ids_unique_witness :
  Store.jobsWithId 7
    (Store.transcriptionQueue
       (Store.enqueueAll [(7%Z, "a.wav"%string); (9%Z, "b.wav"%string)]
                           (Store.initialState Samples.today)))
  = [Store.mkItem 7 "a.wav" Store.Pending None].
Proof.
  refine (proj2 (proj2 enqueue_appends_distinct_ids_unique
                   Samples.today [(7%Z, "a.wav"%string); (9%Z, "b.wav"%string)] _)
                7%Z "a.wav"%string _).
  - simpl. repeat constructor; simpl; intuition discriminate.
  - simpl. now left.
Defined.

(** C1 as stated fails: two enqueues of the same id leave two jobs with
    that id in the queue. *)
Lemma enqueue_same_id_twice_duplicates :
  let s := Store.enqueue 7 "a.wav"
             (Store.enqueue 7 "a.wav" (Store.initialState Samples.today)) in
  List.length (Store.jobsWithId 7 (Store.transcriptionQueue s)) = 2%nat
  /\ ~ NoDup (Store.ids (Store.transcriptionQueue s)).
Proof.
  simpl. split; [reflexivity|].
  intros H. inversion H as [|? ? Hnot _]; subst. apply Hnot. now left.
Qed.

(** C7: [resetSession] puts the session-entry fields, both telemetry
    records, [isTranscribing], the transcript search query and the current
    conversation back to the values of the initial store, and leaves the
    transcription queue exactly as it was. *)
Theorem resetSession_restores_and_keeps_queue :
  forall today s,
    let s' := Store.resetSession today s in
    let i  := Store.initialState today in
    Store.currentSessionData s' = Store.currentSessionData i /\
    Store.recordingState s' = Store.recordingState i /\
    Store.playbackState s' = Store.playbackState i /\
    Store.isTranscribing s' = Store.isTranscribing i /\
    Store.transcriptSearchQuery s' = Store.transcriptSearchQuery i /\
    Store.currentConversation s' = Store.currentConversation i /\
    Store.transcriptionQueue s' = Store.transcriptionQueue s.
Proof. intros today s. simpl. repeat split. Qed.



(** ** The player's transport controls *)

Section PlayerFacts.

Lemma Qle_bool_true_le p q : Qle_bool p q = true -> p <= q.
Proof. apply Qle_bool_iff. Qed.

Lemma Qle_bool_false_lt p q : Qle_bool p q = false -> q < p.
Proof.
  intros H. apply Qnot_le_lt. intros K.
  apply Qle_bool_iff in K. congruence.
Qed.

Lemma Qeq_bool_false_neq p q : Qeq_bool p q = false -> ~ p == q.
Proof. intros H K. apply Qeq_bool_iff in K. congruence. Qed.

End PlayerFacts.

(** Case analysis on the comparisons a clamp makes, leaving linear
    arithmetic over the rationals. *)
Ltac js_cases :=
  repeat match goal with
    | |- context [Qle_bool ?p ?q] =>
        let E := fresh "E" in
        destruct (Qle_bool p q) eqn:E;
        [apply Qle_bool_true_le in E | apply Qle_bool_false_lt in E];
        simpl
    | |- context [Qeq_bool ?p ?q] =>
        let E := fresh "E" in
        destruct (Qeq_bool p q) eqn:E;
        [apply Qeq_bool_eq in E | apply Qeq_bool_false_neq in E];
        simpl
    end.

Ltac js_close :=
  repeat match goal with
    | |- _ /\ _ => split
    | |- _ -> _ => intro
    | |- Qle_bool _ _ = true => apply Qle_bool_iff
    | H : Qle_bool _ _ = true |- _ => apply Qle_bool_true_le in H
    | H : Qle_bool _ _ = false |- _ => apply Qle_bool_false_lt in H
    end;
  try reflexivity; try discriminate; try tauto; try lra.

(** C2, as the code has it.  Write [d] for [duration || 0], the duration
    or 0 while it is unknown.  For a loaded element, [seek(time)] with a
    number leaves the current time in [[0, d]]; so do [rewind(n)] and
    [forward(n)] for a step [n >= 0] from a current time in [[0, d]].
    While the duration is unknown [d] is 0 and is applied as the upper
    bound: [seek] and [forward] then leave the current time at 0.  Only
    for an infinite duration is [seek] bounded from below alone. *)
Theorem seek_rewind_forward_within_effective_duration :
  forall w a,
    Player.audio (Player.svc w) = Some a ->
    Player.mediaDuration (Player.el_duration a) ->
    let d := JS.orZero (Player.el_duration a) in
    (forall time, JS.isNaN time = false ->
       exists t, Player.timeOf (Player.seek time w) = Some t /\
                 JS.within (JS.Fin 0) d t /\
                 (Player.durationUnknown a = true -> JS.eqn t (JS.Fin 0)) /\
                 (Player.el_duration a = JS.PosInf ->
                  t = JS.max (JS.Fin 0) time))
    /\
    (forall n, 0 <= n ->
       JS.within (JS.Fin 0) d (Player.el_currentTime a) ->
       (exists t, Player.timeOf (Player.rewind (Some (JS.Fin n)) w) = Some t /\
                  JS.within (JS.Fin 0) d t) /\
       (exists t, Player.timeOf (Player.forward (Some (JS.Fin n)) w) = Some t /\
                  JS.within (JS.Fin 0) d t /\
                  (Player.durationUnknown a = true ->
                   JS.eqn t (JS.Fin 0)))).
Proof.
  intros w a Ha Hd d. subst d.
  destruct w as [[au cb] ups]. simpl in Ha. subst au.
  destruct a as [pa ct du]. simpl in *.
  assert (T : forall x,
             Player.timeOf
               (Player.assignTime x (Player.mkAudio pa ct du)
                  (Player.mkWorld
                     (Player.mkService (Some (Player.mkAudio pa ct du)) cb)
                     ups)) = Some x).
  { intros x. unfold Player.assignTime, Player.updateState, Player.timeOf.
    simpl. destruct cb; reflexivity. }
  split.
  - intros time Ht. unfold Player.seek. simpl. rewrite T.
    eexists; split; [reflexivity|].
    unfold Player.seekTarget, Player.durationUnknown, JS.within,
      JS.orZero. simpl.
    destruct Hd as [Hd|Hd]; [subst du|].
    + destruct time; try discriminate; simpl; js_cases; js_close.
    + destruct du as [| |q|]; try discriminate; simpl in *;
        destruct time; try discriminate; simpl;
        js_cases; simpl; js_cases; js_close.
  - intros n Hn [H0 H1]. unfold Player.rewind, Player.forward. simpl.
    rewrite !T. split.
    + eexists; split; [reflexivity|].
      unfold Player.rewindTarget, JS.within, JS.orZero in *. simpl in *.
      destruct Hd as [Hd|Hd]; [subst du|].
      * destruct ct; try discriminate; simpl in *;
          js_cases; simpl; js_cases; js_close.
      * destruct du as [| |q|]; try discriminate; simpl in *;
          destruct ct; try discriminate; simpl in *;
          js_cases; simpl in *; js_cases; js_close.
    + eexists; split; [reflexivity|].
      unfold Player.forwardTarget, Player.durationUnknown, JS.within,
        JS.orZero in *. simpl in *.
      destruct Hd as [Hd|Hd]; [subst du|].
      * destruct ct; try discriminate; simpl in *;
          js_cases; simpl; js_cases; js_close.
      * destruct du as [| |q|]; try discriminate; simpl in *;
          destruct ct; try discriminate; simpl in *;
          js_cases; simpl in *; js_cases; js_close.
Qed.

Lemma seek_rewind_forward_within_effective_duration_witness :
  (exists t,
      Player.timeOf
        (Player.seek (JS.Fin 30) (Player.loaded (JS.Fin 2) (JS.Fin 10)))
      = Some t /\ JS.within (JS.Fin 0) (JS.Fin 10) t)
  /\
  (exists t,
      Player.timeOf
        (Player.rewind (Some (JS.Fin 5))
                       (Player.loaded (JS.Fin 2) (JS.Fin 10)))
      = Some t /\ JS.within (JS.Fin 0) (JS.Fin 10) t).
Proof.
  pose proof (seek_rewind_forward_within_effective_duration
                (Player.loaded (JS.Fin 2) (JS.Fin 10))
                (a := Player.mkAudio true (JS.Fin 2) (JS.Fin 10))
                eq_refl (or_intror eq_refl)) as [Hseek Hstep].
  split.
  - destruct (Hseek (JS.Fin 30) eq_refl) as [t [H1 [H2 _]]].
    exists t. split; assumption.
  - assert (Hn : 0 <= 5) by (unfold Qle; simpl; lia).
    destruct (Hstep 5 Hn (conj eq_refl eq_refl)) as [[t [H1 H2]] _].
    exists t. split; assumption.
Defined.

(** C2 as stated fails: with the duration unknown, [seek(30)] does not
    only apply the lower bound (which would give 30); the upper bound 0
    is applied and the current time becomes 0. *)
Lemma seek_unknown_duration_clamped_above :
  let w := Player.loaded (JS.Fin 0) JS.NaN in
  Player.timeOf (Player.seek (JS.Fin 30) w) = Some (JS.Fin 0) /\
  Player.timeOf (Player.seek (JS.Fin 30) w)
  <> Some (JS.max (JS.Fin 0) (JS.Fin 30)).
Proof. simpl. split; [reflexivity|]. vm_compute. discriminate. Qed.

(** ** [formatTime] *)

Section FormatFacts.

Import Format.




















End FormatFacts.



(** ** The recorder: resources *)

Section RecorderFacts.

Import Recorder.

Lemma reset_service (r : Service) (b : Browser) :
  fst (reset r b)
  = mkService (audioContext r) noNodes None [] None 0 0
              (updateCallback r) None 0 None.
Proof.
  unfold reset. destruct r as [ac ns mr ch st t0 tp cb iv lv da]. simpl.
  destruct st; simpl; destruct iv; reflexivity.
Qed.

Lemma stopTracks_keeps (s : MediaStream) : forall b,
  edges (stopTracks s b) = edges b /\
  intervals (stopTracks s b) = intervals b /\
  nextTimer (stopTracks s b) = nextTimer b /\
  nextContext (stopTracks s b) = nextContext b.
Proof.
  unfold stopTracks. induction (tracks s) as [|t ts IH]; intros b; simpl.
  - repeat split.
  - destruct (IH (stopTrack t b)) as [A [B [C D]]].
    rewrite A, B, C, D. repeat split.
Qed.

Lemma dropNode_keeps (n : option NodeId) (b : Browser) :
  liveTracks (dropNode n b) = liveTracks b /\
  intervals (dropNode n b) = intervals b /\
  nextTimer (dropNode n b) = nextTimer b /\
  nextContext (dropNode n b) = nextContext b.
Proof. destruct n; simpl; repeat split. Qed.

Lemma dispose_keeps (r : Service) (b : Browser) :
  liveTracks (snd (disposeAudioNodes r b)) = liveTracks b /\
  intervals (snd (disposeAudioNodes r b)) = intervals b /\
  nextTimer (snd (disposeAudioNodes r b)) = nextTimer b /\
  nextContext (snd (disposeAudioNodes r b)) = nextContext b.
Proof.
  unfold disposeAudioNodes. simpl.
  repeat split;
    repeat match goal with
      | |- context [liveTracks (dropNode ?n ?x)] =>
          rewrite (proj1 (dropNode_keeps n x))
      | |- context [intervals (dropNode ?n ?x)] =>
          rewrite (proj1 (proj2 (dropNode_keeps n x)))
      | |- context [nextTimer (dropNode ?n ?x)] =>
          rewrite (proj1 (proj2 (proj2 (dropNode_keeps n x))))
      | |- context [nextContext (dropNode ?n ?x)] =>
          rewrite (proj2 (proj2 (proj2 (dropNode_keeps n x))))
      end; reflexivity.
Qed.

Lemma dispose_service (r : Service) (b : Browser) :
  fst (disposeAudioNodes r b) = set_nodes noNodes r.
Proof. reflexivity. Qed.

Lemma reset_counters (r : Service) (b : Browser) :
  nextTimer (snd (reset r b)) = nextTimer b /\
  nextContext (snd (reset r b)) = nextContext b.
Proof.
  unfold reset.
  destruct (stream r) as [s|].
  - destruct (stopTracks_keeps s b) as [_ [_ [C D]]].
    destruct (disposeAudioNodes (set_stream None r) (stopTracks s b))
      as [r2 b2] eqn:E.
    pose proof (dispose_keeps (set_stream None r) (stopTracks s b)) as K.
    rewrite E in K. simpl in K. destruct K as [_ [_ [K1 K2]]].
    simpl. destruct (intervalId r2); simpl; split; congruence.
  - destruct (disposeAudioNodes r b) as [r2 b2] eqn:E.
    pose proof (dispose_keeps r b) as K.
    rewrite E in K. simpl in K. destruct K as [_ [_ [K1 K2]]].
    simpl. destruct (intervalId r2); simpl; split; congruence.
Qed.

Lemma updateState_browser (rd : Reading) (w : World) :
  browser (updateState rd w) = browser w.
Proof. unfold updateState. destruct (updateCallback (svc w)); reflexivity. Qed.

Lemma updateAudioLevel_fields (d : list Z) (r : Service) :
  let r' := updateAudioLevel d r in
  audioContext r' = audioContext r /\ nodes r' = nodes r /\
  mediaRecorder r' = mediaRecorder r /\ audioChunks r' = audioChunks r /\
  stream r' = stream r /\ startTime r' = startTime r /\
  pausedTime r' = pausedTime r /\ updateCallback r' = updateCallback r /\
  intervalId r' = intervalId r.
Proof.
  unfold updateAudioLevel.
  destruct (analyserNode (nodes r)); [destruct (dataArray r)|];
    simpl; repeat split.
Qed.

Lemma updateState_fields (rd : Reading) (w : World) :
  let r' := svc (updateState rd w) in
  audioContext r' = audioContext (svc w) /\ nodes r' = nodes (svc w) /\
  mediaRecorder r' = mediaRecorder (svc w) /\
  audioChunks r' = audioChunks (svc w) /\
  stream r' = stream (svc w) /\ startTime r' = startTime (svc w) /\
  pausedTime r' = pausedTime (svc w) /\
  updateCallback r' = updateCallback (svc w) /\
  intervalId r' = intervalId (svc w).
Proof.
  pose proof (updateAudioLevel_fields (spectrum rd) (svc w)) as K.
  unfold updateState. destruct (updateCallback (svc w)) eqn:E; simpl.
  - exact K.
  - rewrite E. repeat split.
Qed.

Lemma onstop_unfold (rd : Reading) (w : World) :
  onstop rd w
  = mkWorld
      (set_nodes noNodes (svc (updateState rd w)))
      (snd (disposeAudioNodes (svc (updateState rd w))
                              (afterTracks (updateState rd w))))
      (updates (updateState rd w)).
Proof. reflexivity. Qed.

Lemma onstop_keeps_timer (rd : Reading) (w : World) :
  intervalId (svc (onstop rd w)) = intervalId (svc w) /\
  intervals (browser (onstop rd w)) = intervals (browser w).
Proof.
  rewrite onstop_unfold. split.
  - cbn [svc]. unfold set_nodes. cbn [intervalId].
    apply (updateState_fields rd w).
  - cbn [browser]. rewrite (proj1 (proj2 (dispose_keeps _ _))).
    unfold afterTracks.
    destruct (stream (svc (updateState rd w))) as [s|].
    + rewrite (proj1 (proj2 (stopTracks_keeps s _))).
      now rewrite updateState_browser.
    + now rewrite updateState_browser.
Qed.

Lemma stop_keeps_timer (w : World) :
  intervalId (svc (stop w)) = intervalId (svc w) /\
  browser (stop w) = browser w.
Proof.
  unfold stop. destruct (mediaRecorder (svc w)) as [mr|];
    [destruct (mr_state mr)|]; split; reflexivity.
Qed.

Lemma ondataavailable_keeps_timer (data : Blob) (w : World) :
  intervalId (svc (ondataavailable data w)) = intervalId (svc w) /\
  browser (ondataavailable data w) = browser w.
Proof.
  unfold ondataavailable. destruct (blob_bytes data); split; reflexivity.
Qed.

End RecorderFacts.

(** C8, as the code has it: a successful [start] creates, in a fresh
    audio context [c], the connections source -> high-pass (85 Hz) ->
    low-pass (10 kHz) -> compressor (threshold -24 dB, knee 30 dB, ratio
    12, attack 3 ms, release 250 ms) -> analyser (window 256), and a
    second connection compressor -> encoder sink; these five are the only
    connections it adds.  The recorder encodes the stream of the sink,
    which is fed from the compressor; the analyser is a side branch
    without outgoing connection. *)
Theorem start_builds_chain_sink_fed_by_compressor :
  forall env now rd w s,
    Recorder.userMedia env = inr s ->
    Capture.supported env = true ->
    let w' := fst (Recorder.start env now rd w) in
    let c  := Recorder.nextContext (Recorder.browser w) in
    let b1 := snd (Recorder.reset
                     (Recorder.set_updateCallback true (Recorder.svc w))
                     (Recorder.browser w)) in
    snd (Recorder.start env now rd w) = None /\
    Recorder.edges (Recorder.browser w')
    = Recorder.edges b1 ++
      [ ((c, Recorder.KSource),     (c, Recorder.KHighpass));
        ((c, Recorder.KHighpass),   (c, Recorder.KLowpass));
        ((c, Recorder.KLowpass),    (c, Recorder.KCompressor));
        ((c, Recorder.KCompressor), (c, Recorder.KAnalyser));
        ((c, Recorder.KCompressor), (c, Recorder.KDestination)) ] /\
    Recorder.nodes (Recorder.svc w')
    = Recorder.mkNodes
        (Some (c, Recorder.KSource))
        (Some (Recorder.mkAnalyser (c, Recorder.KAnalyser) 256))
        (Some (c, Recorder.KProcessor))
        (Some (Recorder.mkBiquad (c, Recorder.KHighpass)
                                 Recorder.BqHighpass 85))
        (Some (Recorder.mkBiquad (c, Recorder.KLowpass)
                                 Recorder.BqLowpass 10000))
        (Some (Recorder.mkCompressor (c, Recorder.KCompressor)
                                     (-24) 30 12 (3 # 1000) (25 # 100))) /\
    option_map Recorder.mr_input (Recorder.mediaRecorder (Recorder.svc w'))
    = Some (c, Recorder.KDestination) /\
    Recorder.stateOf (Recorder.mediaRecorder (Recorder.svc w'))
    = Some Recorder.Recording.
Proof.
  intros env now rd w s Hs Hsup. unfold Recorder.start. rewrite Hs.
  pose proof (reset_service
                (Recorder.set_updateCallback true (Recorder.svc w))
                (Recorder.browser w)) as RS.
  pose proof (reset_counters
                (Recorder.set_updateCallback true (Recorder.svc w))
                (Recorder.browser w)) as [_ RC].
  destruct (Recorder.reset
              (Recorder.set_updateCallback true (Recorder.svc w))
              (Recorder.browser w)) as [r1 b1].
  simpl in RS, RC. subst r1.
  unfold Recorder.buildGraph, Recorder.newContext,
    Recorder.newMediaRecorder. simpl.
  unfold Capture.supported in Hsup.
  destruct (Recorder.opusSupported env);
    [|destruct (Recorder.plainSupported env); [|discriminate Hsup]];
    simpl; unfold Recorder.updateState; simpl; rewrite RC;
    repeat split; rewrite <- !app_assoc; reflexivity.
Qed.

Lemma start_builds_chain_sink_fed_by_compressor_witness :
  Recorder.edges (Recorder.browser Samples.started)
  = [ ((0%nat, Recorder.KSource),     (0%nat, Recorder.KHighpass));
      ((0%nat, Recorder.KHighpass),   (0%nat, Recorder.KLowpass));
      ((0%nat, Recorder.KLowpass),    (0%nat, Recorder.KCompressor));
      ((0%nat, Recorder.KCompressor), (0%nat, Recorder.KAnalyser));
      ((0%nat, Recorder.KCompressor), (0%nat, Recorder.KDestination)) ].
Proof.
  exact (proj1 (proj2 (start_builds_chain_sink_fed_by_compressor
                         Samples.micEnv 1000 (Samples.quiet 1000)
                         Recorder.idleWorld
                         (s := Recorder.mkStream [0%nat])
                         eq_refl eq_refl))).
Defined.

(** C8 as stated fails: the encoder sink is not fed from the analyser
    stage; its only feeder is the compressor, and nothing is connected to
    the analyser's output. *)
Lemma encoder_sink_not_fed_by_analyser :
  let b := Recorder.browser Samples.started in
  Recorder.feeders (0%nat, Recorder.KDestination) b
  = [(0%nat, Recorder.KCompressor)] /\
  ~ In ((0%nat, Recorder.KAnalyser), (0%nat, Recorder.KDestination))
       (Recorder.edges b).
Proof.
  vm_compute. split; [reflexivity|].
  intros H. repeat (destruct H as [H|H]; [discriminate H|]). exact H.
Qed.

(** C3 at its failing input: [stop()] with its stop handler stops the
    tracks and drops the nodes, but touches neither [intervalId] nor the
    browser's timers.  After start and stop the 100 ms timer is still
    registered, and its next tick hands out one more update, with a
    larger duration than the one the stop handler reported. *)
Theorem stop_leaves_telemetry_timer_running :
  (forall last rd w,
      Recorder.intervalId (Recorder.svc (Recorder.stopped last rd w))
      = Recorder.intervalId (Recorder.svc w) /\
      Recorder.intervals (Recorder.browser (Recorder.stopped last rd w))
      = Recorder.intervals (Recorder.browser w))
  /\
  (let w := Samples.stoppedCapture in
   Recorder.intervalId (Recorder.svc w) = Some 0%nat /\
   Recorder.timerActive 0 (Recorder.browser w) = true /\
   Recorder.timerCancelled 0 (Recorder.svc w) (Recorder.browser w) = false /\
   Recorder.tracksStopped (Recorder.mkStream [0%nat]) (Recorder.browser w)
   = true /\
   Recorder.nodesDropped (Recorder.svc w) = true /\
   Recorder.edges (Recorder.browser w) = [] /\
   map rec_duration (Recorder.updates w) = [0 / 1000; (3000 - 1000) / 1000] /\
   map rec_duration
       (Recorder.updates (Recorder.tick 0 (Samples.quiet 3100) w))
   = [0 / 1000; (3000 - 1000) / 1000; (3100 - 1000) / 1000]).
Proof.
  split.
  - intros last rd w. unfold Recorder.stopped.
    destruct (Recorder.stateOf (Recorder.mediaRecorder (Recorder.svc w)))
      as [[| |]|]; try (split; reflexivity).
    + destruct (onstop_keeps_timer rd
                  (Recorder.ondataavailable last (Recorder.stop w)))
        as [A B].
      destruct (ondataavailable_keeps_timer last (Recorder.stop w))
        as [C D].
      destruct (stop_keeps_timer w) as [E F].
      split; congruence.
    + destruct (onstop_keeps_timer rd
                  (Recorder.ondataavailable last (Recorder.stop w)))
        as [A B].
      destruct (ondataavailable_keeps_timer last (Recorder.stop w))
        as [C D].
      destruct (stop_keeps_timer w) as [E F].
      split; congruence.
  - vm_compute. repeat split.
Qed.

(** The error exit of [start]: whatever had been set up, the service is
    back to its idle fields (the callback apart) and nothing was handed
    out. *)
Lemma failed_start_resets_service :
  forall env now rd w msg,
    snd (Recorder.start env now rd w) = Some msg ->
    Recorder.svc (fst (Recorder.start env now rd w))
    = Recorder.mkService
        (Recorder.audioContext (Recorder.svc (fst (Recorder.start env now rd w))))
        Recorder.noNodes None [] None 0 0 true None 0 None /\
    Recorder.updates (fst (Recorder.start env now rd w)) = Recorder.updates w.
Proof.
  intros env now rd w msg. unfold Recorder.start.
  pose proof (reset_service
                (Recorder.set_updateCallback true (Recorder.svc w))
                (Recorder.browser w)) as RS.
  destruct (Recorder.reset
              (Recorder.set_updateCallback true (Recorder.svc w))
              (Recorder.browser w)) as [r1 b1].
  simpl in RS. subst r1.
  destruct (Recorder.userMedia env) as [m|s].
  - intros _. unfold Recorder.startFailed. cbn [Recorder.svc Recorder.browser].
    pose proof (reset_service
                  (Recorder.mkService
                     (Recorder.audioContext (Recorder.svc w))
                     Recorder.noNodes None [] None 0 0 true None 0 None) b1)
      as RS2.
    destruct (Recorder.reset _ b1) as [r2 b2]. simpl in RS2. subst r2.
    split; reflexivity.
  - unfold Recorder.buildGraph, Recorder.newContext,
      Recorder.newMediaRecorder.
    cbn -[Recorder.updateState Recorder.reset].
    destruct (Recorder.opusSupported env);
      [intros K; discriminate K|].
    destruct (Recorder.plainSupported env);
      [intros K; discriminate K|].
    intros _. unfold Recorder.startFailed.
    cbn [Recorder.svc Recorder.browser Recorder.updates].
    match goal with
    | |- context [Recorder.reset ?r ?b] =>
        pose proof (reset_service r b) as RS2;
        destruct (Recorder.reset r b) as [r2 b2]
    end.
    simpl in RS2. subst r2. split; reflexivity.
Qed.

(** A start that fails after the graph was built leaves no live track,
    no connection and no timer. *)
Lemma failed_start_leaves_nothing_behind :
  let w := fst (Recorder.start Samples.noRecorderEnv 1000
                               (Samples.quiet 1000) Recorder.idleWorld) in
  snd (Recorder.start Samples.noRecorderEnv 1000
                      (Samples.quiet 1000) Recorder.idleWorld)
  = Some "Could not start recording: MediaRecorder is not supported"%string /\
  Recorder.liveTracks (Recorder.browser w) = [] /\
  Recorder.edges (Recorder.browser w) = [] /\
  Recorder.intervals (Recorder.browser w) = [] /\
  Recorder.nodesDropped (Recorder.svc w) = true /\
  Recorder.intervalId (Recorder.svc w) = None.
Proof. vm_compute. repeat split. Qed.

(** ** The recorder: reported duration *)

Ltac qlin :=
  unfold Qdiv in *; change (/ 1000) with (1 # 1000) in *; lra.

Section CaptureFacts.

Import Recorder Capture.

Lemma Qgt_bool_pos (x : Q) : 0 < x -> Qgt_bool x 0 = true.
Proof.
  intros H. unfold Qgt_bool.
  destruct (Qle_bool x 0) eqn:E; [|reflexivity].
  apply Qle_bool_iff in E. lra.
Qed.

Lemma expected_cons (m : Meter) (op : Op) (rest : list Op) :
  expected m (op :: rest)
  = expected m [op] ++ expected (meterStep m op) rest.
Proof.
  destruct op; simpl; try reflexivity; destruct (recordingNow m);
    reflexivity.
Qed.

Lemma wellTimed_cons (t : Q) (op : Op) (rest : list Op) :
  wellTimed t (op :: rest)
  = wellTimed t [op] && wellTimed (endTime t [op]) rest.
Proof.
  destruct op; simpl; rewrite ?andb_true_r; try reflexivity.
Qed.

Lemma reports_app us1 ms1 us2 ms2 :
  reports us1 ms1 -> reports us2 ms2 -> reports (us1 ++ us2) (ms1 ++ ms2).
Proof. unfold reports. apply Forall2_app. Qed.

Lemma duration_level (now : Q) (d : list Z) (r : Service) :
  rec_duration (snapshot now (updateAudioLevel d r))
  = rec_duration (snapshot now r).
Proof.
  unfold updateAudioLevel.
  destruct (analyserNode (nodes r)); [destruct (dataArray r)|];
    reflexivity.
Qed.

Lemma duration_running (now : Q) (r : Service) (mr : MediaRecorder) :
  mediaRecorder r = Some mr -> mr_state mr <> Paused ->
  0 < startTime r ->
  rec_duration (snapshot now r) = (now - startTime r) / 1000.
Proof.
  intros Hm Hs Hp. unfold snapshot. simpl. rewrite Hm. simpl.
  rewrite (Qgt_bool_pos Hp).
  destruct (mr_state mr); try reflexivity. congruence.
Qed.

Lemma duration_paused (now : Q) (r : Service) (mr : MediaRecorder) :
  mediaRecorder r = Some mr -> mr_state mr = Paused ->
  0 < startTime r ->
  rec_duration (snapshot now r) = pausedTime r.
Proof.
  intros Hm Hs Hp. unfold snapshot. simpl. rewrite Hm. simpl.
  rewrite (Qgt_bool_pos Hp), Hs. reflexivity.
Qed.

Lemma updateState_emits (rd : Reading) (w : World) :
  updateCallback (svc w) = true ->
  updates (updateState rd w)
  = updates w ++
    [snapshot (clock rd) (updateAudioLevel (spectrum rd) (svc w))] /\
  svc (updateState rd w) = updateAudioLevel (spectrum rd) (svc w).
Proof. intros H. unfold updateState. rewrite H. split; reflexivity. Qed.

Lemma linked_updateState id rd w m t :
  linked id w m t -> linked id (updateState rd w) m t.
Proof.
  intros (Hcb & Hiv & Hta & Hst & mr & Hmr & Hcase).
  destruct (updateState_emits rd w Hcb) as [_ S].
  destruct (updateAudioLevel_fields (spectrum rd) (svc w))
    as (_ & _ & F3 & _ & _ & F6 & F7 & F8 & F9).
  unfold linked. rewrite S, updateState_browser.
  rewrite F3, F6, F7, F8, F9.
  repeat split; try assumption. exists mr. split; assumption.
Qed.

Lemma emitted_duration rd w :
  updateCallback (svc w) = true ->
  exists u, updates (updateState rd w) = updates w ++ [u] /\
            rec_duration u = rec_duration (snapshot (clock rd) (svc w)).
Proof.
  intros Hcb. destruct (updateState_emits rd w Hcb) as [U _].
  eexists. split; [exact U|]. apply duration_level.
Qed.

Lemma step_linked (id : nat) (w : World) (m : Meter) (t : Q) (op : Op) :
  linked id w m t -> wellTimed t [op] = true ->
  linked id (apply w op) (meterStep m op) (endTime t [op]) /\
  exists us, updates (apply w op) = updates w ++ us /\
             reports us (expected m [op]).
Proof.
  intros L T. pose proof L as (Hcb & Hiv & Hta & Hst & mr & Hmr & Hcase).
  destruct op as [rd|now rd|now rd|chunk];
    cbn [apply meterStep endTime expected wellTimed] in T |- *;
    rewrite ?andb_true_r in T.
  - (* tick *)
    apply Qle_bool_iff in T.
    rewrite Hiv. unfold tick. rewrite Hta. split.
    + apply linked_updateState.
      unfold linked. repeat split; try assumption.
      exists mr. split; [assumption|].
      destruct Hcase as [(A & B & C)|(A & B & C & D)]; [left|right];
        repeat split; try assumption. lra.
    + destruct (emitted_duration rd w Hcb) as (u & U & D).
      exists [u]. split; [exact U|].
      constructor; [|constructor]. rewrite D.
      destruct Hcase as [(A & B & C)|(A & B & C & E)].
      * rewrite (duration_running (clock rd) (svc w) Hmr)
          by (congruence || assumption).
        unfold spent. rewrite B. qlin.
      * rewrite (duration_paused (clock rd) (svc w) Hmr) by assumption.
        unfold spent. rewrite B. exact C.
  - (* pause *)
    apply Qle_bool_iff in T.
    unfold pause. rewrite Hmr.
    destruct Hcase as [(A & B & C)|(A & B & C & D)]; rewrite A, B.
    + set (r2 := set_pausedTime _ _).
      assert (L2 : linked id (mkWorld r2 (browser w) (updates w))
                     (mkMeter false (banked m + (now - since m)) (since m))
                     now).
      { unfold linked. subst r2. cbn. repeat split; try assumption.
        eexists. split; [reflexivity|]. right. cbn.
        repeat split; qlin. }
      pose proof (linked_updateState rd L2) as L3.
      destruct (emitted_duration rd (mkWorld r2 (browser w) (updates w)))
        as (u & U & D); [exact Hcb|].
      split.
      * destruct (audioContext (svc (updateState rd _))) as [ctx|];
          [destruct (ctx_state ctx)|]; exact L3.
      * exists [u]. split.
        -- destruct (audioContext (svc (updateState rd _))) as [ctx|];
             [destruct (ctx_state ctx)|]; exact U.
        -- constructor; [|constructor]. rewrite D. cbn [svc].
           rewrite (duration_paused (clock rd) r2 (mr := set_mr_state Paused mr))
             by (reflexivity || assumption).
           subst r2. cbn. qlin.
    + split; [|exists []; split; [now rewrite app_nil_r|constructor]].
      unfold linked. repeat split; try assumption.
      exists mr. split; [assumption|]. right. repeat split; try assumption.
      lra.
  - (* resume *)
    apply andb_true_iff in T. destruct T as [T1 T2].
    apply Qle_bool_iff in T1. apply Qle_bool_iff in T2.
    unfold resume. rewrite Hmr.
    destruct Hcase as [(A & B & C)|(A & B & C & D)]; rewrite A, B.
    + split; [|exists []; split; [now rewrite app_nil_r|constructor]].
      unfold linked. repeat split; try assumption.
      exists mr. split; [assumption|]. left. repeat split; assumption.
    + set (r3 := set_startTime _ _).
      assert (F : startTime r3 == now - banked m /\
                  updateCallback r3 = true /\ intervalId r3 = Some id /\
                  mediaRecorder r3 = Some (set_mr_state Recording mr)).
      { subst r3.
        destruct (audioContext (svc w)) as [ctx|];
          [destruct (ctx_state ctx)|]; cbn;
          repeat split; try assumption; qlin. }
      destruct F as (F1 & F2 & F3 & F4). clearbody r3.
      assert (L3 : linked id (mkWorld r3 (browser w) (updates w))
                     (mkMeter true (banked m) now) (clock rd)).
      { unfold linked. cbn [svc browser]. repeat split; try assumption.
        - lra.
        - eexists. split; [exact F4|]. left. cbn.
          repeat split. lra. }
      split; [apply linked_updateState; exact L3|].
      destruct (emitted_duration rd (mkWorld r3 (browser w) (updates w)))
        as (u & U & E); [exact F2|].
      exists [u]. split; [exact U|].
      constructor; [|constructor]. rewrite E. cbn [svc].
      rewrite (duration_running (clock rd) r3 F4);
        [|cbn; congruence|lra].
      unfold spent. cbn. qlin.
  - (* chunk *)
    unfold ondataavailable.
    split; [|exists []; split;
             [destruct (blob_bytes chunk); now rewrite app_nil_r
             |constructor]].
    destruct (blob_bytes chunk); [exact L|].
    unfold linked. cbn. repeat split; try assumption.
    exists mr. split; assumption.
Qed.

Lemma run_linked (ops : list Op) : forall id w m t,
  linked id w m t -> wellTimed t ops = true ->
  linked id (runOps ops w) (meterRun m ops) (endTime t ops) /\
  exists us, updates (runOps ops w) = updates w ++ us /\
             reports us (expected m ops).
Proof.
  induction ops as [|op ops IH]; intros id w m t L T.
  - split; [exact L|]. exists []. split; [now rewrite app_nil_r|].
    constructor.
  - rewrite wellTimed_cons in T. apply andb_true_iff in T.
    destruct T as [T1 T2].
    destruct (step_linked op L T1) as [L1 (us1 & U1 & R1)].
    destruct (IH _ _ _ _ L1 T2) as [L2 (us2 & U2 & R2)].
    assert (E : endTime t (op :: ops) = endTime (endTime t [op]) ops)
      by (destruct op; reflexivity).
    rewrite E. split; [exact L2|].
    exists (us1 ++ us2). split.
    + change (runOps (op :: ops) w) with (runOps ops (apply w op)).
      rewrite U2, U1. now rewrite app_assoc.
    + rewrite expected_cons. now apply reports_app.
Qed.

Lemma alternating_recording (ops : list Op) : forall m,
  alternating (recordingNow m) ops = true ->
  recordingNow (meterRun m ops) = true.
Proof.
  induction ops as [|op ops IH]; intros m H; [exact H|].
  change (meterRun m (op :: ops)) with (meterRun (meterStep m op) ops).
  apply IH. destruct op; cbn [alternating meterStep] in *;
    try exact H; destruct (recordingNow m); cbn in *;
    try discriminate; exact H.
Qed.

Lemma start_linked env now rd w s :
  userMedia env = inr s -> supported env = true -> 0 < now ->
  exists id u,
    linked id (fst (start env now rd w)) (startMeter now) (clock rd) /\
    updates (fst (start env now rd w)) = updates w ++ [u] /\
    rec_duration u * 1000 == clock rd - now.
Proof.
  intros Hs Hsup Hpos. unfold start. rewrite Hs.
  pose proof (reset_service (set_updateCallback true (svc w)) (browser w))
    as RS.
  destruct (reset (set_updateCallback true (svc w)) (browser w))
    as [r1 b1].
  simpl in RS. subst r1.
  unfold buildGraph, newContext, newMediaRecorder. cbn [set_stream].
  unfold supported in Hsup.
  destruct (opusSupported env);
    [|destruct (plainSupported env); [|discriminate Hsup]].
  - cbn -[updateState]. eexists. 
    match goal with |- context [updateState rd ?w1] => set (w1' := w1) end.
    assert (L : linked (nextTimer b1) w1' (startMeter now) (clock rd)).
    { unfold linked, w1'. cbn.
      rewrite existsb_app. cbn. rewrite Nat.eqb_refl, orb_true_r.
      repeat split; try assumption.
      eexists. split; [reflexivity|]. left. cbn. repeat split. lra. }
    destruct (emitted_duration rd w1') as (u & U & D); [reflexivity|].
    exists u. split; [apply linked_updateState; exact L|].
    split; [exact U|]. rewrite D.
    rewrite (duration_running (clock rd) (svc w1')
               (mr := mkMediaRecorder (nextContext b1, KDestination)
                        (Some recorderOptions) Recording (Some 1000%Z)));
      [|reflexivity|cbn; congruence|exact Hpos].
    cbn. qlin.
  - cbn -[updateState]. eexists. 
    match goal with |- context [updateState rd ?w1] => set (w1' := w1) end.
    assert (L : linked (nextTimer b1) w1' (startMeter now) (clock rd)).
    { unfold linked, w1'. cbn.
      rewrite existsb_app. cbn. rewrite Nat.eqb_refl, orb_true_r.
      repeat split; try assumption.
      eexists. split; [reflexivity|]. left. cbn. repeat split. lra. }
    destruct (emitted_duration rd w1') as (u & U & D); [reflexivity|].
    exists u. split; [apply linked_updateState; exact L|].
    split; [exact U|]. rewrite D.
    rewrite (duration_running (clock rd) (svc w1')
               (mr := mkMediaRecorder (nextContext b1, KDestination)
                        None Recording (Some 1000%Z)));
      [|reflexivity|cbn; congruence|exact Hpos].
    cbn. qlin.
Qed.

Lemma stopped_final id w m t last rd :
  linked id w m t -> recordingNow m = true ->
  exists u, updates (stopped last rd w) = updates w ++ [u] /\
            rec_duration u * 1000 == banked m + (clock rd - since m).
Proof.
  intros (Hcb & Hiv & Hta & Hst & mr & Hmr & Hcase) Hrec.
  destruct Hcase as [(A & B & C)|(A & B & C & D)]; [|congruence].
  unfold stopped, stateOf. rewrite Hmr. cbn [option_map]. rewrite A.
  rewrite onstop_unfold. cbn [updates].
  set (w1 := ondataavailable last (stop w)).
  assert (F : updateCallback (svc w1) = true /\
              updates w1 = updates w /\
              mediaRecorder (svc w1) = Some (set_mr_state Inactive mr) /\
              startTime (svc w1) = startTime (svc w)).
  { subst w1. unfold ondataavailable, stop. rewrite Hmr, A.
    destruct (blob_bytes last); cbn; repeat split; assumption. }
  destruct F as (F1 & F2 & F3 & F4). clearbody w1.
  destruct (emitted_duration rd w1 F1) as (u & U & E).
  exists u. split; [now rewrite U, F2|].
  rewrite E.
  rewrite (duration_running (clock rd) (svc w1) F3);
    [|cbn; congruence|rewrite F4; exact Hst].
  rewrite F4. qlin.
Qed.

(** C4: for every capture start, (pause, resume)*, stop, with clock
    readings that never decrease, every telemetry update reports the
    time spent in the Recording state up to its clock reading: an update
    while paused reports the value frozen by [pause()], and [resume()]
    re-anchors [startTime] so that the paused interval is not counted.
    The update of the stop handler reports the time spent recording up to
    [stop()] plus the delay of the handler; when that delay is within one
    tick (100 ms) the reported duration is within 0.1 s of the time spent
    recording. *)
Theorem telemetry_duration_excludes_pauses :
  forall env s w0 t0 rd0 ops last ts rdStop,
    userMedia env = inr s ->
    supported env = true ->
    0 < t0 ->
    wellTimed (clock rd0) ops = true ->
    alternating true ops = true ->
    endTime (clock rd0) ops <= ts ->
    ts <= clock rdStop ->
    let m := meterRun (startMeter t0) ops in
    let w := stopped last rdStop
               (runOps ops (fst (start env t0 rd0 w0))) in
    exists us u,
      updates w = updates w0 ++ us ++ [u] /\
      reports us ((clock rd0 - t0) :: expected (startMeter t0) ops) /\
      rec_duration u * 1000 == spent m ts + (clock rdStop - ts) /\
      (clock rdStop - ts <= 100 ->
       Qabs (rec_duration u - spent m ts / 1000) <= 1 # 10).
Proof.
  intros env s w0 t0 rd0 ops last ts rdStop Hs Hsup Hpos HT HA Hend Hts m w.
  destruct (start_linked env rd0 w0 Hs Hsup Hpos) as (id & u0 & L0 & U0 & D0).
  destruct (run_linked ops L0 HT) as [L1 (us & U1 & R1)].
  assert (Hrec : recordingNow m = true)
    by (apply alternating_recording; exact HA).
  destruct (stopped_final last rdStop L1 Hrec) as (u & U2 & D2).
  exists (u0 :: us), u. split; [|split; [|split]].
  - subst w. rewrite U2, U1, U0. rewrite <- !app_assoc. reflexivity.
  - constructor; [exact D0|exact R1].
  - unfold spent. fold m in D2. rewrite Hrec. lra.
  - intros Hd. unfold spent. fold m in D2. rewrite Hrec.
    apply Qabs_Qle_condition. split; qlin.
Qed.

End CaptureFacts.

Lemma telemetry_duration_excludes_pauses_witness :
  exists us u,
    Recorder.updates
      (Recorder.stopped Samples.lastChunk (Samples.quiet 5050)
         (Capture.runOps Samples.pausedOnce
            (fst (Recorder.start Samples.micEnv 1000 (Samples.quiet 1000)
                                 Recorder.idleWorld))))
    = Recorder.updates Recorder.idleWorld ++ us ++ [u] /\
    Qabs (rec_duration u
          - Capture.spent
              (Capture.meterRun (Capture.startMeter 1000)
                                Samples.pausedOnce) 5000 / 1000)
    <= 1 # 10.
Proof.
  assert (H0 : 0 < 1000) by (unfold Qlt; simpl; lia).
  assert (H1 : Capture.endTime (Recorder.clock (Samples.quiet 1000))
                               Samples.pausedOnce <= 5000)
    by (vm_compute; discriminate).
  assert (H2 : 5000 <= Recorder.clock (Samples.quiet 5050))
    by (vm_compute; discriminate).
  assert (H3 : Recorder.clock (Samples.quiet 5050) - 5000 <= 100)
    by (vm_compute; discriminate).
  destruct (telemetry_duration_excludes_pauses
              Samples.micEnv (s := Recorder.mkStream [0%nat])
              Recorder.idleWorld (Samples.quiet 1000) Samples.pausedOnce
              Samples.lastChunk (Samples.quiet 5050)
              eq_refl eq_refl H0 eq_refl eq_refl H1 H2)
    as (us & u & U & _ & _ & T).
  exists us, u. split; [exact U|exact (T H3)].
Defined.

(** ** The queue: status order *)

Section AppFacts.

Import Store App.

Lemma memZ_In (x : Z) (l : list Z) : memZ x l = true <-> In x l.
Proof.
  unfold memZ. rewrite existsb_exists. split.
  - intros (y & Hy & E). apply Z.eqb_eq in E. now subst.
  - intros H. exists x. split; [exact H|apply Z.eqb_refl].
Qed.

Lemma memZ_false (x : Z) (l : list Z) : memZ x l = false <-> ~ In x l.
Proof.
  rewrite <- memZ_In. destruct (memZ x l); split; congruence.
Qed.

Lemma memZ_dropZ (x y : Z) (l : list Z) :
  memZ x (dropZ y l) = negb (Z.eqb y x) && memZ x l.
Proof.
  unfold memZ, dropZ. induction l as [|a l IH]; simpl.
  - now rewrite andb_false_r.
  - destruct (Z.eqb_spec y a) as [E|E]; simpl.
    + subst a. rewrite IH.
      destruct (Z.eqb_spec y x) as [E2|E2]; simpl.
      * reflexivity.
      * destruct (Z.eqb_spec x y); [congruence|reflexivity].
    + rewrite IH. destruct (Z.eqb_spec x a) as [E2|E2]; simpl.
      * subst a. destruct (Z.eqb_spec y x); [congruence|reflexivity].
      * reflexivity.
Qed.

Lemma queue_evictionEffect (s : Sys) : queue (evictionEffect s) = queue s.
Proof.
  unfold evictionEffect.
  destruct (filter _ (queue s)); reflexivity.
Qed.

Lemma queue_perform (a : Action) (s : Sys) :
  queue (perform a s) = actQ a (queue s).
Proof.
  destruct a; unfold perform; rewrite ?queue_evictionEffect; reflexivity.
Qed.

Lemma statusesIn_app i q1 q2 :
  statusesIn i (q1 ++ q2) = statusesIn i q1 ++ statusesIn i q2.
Proof. unfold statusesIn. now rewrite jobsWithId_app, map_app. Qed.

Lemma statusesIn_absent i q : ~ In i (ids q) -> statusesIn i q = [].
Proof. intros H. unfold statusesIn. now rewrite jobsWithId_absent. Qed.

Lemma In_statusesIn i q st :
  In st (statusesIn i q) <->
  exists item, In item q /\ conversationId item = i /\ status item = st.
Proof.
  unfold statusesIn, jobsWithId. rewrite in_map_iff. split.
  - intros (item & E & H). apply filter_In in H. destruct H as [H1 H2].
    apply Z.eqb_eq in H2. now exists item.
  - intros (item & H1 & H2 & H3). exists item. split; [exact H3|].
    apply filter_In. split; [exact H1|now apply Z.eqb_eq].
Qed.

Lemma statusesIn_single i q :
  NoDup (ids q) ->
  statusesIn i q = [] \/ exists st, statusesIn i q = [st].
Proof.
  induction q as [|a q IH]; intros ND; [now left|].
  inversion ND as [|? ? Hn ND']; subst.
  unfold statusesIn, jobsWithId. simpl.
  destruct (Z.eqb_spec (conversationId a) i) as [E|E].
  - right. exists (status a). simpl. f_equal.
    apply statusesIn_absent. now rewrite <- E.
  - apply IH. exact ND'.
Qed.

Lemma ids_update id u st q :
  writes u st -> ids (actQ (Update id u) q) = ids q.
Proof.
  intros [W _]. unfold ids. simpl. rewrite map_map. apply map_ext.
  intros item. destruct (Z.eqb (conversationId item) id); [|reflexivity].
  unfold merge. simpl. now rewrite W.
Qed.

Lemma statusesIn_update i id u st q :
  writes u st ->
  statusesIn i (actQ (Update id u) q)
  = if Z.eqb i id then map (fun _ => st) (statusesIn i q)
    else statusesIn i q.
Proof.
  intros [W1 W2]. unfold statusesIn, jobsWithId. simpl.
  destruct (Z.eqb_spec i id) as [Ei|Ei].
  - subst i. induction q as [|a q IH]; simpl; [reflexivity|].
    destruct (Z.eqb_spec (conversationId a) id) as [E|E].
    + unfold merge at 1. simpl. rewrite W1. simpl.
      destruct (Z.eqb_spec (conversationId a) id); [|congruence].
      simpl. rewrite IH, W2. reflexivity.
    + destruct (Z.eqb_spec (conversationId a) id); [congruence|].
      exact IH.
  - induction q as [|a q IH]; simpl; [reflexivity|].
    destruct (Z.eqb_spec (conversationId a) id) as [E|E].
    + unfold merge at 1. simpl. rewrite W1. simpl.
      destruct (Z.eqb_spec (conversationId a) i); [congruence|].
      exact IH.
    + destruct (Z.eqb_spec (conversationId a) i); simpl;
        [now rewrite IH|exact IH].
Qed.

Lemma statusesIn_remove i id q :
  statusesIn i (actQ (Remove id) q)
  = if Z.eqb i id then [] else statusesIn i q.
Proof.
  unfold statusesIn, jobsWithId. simpl.
  destruct (Z.eqb_spec i id) as [Ei|Ei].
  - subst i. induction q as [|a q IH]; simpl; [reflexivity|].
    destruct (Z.eqb_spec (conversationId a) id) as [E|E]; simpl.
    + exact IH.
    + destruct (Z.eqb_spec (conversationId a) id); [congruence|].
      exact IH.
  - induction q as [|a q IH]; simpl; [reflexivity|].
    destruct (Z.eqb_spec (conversationId a) id) as [E|E]; simpl.
    + destruct (Z.eqb_spec (conversationId a) i); [congruence|].
      exact IH.
    + destruct (Z.eqb_spec (conversationId a) i); simpl;
        [now rewrite IH|exact IH].
Qed.

Lemma NoDup_ids_remove id q :
  NoDup (ids q) -> NoDup (ids (actQ (Remove id) q)).
Proof.
  unfold ids. simpl. induction q as [|a q IH]; intros ND; simpl.
  - constructor.
  - inversion ND as [|? ? Hn ND']; subst.
    destruct (Z.eqb (conversationId a) id); simpl; [now apply IH|].
    constructor; [|now apply IH].
    intros H. apply Hn. apply in_map_iff in H.
    destruct H as (x & E & Hx). apply filter_In in Hx.
    apply in_map_iff. exists x. tauto.
Qed.


Lemma squash_cons2 a b r :
  squash (a :: b :: r)
  = if Status_eqb a b then squash (b :: r) else a :: squash (b :: r).
Proof. reflexivity. Qed.

Lemma squash_snoc (h : list Status) (st : Status) :
  h <> [] ->
  squash (h ++ [st])
  = if Status_eqb (last h Pending) st then squash h else squash h ++ [st].
Proof.
  induction h as [|a h IH]; intros Hne; [congruence|].
  destruct h as [|b h].
  - simpl. destruct (Status_eqb a st) eqn:E; [|reflexivity].
    apply Status_eqb_eq in E. now subst.
  - change ((a :: b :: h) ++ [st]) with (a :: b :: (h ++ [st])).
    rewrite !squash_cons2.
    change (b :: h ++ [st]) with ((b :: h) ++ [st]).
    rewrite IH by congruence.
    change (last (a :: b :: h) Pending) with (last (b :: h) Pending).
    destruct (Status_eqb a b), (Status_eqb (last (b :: h) Pending) st);
      reflexivity.
Qed.

Lemma squash_nil (h : list Status) : squash h = [] -> h = [].
Proof.
  induction h as [|a h IH]; intros H; [reflexivity|].
  destruct h as [|b h]; [discriminate H|].
  rewrite squash_cons2 in H.
  destruct (Status_eqb a b); [|discriminate H].
  apply IH in H. discriminate H.
Qed.

Lemma last_squash (h : list Status) :
  last (squash h) Pending = last h Pending.
Proof.
  induction h as [|a h IH]; [reflexivity|].
  destruct h as [|b h]; [reflexivity|].
  rewrite squash_cons2.
  change (last (a :: b :: h) Pending) with (last (b :: h) Pending).
  destruct (Status_eqb a b); [exact IH|].
  rewrite <- IH. destruct (squash (b :: h)) eqn:E; [|reflexivity].
  apply squash_nil in E. discriminate E.
Qed.

Lemma squash_nonempty (h : list Status) : squash h <> [] -> h <> [].
Proof. intros H E. subst h. now apply H. Qed.

Lemma last_snoc (h : list Status) (st : Status) :
  last (h ++ [st]) Pending = st.
Proof. apply last_last. Qed.

(** The history when the job's status stays what it was, or the job is
    gone. *)
Lemma history_stutter i U q q' h :
  NoDup (ids q') ->
  (forall st, In st (statusesIn i q') -> In st (statusesIn i q)) ->
  (forall st, In st (statusesIn i q) -> In i U) ->
  historyOk i U q h ->
  historyOk i U q' (h ++ statusesIn i q').
Proof.
  intros ND Sub Used (H1 & H2 & H3).
  destruct (statusesIn_single i q' ND) as [E|[st E]]; rewrite E.
  - rewrite app_nil_r. repeat split; try assumption.
    intros st K. rewrite E in K. destruct K.
  - assert (Hin : In st (statusesIn i q)) by (apply Sub; rewrite E; now left).
    assert (HU : In i U) by (eapply Used; exact Hin).
    assert (Hl : last h Pending = st) by (apply H3; exact Hin).
    assert (Hne : h <> []).
    { apply squash_nonempty. destruct (H2 HU) as [K|[K|K]]; rewrite K;
        discriminate. }
    assert (Hs : squash (h ++ [st]) = squash h).
    { rewrite squash_snoc by exact Hne. rewrite Hl.
      now rewrite (proj2 (Status_eqb_eq st st) eq_refl). }
    repeat split.
    + intros K. contradiction.
    + rewrite Hs. exact H2.
    + intros st' K. rewrite E in K. destruct K as [K|K]; [|destruct K].
      subst st'. apply last_snoc.
Qed.

Lemma history_more_used i id U q h :
  i <> id -> historyOk i U q h -> historyOk i (id :: U) q h.
Proof.
  intros Hne (H1 & H2 & H3). repeat split; try assumption.
  - intros K. apply H1. intros K2. apply K. now right.
  - intros [K|K]; [congruence|now apply H2].
Qed.

Lemma queueOk_used i U O q :
  queueOk U O q -> forall st, In st (statusesIn i q) -> In i U.
Proof.
  intros [_ H] st Hst. apply In_statusesIn in Hst.
  destruct Hst as (item & Hi & E & _). subst i. now apply H.
Qed.

Lemma queueOk_remove id U O q :
  queueOk U O q -> queueOk U O (actQ (Remove id) q).
Proof.
  intros [ND H]. split; [now apply NoDup_ids_remove|].
  intros item Hi. simpl in Hi. apply filter_In in Hi. now apply H.
Qed.

Lemma remove_sub i id q st :
  In st (statusesIn i (actQ (Remove id) q)) -> In st (statusesIn i q).
Proof.
  rewrite statusesIn_remove.
  destruct (Z.eqb i id); [intros K; destruct K|tauto].
Qed.


Lemma outcome_writes (r : Response) :
  exists st, writes (outcome r) st /\ (st = Completed \/ st = Failed).
Proof.
  destruct r as [[|] txt|[msg|]]; simpl; eexists; (split; [split; reflexivity|]);
    auto.
Qed.

Lemma memZ_cons x y l : memZ x (y :: l) = Z.eqb x y || memZ x l.
Proof. reflexivity. Qed.

Lemma In_update_inv id u q item :
  In item (actQ (Update id u) q) ->
  exists item0, In item0 q /\
    item = if Z.eqb (conversationId item0) id then merge item0 u else item0.
Proof.
  simpl. rewrite in_map_iff. intros (x & E & H). exists x. split; auto.
Qed.

Lemma step_save i id path U O s h :
  memZ id U = false ->
  queueOk U O (queue s) -> historyOk i U (queue s) h ->
  let ss := step (Save id path) s in
  queueOk (id :: U) (id :: O) (queue (last ss s)) /\
  historyOk i (id :: U) (queue (last ss s)) (h ++ statusHistory i ss).
Proof.
  intros Hfresh QO HO. apply memZ_false in Hfresh.
  cbn [step performAll last statusHistory flat_map].
  unfold statusOf. rewrite !queue_perform.
  set (q := queue s) in *.
  set (q1 := actQ (Add id path) q).
  set (q2 := actQ (Update id toProcessing) q1).
  assert (W : writes toProcessing Processing) by (split; reflexivity).
  destruct QO as [ND QI].
  assert (Habs : ~ In id (ids q)).
  { intros K. apply Hfresh. unfold ids in K. apply in_map_iff in K.
    destruct K as (x & E & Hx). rewrite <- E. now apply QI. }
  assert (ND1 : NoDup (ids q1)).
  { unfold q1, ids. simpl. rewrite map_app. simpl.
    apply NoDup_app; [exact ND|repeat constructor; simpl; tauto|].
    intros x Hx [K|[]]. simpl in K. subst x. now apply Habs. }
  assert (ND2 : NoDup (ids q2)).
  { unfold q2. now rewrite (ids_update id q1 W). }
  assert (QO2 : queueOk (id :: U) (id :: O) q2).
  { split; [exact ND2|]. intros item Hi.
    apply In_update_inv in Hi. destruct Hi as (item0 & H0 & E).
    unfold q1 in H0. simpl in H0. apply in_app_iff in H0.
    destruct H0 as [H0|[H0|[]]].
    - assert (Hne : conversationId item0 <> id).
      { intros K. apply Habs. unfold ids. rewrite <- K. now apply in_map. }
      apply Z.eqb_neq in Hne. rewrite Hne in E. subst item.
      destruct (QI item0 H0) as [A B]. split; [now right|].
      rewrite memZ_cons, Hne. exact B.
    - subst item0. simpl in E. rewrite Z.eqb_refl in E. subst item.
      split; [now left|]. simpl. rewrite Z.eqb_refl. reflexivity. }
  split; [exact QO2|].
  rewrite app_nil_r.
  assert (S1 : statusesIn i q1
               = statusesIn i q ++ (if Z.eqb id i then [Pending] else [])).
  { unfold q1. simpl. rewrite statusesIn_app. f_equal.
    unfold statusesIn, jobsWithId. simpl.
    destruct (Z.eqb id i); reflexivity. }
  assert (S2 : statusesIn i q2
               = if Z.eqb i id then map (fun _ => Processing) (statusesIn i q1)
                 else statusesIn i q1).
  { unfold q2. now apply statusesIn_update. }
  destruct (Z.eqb_spec i id) as [E|E].
  - subst i. destruct HO as (H1 & _ & _).
    rewrite (H1 Hfresh). rewrite S2, S1, Z.eqb_refl.
    rewrite (statusesIn_absent id q Habs). simpl.
    repeat split.
    + intros K. exfalso. apply K. now left.
    + intros _. now left.
    + intros st K.
      rewrite S2, S1, Z.eqb_refl, (statusesIn_absent id q Habs) in K.
      simpl in K. destruct K as [K|K]; [now subst|destruct K].
  - assert (E' : Z.eqb id i = false) by (apply Z.eqb_neq; congruence).
    rewrite E', app_nil_r in S1. rewrite S1 in S2.
    apply history_more_used; [exact E|].
    assert (Used : forall st, In st (statusesIn i q) -> In i U).
    { apply (@queueOk_used i U O q). split; assumption. }
    assert (HO1 : historyOk i U q1 (h ++ statusesIn i q1)).
    { apply (@history_stutter i U q q1 h ND1); try assumption.
      intros st. now rewrite S1. }
    rewrite app_assoc.
    apply (@history_stutter i U q1 q2 (h ++ statusesIn i q1) ND2).
    + intros st. now rewrite S2, S1.
    + intros st. rewrite S1. apply Used.
    + exact HO1.
Qed.

Lemma step_settle i id r U O s h :
  memZ id O = true ->
  queueOk U O (queue s) -> historyOk i U (queue s) h ->
  let ss := step (Settle id r) s in
  queueOk U (dropZ id O) (queue (last ss s)) /\
  historyOk i U (queue (last ss s)) (h ++ statusHistory i ss).
Proof.
  intros Hopen QO HO.
  cbn [step performAll last statusHistory flat_map].
  unfold statusOf. rewrite !queue_perform, app_nil_r.
  set (q := queue s) in *.
  destruct (outcome_writes r) as (st & W & Hst).
  set (q' := actQ (Update id (outcome r)) q).
  pose proof QO as [ND QI].
  assert (ND' : NoDup (ids q')).
  { unfold q'. now rewrite (ids_update id q W). }
  assert (QO' : queueOk U (dropZ id O) q').
  { split; [exact ND'|]. intros item Hi.
    apply In_update_inv in Hi. destruct Hi as (item0 & H0 & E).
    destruct (QI item0 H0) as [A B].
    destruct (Z.eqb_spec (conversationId item0) id) as [K|K].
    - subst item. destruct W as [W1 W2]. unfold merge. simpl.
      rewrite W1, W2. simpl. split; [exact A|].
      rewrite memZ_dropZ, K, Z.eqb_refl. simpl.
      destruct Hst; subst st; reflexivity.
    - subst item. split; [exact A|].
      rewrite memZ_dropZ.
      destruct (Z.eqb_spec id (conversationId item0)); [congruence|].
      exact B. }
  split; [exact QO'|].
  assert (S' : statusesIn i q'
               = if Z.eqb i id then map (fun _ => st) (statusesIn i q)
                 else statusesIn i q).
  { unfold q'. now apply statusesIn_update. }
  assert (Used : forall x, In x (statusesIn i q) -> In i U)
    by (apply (@queueOk_used i U O q); exact QO).
  destruct (Z.eqb_spec i id) as [E|E].
  - subst i. destruct (statusesIn_single id q ND) as [E0|[st0 E0]].
    + apply (@history_stutter id U q q' h ND'); try assumption.
      intros x. rewrite S', E0. simpl. tauto.
    + rewrite S', E0. simpl.
      assert (Hin : In st0 (statusesIn id q)) by (rewrite E0; now left).
      assert (Hproc : st0 = Processing).
      { apply In_statusesIn in Hin. destruct Hin as (item & Hi & Hc & Hs).
        destruct (QI item Hi) as [_ B]. rewrite Hc, Hopen in B. congruence. }
      subst st0. destruct HO as (H1 & H2 & H3).
      assert (HU : In id U) by (eapply Used; exact Hin).
      assert (Hl : last h Pending = Processing) by (apply H3; exact Hin).
      assert (Hsq : squash h = [Pending; Processing]).
      { pose proof (last_squash h) as LS. rewrite Hl in LS.
        destruct (H2 HU) as [K|[K|K]]; rewrite K in LS; simpl in LS;
          [exact K|discriminate|discriminate]. }
      assert (Hne : h <> []).
      { apply squash_nonempty. rewrite Hsq. discriminate. }
      repeat split.
      * intros K. contradiction.
      * intros _. rewrite squash_snoc by exact Hne. rewrite Hl, Hsq.
        destruct Hst; subst st; simpl; auto.
      * intros x K. rewrite S', E0 in K. simpl in K.
        destruct K as [K|K]; [|destruct K]. subst x. apply last_snoc.
  - apply (@history_stutter i U q q' h ND'); try assumption.
    intros x. now rewrite S'.
Qed.

Lemma last_cons {A : Type} (l : list A) : forall (a d : A),
  last (a :: l) d = last l a.
Proof.
  induction l as [|b l IH]; intros a d; [reflexivity|].
  change (last (a :: b :: l) d) with (last (b :: l) d).
  now rewrite !IH.
Qed.

Lemma last_app_cons {A : Type} (l1 l2 : list A) (x : A) : forall d,
  last (l1 ++ x :: l2) d = last l2 x.
Proof.
  induction l1 as [|a l1 IH]; intros d.
  - apply last_cons.
  - change ((a :: l1) ++ x :: l2) with (a :: (l1 ++ x :: l2)).
    rewrite last_cons. apply IH.
Qed.

Lemma step_remove i id U O s h :
  queueOk U O (queue s) -> historyOk i U (queue s) h ->
  queueOk U O (queue (perform (Remove id) s)) /\
  historyOk i U (queue (perform (Remove id) s))
            (h ++ statusOf i (perform (Remove id) s)).
Proof.
  intros QO HO. unfold statusOf. rewrite queue_perform.
  pose proof (@queueOk_remove id U O (queue s) QO) as QO'.
  split; [exact QO'|].
  apply (@history_stutter i U (queue s)); try assumption.
  - apply QO'.
  - intros st. apply remove_sub.
  - apply (@queueOk_used i U O (queue s)). exact QO.
Qed.

Lemma step_removes i U O (js : list Z) : forall s h,
  queueOk U O (queue s) -> historyOk i U (queue s) h ->
  let ss := performAll (map Remove js) s in
  queueOk U O (queue (last ss s)) /\
  historyOk i U (queue (last ss s)) (h ++ statusHistory i ss).
Proof.
  induction js as [|j js IH]; intros s h QO HO.
  - simpl. rewrite app_nil_r. split; assumption.
  - destruct (@step_remove i j U O s h QO HO) as [QO1 HO1].
    destruct (IH _ _ QO1 HO1) as [QO2 HO2].
    cbn [map performAll statusHistory flat_map].
    set (s1 := perform (Remove j) s) in *.
    rewrite last_cons. split; [exact QO2|].
    rewrite app_assoc. exact HO2.
Qed.





End AppFacts.




(** ** The queue: eviction *)

Section EvictionFacts.

Import Store App.

Lemma timeouts_effect (s : Sys) :
  timeouts (evictionEffect s) = timeouts s ++ registered (now s) (queue s).
Proof.
  unfold evictionEffect, registered.
  destruct (filter _ (queue s)); simpl; [now rewrite app_nil_r|reflexivity].
Qed.

Lemma now_effect (s : Sys) : now (evictionEffect s) = now s.
Proof. unfold evictionEffect. destruct (filter _ (queue s)); reflexivity. Qed.

Lemma now_perform (a : Action) (s : Sys) : now (perform a s) = now s.
Proof. destruct a; unfold perform; rewrite ?now_effect; reflexivity. Qed.

(** The timeouts after an action: the old ones, then those the effect
    registers at the current clock. *)
Lemma timeouts_perform (a : Action) (s : Sys) :
  exists extra,
    timeouts (perform a s) = timeouts s ++ extra /\
    forall d j, In (d, j) extra ->
      d = (now s + 5000)%Z /\
      In Completed (statusOf j (perform a s)).
Proof.
  assert (G : forall s0 : Sys,
             forall d j, In (d, j) (registered (now s0) (queue s0)) ->
               d = (now s0 + 5000)%Z /\ In Completed (statusesIn j (queue s0))).
  { intros s0 d j H. unfold registered in H. apply in_map_iff in H.
    destruct H as (item & E & Hi). inversion E; subst.
    apply filter_In in Hi. destruct Hi as [Hi Hc].
    apply Status_eqb_eq in Hc. split; [reflexivity|].
    apply In_statusesIn. exists item. auto. }
  destruct a as [id path|id u|id|].
  - exists (registered (now s) (actQ (Add id path) (queue s))).
    unfold perform. rewrite timeouts_effect. split; [reflexivity|].
    intros d j H. unfold statusOf. rewrite queue_evictionEffect.
    apply (G (withStore (enqueue id path (store s)) s)). exact H.
  - exists (registered (now s) (actQ (Update id u) (queue s))).
    unfold perform. rewrite timeouts_effect. split; [reflexivity|].
    intros d j H. unfold statusOf. rewrite queue_evictionEffect.
    apply (G (withStore (updateTranscriptionQueueItem id u (store s)) s)).
    exact H.
  - exists (registered (now s) (actQ (Remove id) (queue s))).
    unfold perform. rewrite timeouts_effect. split; [reflexivity|].
    intros d j H. unfold statusOf. rewrite queue_evictionEffect.
    apply (G (withStore (removeFromTranscriptionQueue id (store s)) s)).
    exact H.
  - exists []. simpl. rewrite app_nil_r. split; [reflexivity|].
    intros d j K. destruct K.
Qed.














Lemma run_cons ev evs s : run (ev :: evs) s = run evs (last (step ev s) s).
Proof.
  unfold run. cbn [trace].
  set (ss := step ev s). set (tr := trace evs (last ss s)).
  clearbody tr. destruct tr as [|x tr'].
  - now rewrite app_nil_r.
  - now rewrite last_app_cons, last_cons.
Qed.


Lemma now_performAll (acts : list Action) : forall s,
  now (last (performAll acts s) s) = now s.
Proof.
  induction acts as [|a acts IH]; intros s; [reflexivity|].
  cbn [performAll]. rewrite last_cons, IH. apply now_perform.
Qed.

Lemma now_step ev s :
  now (last (step ev s) s)
  = match ev with Elapse t => t | _ => now s end.
Proof.
  destruct ev as [j path|j r|j|t'|]; cbn [step];
    try apply now_performAll.
  - destruct (dismissible j s); [apply now_performAll|reflexivity].
  - rewrite last_cons. now rewrite now_performAll.
Qed.







Lemma queueOk_completed U O q j :
  queueOk U O q -> In Completed (statusesIn j q) ->
  In j U /\ memZ j O = false.
Proof.
  intros [_ QI] H. apply In_statusesIn in H.
  destruct H as (item & Hi & Hc & Hs). subst j.
  destruct (QI item Hi) as [A B]. split; [exact A|].
  destruct (memZ (conversationId item) O); [congruence|reflexivity].
Qed.

Lemma timers_perform U O a s :
  timersOk U O s ->
  (forall j, In Completed (statusOf j (perform a s)) ->
             In j U /\ memZ j O = false) ->
  timersOk U O (perform a s).
Proof.
  intros T C d j H.
  destruct (timeouts_perform a s) as (extra & E & X).
  rewrite now_perform. rewrite E in H. apply in_app_iff in H.
  destruct H as [H|H]; [now apply T|].
  destruct (X d j H) as [K1 K2]. destruct (C j K2) as [A B].
  repeat split; try assumption. lia.
Qed.

Lemma timers_weaken U O U' O' s :
  (forall j, In j U -> memZ j O = false -> In j U' /\ memZ j O' = false) ->
  timersOk U O s -> timersOk U' O' s.
Proof.
  intros W T d j H. destruct (T d j H) as (A & B & C).
  destruct (W j B C) as [B' C']. repeat split; assumption.
Qed.

Lemma timers_removes U O (js : list Z) : forall s,
  queueOk U O (queue s) -> timersOk U O s ->
  timersOk U O (last (performAll (map Remove js) s) s).
Proof.
  induction js as [|j js IH]; intros s QO T; [exact T|].
  cbn [map performAll]. rewrite last_cons.
  assert (QO1 : queueOk U O (queue (perform (Remove j) s))).
  { rewrite queue_perform. now apply queueOk_remove. }
  apply IH; [exact QO1|].
  apply timers_perform; [exact T|].
  intros x. now apply queueOk_completed.
Qed.

(** One event keeps all the invariants, for the rest of the schedule. *)
Lemma step_all i ev rest U O s h :
  schedule U O (now s) (ev :: rest) = true ->
  queueOk U O (queue s) -> timersOk U O s -> historyOk i U (queue s) h ->
  exists U' O' h',
    schedule U' O' (now (last (step ev s) s)) rest = true /\
    queueOk U' O' (queue (last (step ev s) s)) /\
    timersOk U' O' (last (step ev s) s) /\
    historyOk i U' (queue (last (step ev s) s)) h'.
Proof.
  intros HS QO T HO. rewrite now_step.
  destruct ev as [id path|id r|id|t|]; cbn [schedule] in HS.
  - apply andb_true_iff in HS. destruct HS as [H1 H2].
    apply negb_true_iff in H1.
    destruct (@step_save i id path U O s h H1 QO HO) as [QO2 HO2].
    exists (id :: U), (id :: O), (h ++ statusHistory i (step (Save id path) s)).
    split; [exact H2|]. split; [exact QO2|]. split; [|exact HO2].
    assert (Hfresh : ~ In id U) by now apply memZ_false.
    assert (T0 : timersOk (id :: U) (id :: O) s).
    { apply (@timers_weaken U O); [|exact T].
      intros j A B. split; [now right|].
      rewrite memZ_cons, B. destruct (Z.eqb_spec j id); [congruence|easy]. }
    cbn [step performAll]. rewrite !last_cons. cbn [last].
    apply timers_perform.
    + apply timers_perform; [exact T0|].
      intros j H. unfold statusOf in H. rewrite queue_perform in H.
      cbn [actQ] in H. rewrite statusesIn_app in H. apply in_app_iff in H.
      destruct H as [H|H].
      * destruct (@queueOk_completed U O (queue s) j QO H) as [A B].
        split; [now right|].
        rewrite memZ_cons, B. destruct (Z.eqb_spec j id); [congruence|easy].
      * unfold statusesIn, jobsWithId in H. simpl in H.
        destruct (Z.eqb id j); simpl in H;
          [destruct H as [H|H]; [discriminate H|destruct H]|destruct H].
    + intros j H. cbn [step performAll] in QO2.
      rewrite !last_cons in QO2. cbn [last] in QO2.
      now apply (@queueOk_completed (id :: U) (id :: O) _ j QO2).
  - apply andb_true_iff in HS. destruct HS as [H1 H2].
    destruct (@step_settle i id r U O s h H1 QO HO) as [QO2 HO2].
    exists U, (dropZ id O), (h ++ statusHistory i (step (Settle id r) s)).
    split; [exact H2|]. split; [exact QO2|]. split; [|exact HO2].
    cbn [step performAll last] in *.
    apply timers_perform.
    + apply (@timers_weaken U O); [|exact T].
      intros j A B. split; [exact A|]. rewrite memZ_dropZ, B.
      apply andb_false_r.
    + intros j H. now apply (@queueOk_completed U (dropZ id O) _ j QO2).
  - unfold step. destruct (dismissible id s).
    + destruct (@step_remove i id U O s h QO HO) as [QO2 HO2].
      exists U, O, (h ++ statusOf i (perform (Remove id) s)).
      cbn [performAll last].
      split; [exact HS|]. split; [exact QO2|]. split; [|exact HO2].
      apply timers_perform; [exact T|].
      intros j H. now apply (@queueOk_completed U O _ j QO2).
    + exists U, O, h. cbn [last].
      split; [exact HS|]. split; [exact QO|]. split; [exact T|exact HO].
  - apply andb_true_iff in HS. destruct HS as [H1 H2].
    apply Z.leb_le in H1.
    cbn [step]. set (s0 := mkSys (store s) _ t (loadDate s)).
    rewrite last_cons.
    assert (QO0 : queueOk U O (queue s0)) by exact QO.
    assert (HO0 : historyOk i U (queue s0) h) by exact HO.
    assert (T0 : timersOk U O s0).
    { intros d j H. unfold s0 in H. simpl in H. apply filter_In in H.
      destruct H as [Hin Hd]. destruct (T d j Hin) as (A & B & C).
      unfold isDue in Hd. simpl in Hd.
      apply negb_true_iff, Z.leb_gt in Hd. repeat split; assumption. }
    destruct (@step_removes i U O
                (map snd (filter (isDue t) (timeouts s))) s0 h QO0 HO0)
      as [QO2 HO2].
    rewrite map_map in QO2, HO2.
    eexists U, O, _. split; [exact H2|]. split; [exact QO2|].
    split; [|exact HO2].
    rewrite <- (map_map snd Remove). now apply timers_removes.
  - exists U, O, h. cbn [step performAll last].
    split; [exact HS|]. split; [exact QO|]. split; [exact T|exact HO].
Qed.

Lemma prefix_inv i (evs1 : list Event) : forall rest U O s h,
  schedule U O (now s) (evs1 ++ rest) = true ->
  queueOk U O (queue s) -> timersOk U O s -> historyOk i U (queue s) h ->
  exists U' O',
    schedule U' O' (now (run evs1 s)) rest = true /\
    queueOk U' O' (queue (run evs1 s)) /\
    timersOk U' O' (run evs1 s).
Proof.
  induction evs1 as [|ev evs1 IH]; intros rest U O s h HS QO T HO.
  - exists U, O. split; [exact HS|]. split; [exact QO|exact T].
  - change ((ev :: evs1) ++ rest) with (ev :: (evs1 ++ rest)) in HS.
    destruct (@step_all i ev (evs1 ++ rest) U O s h HS QO T HO)
      as (U1 & O1 & h1 & HS1 & QO1 & T1 & HO1).
    rewrite run_cons. exact (IH _ _ _ _ _ HS1 QO1 T1 HO1).
Qed.




End EvictionFacts.




(** ** The queue: what schedules keep *)

Section RunFacts.

Import Store App Runs.



Lemma boot_invariants i today :
  queueOk [] [] (queue (boot today)) /\
  timersOk [] [] (boot today) /\
  historyOk i [] (queue (boot today)) [].
Proof.
  split; [|split].
  - split; [constructor|]. simpl. intros item K. destruct K.
  - intros d j K. destruct K.
  - repeat split; try reflexivity.
    + intros K. destruct K.
    + simpl. intros st K. destruct K.
Qed.




End RunFacts.

(** X1: along every schedule the application can produce, the queue at
    rest holds no two jobs with the same conversation id, and no job is
    Pending: the status written by [enqueue] is replaced by Processing
    within the same handler. *)
Theorem schedules_keep_ids_unique_and_no_job_pending :
  forall today evs,
    App.wellFormed evs = true ->
    let q := App.queue (App.run evs (App.boot today)) in
    NoDup (Store.ids q) /\
    forall item, In item q -> Store.status item <> Store.Pending.
Proof.
  intros today evs WF q.
  destruct (boot_invariants 0 today) as (QO0 & T0 & HO0).
  assert (WF' : App.schedule [] [] (App.now (App.boot today)) (evs ++ [])
                = true) by (rewrite app_nil_r; exact WF).
  destruct (@prefix_inv 0%Z evs [] [] [] (App.boot today) [] WF' QO0 T0 HO0)
    as (U & O & _ & [ND QI] & _).
  split; [exact ND|].
  intros item Hi E. destruct (QI item Hi) as [_ B]. rewrite E in B.
  destruct (App.memZ (Store.conversationId item) O); discriminate B.
Qed.

Lemma schedules_keep_ids_unique_and_no_job_pending_witness :
  NoDup (Store.ids (App.queue (App.run Samples.busyDay
                                       (App.boot Samples.today)))).
Proof.
  apply (schedules_keep_ids_unique_and_no_job_pending
           Samples.today Samples.busyDay).
  vm_compute. reflexivity.
Defined.



(** ** The session store: more of its actions *)

Section SessionFacts.

Import Store Session.

Lemma jobsWithId_remove_same id q :
  jobsWithId id
    (filter (fun item => negb (Z.eqb (conversationId item) id)) q) = [].
Proof.
  unfold jobsWithId. induction q as [|a q IH]; simpl; [reflexivity|].
  destruct (Z.eqb (conversationId a) id) eqn:E; simpl; [exact IH|].
  rewrite E. exact IH.
Qed.

Lemma jobsWithId_remove_other id j q :
  j <> id ->
  jobsWithId j
    (filter (fun item => negb (Z.eqb (conversationId item) id)) q)
  = jobsWithId j q.
Proof.
  intros Hne. unfold jobsWithId.
  induction q as [|a q IH]; simpl; [reflexivity|].
  destruct (Z.eqb_spec (conversationId a) id) as [E|E]; simpl.
  - destruct (Z.eqb_spec (conversationId a) j); [congruence|exact IH].
  - destruct (Z.eqb (conversationId a) j); [now rewrite IH|exact IH].
Qed.

Lemma filter_absent id q :
  ~ In id (ids q) ->
  filter (fun item => negb (Z.eqb (conversationId item) id)) q = q.
Proof.
  induction q as [|a q IH]; simpl; intros H; [reflexivity|].
  destruct (Z.eqb_spec (conversationId a) id) as [E|E].
  - exfalso. apply H. now left.
  - simpl. f_equal. apply IH. intros K. apply H. now right.
Qed.

Lemma merge_combine item u1 u2 :
  merge (merge item u1) u2 = merge item (combine u1 u2).
Proof.
  unfold merge, combine, over, later. simpl.
  destruct (upd_conversationId u2), (upd_audioPath u2), (upd_status u2),
    (upd_error u2); reflexivity.
Qed.

End SessionFacts.

(** X3: [removeFromTranscriptionQueue] removes every job with the id and
    nothing else: afterwards no job carries the id, the jobs of every
    other id are the same in the same order, and removing an id that is
    not queued leaves the store unchanged. *)
Theorem remove_drops_exactly_the_id :
  forall id s,
    let s' := Store.removeFromTranscriptionQueue id s in
    Store.jobsWithId id (Store.transcriptionQueue s') = [] /\
    (forall j, j <> id ->
       Store.jobsWithId j (Store.transcriptionQueue s')
       = Store.jobsWithId j (Store.transcriptionQueue s)) /\
    (~ In id (Store.ids (Store.transcriptionQueue s)) -> s' = s).
Proof.
  intros id s. simpl. split; [apply jobsWithId_remove_same|]. split.
  - intros j Hne. now apply jobsWithId_remove_other.
  - intros H. unfold Store.removeFromTranscriptionQueue.
    rewrite (filter_absent _ _ H). apply setQueue_same.
Qed.

Lemma remove_drops_exactly_the_id_witness :
  Store.removeFromTranscriptionQueue 8 Samples.twoJobs = Samples.twoJobs.
Proof.
  apply (proj2 (proj2 (remove_drops_exactly_the_id 8 Samples.twoJobs))).
  simpl. intuition discriminate.
Defined.

(** X4: enqueueing an id that is not queued and removing it again gives
    back the store as it was. *)
Theorem enqueue_then_remove_round_trip :
  forall id path s,
    ~ In id (Store.ids (Store.transcriptionQueue s)) ->
    Store.removeFromTranscriptionQueue id (Store.enqueue id path s) = s.
Proof.
  intros id path s H.
  unfold Store.removeFromTranscriptionQueue, Store.enqueue,
    Store.addToTranscriptionQueue.
  destruct s as [tab data rs ps it q ss cc queue]. simpl in *.
  unfold Store.setQueue. simpl. f_equal.
  rewrite filter_app. simpl. rewrite Z.eqb_refl. simpl.
  rewrite app_nil_r. now apply filter_absent.
Qed.

Lemma enqueue_then_remove_round_trip_witness :
  Store.removeFromTranscriptionQueue 8
    (Store.enqueue 8 "c.wav" Samples.twoJobs)
  = Samples.twoJobs.
Proof.
  apply (enqueue_then_remove_round_trip 8 "c.wav" Samples.twoJobs).
  simpl. intuition discriminate.
Defined.

(** X5: two updates of the same id compose into one update with the
    merged fields (the later key wins), as long as the first does not
    rewrite the conversation id.  If the first update gives the job
    another id, a second update by the old id does not reach it any
    more. *)
Theorem updates_compose_later_key_wins :
  forall id u1 u2 s,
    (Store.upd_conversationId u1 = None ->
     Store.updateTranscriptionQueueItem id u2
       (Store.updateTranscriptionQueueItem id u1 s)
     = Store.updateTranscriptionQueueItem id (Session.combine u1 u2) s)
    /\
    (forall j, Store.upd_conversationId u1 = Some j -> j <> id ->
     Store.updateTranscriptionQueueItem id u2
       (Store.updateTranscriptionQueueItem id u1 s)
     = Store.updateTranscriptionQueueItem id u1 s).
Proof.
  intros id u1 u2 s.
  destruct s as [tab data rs ps it q ss cc queue].
  unfold Store.updateTranscriptionQueueItem, Store.setQueue. simpl.
  split.
  - intros H. f_equal. rewrite map_map. apply map_ext. intros item.
    destruct (Z.eqb_spec (Store.conversationId item) id) as [E|E].
    + assert (K : Store.conversationId (Store.merge item u1) = id)
        by (unfold Store.merge; simpl; rewrite H; exact E).
      apply Z.eqb_eq in K. rewrite K. apply merge_combine.
    + apply Z.eqb_neq in E. now rewrite E.
  - intros j H Hne. f_equal. rewrite map_map. apply map_ext. intros item.
    destruct (Z.eqb_spec (Store.conversationId item) id) as [E|E].
    + assert (K : Store.conversationId (Store.merge item u1) = j)
        by (unfold Store.merge; simpl; rewrite H; reflexivity).
      apply Z.eqb_neq in Hne. rewrite K, Hne. reflexivity.
    + apply Z.eqb_neq in E. now rewrite E.
Qed.

Lemma updates_compose_later_key_wins_witness :
  Store.updateTranscriptionQueueItem 9 (App.toFailed "Network error")
    (Store.updateTranscriptionQueueItem 9 App.toProcessing Samples.twoJobs)
  = Store.updateTranscriptionQueueItem 9
      (Session.combine App.toProcessing (App.toFailed "Network error"))
      Samples.twoJobs.
Proof.
  apply (proj1 (updates_compose_later_key_wins
                  9 App.toProcessing (App.toFailed "Network error")
                  Samples.twoJobs)).
  reflexivity.
Defined.

(** X6: the reset sequence of the save handler ([resetSession], a direct
    [setState] of the session data, [updateSessionData]) leaves the store
    exactly as [resetSession] alone would with the current day as the
    initial date: the two forced writes only refresh the date, and the
    transcription queue is untouched. *)
Theorem reset_after_save_is_one_reset :
  forall today day s,
    Session.resetAfterSave today day s = Store.resetSession day s /\
    Store.transcriptionQueue (Session.resetAfterSave today day s)
    = Store.transcriptionQueue s.
Proof. intros today day s. split; reflexivity. Qed.

(** ** The recorder: sessions *)

Section RecorderOpsFacts.

Import Recorder RecorderOps.

Lemma chunks_deliver (datas : list Blob) : forall w,
  audioChunks (svc (deliver datas w))
  = audioChunks (svc w)
    ++ filter (fun d => match blob_bytes d with [] => false | _ => true end)
              datas.
Proof.
  unfold deliver. induction datas as [|d datas IH]; intros w; simpl.
  - now rewrite app_nil_r.
  - rewrite IH. unfold ondataavailable.
    destruct (blob_bytes d); simpl; [reflexivity|].
    now rewrite <- app_assoc.
Qed.

Lemma concat_nonempty_chunks (datas : list Blob) :
  List.concat
    (map blob_bytes
       (filter (fun d => match blob_bytes d with [] => false | _ => true end)
               datas))
  = List.concat (map blob_bytes datas).
Proof.
  induction datas as [|d datas IH]; simpl; [reflexivity|].
  destruct (blob_bytes d) eqn:E; simpl; [exact IH|].
  rewrite E, IH. reflexivity.
Qed.

End RecorderOpsFacts.

(** X7: the blob of a capture is exactly what was delivered: after any
    run of data events on a service without chunks, [getAudioBlob()] is
    null when no byte was delivered and otherwise the bytes of all
    chunks in order of arrival, typed audio/wav; every telemetry update
    carries the same blob as [getAudioBlob()] returns at that moment. *)
Theorem blob_is_the_bytes_delivered :
  forall datas w,
    Recorder.audioChunks (Recorder.svc w) = [] ->
    Recorder.getAudioBlob (Recorder.svc (RecorderOps.deliver datas w))
    = match List.concat (map blob_bytes datas) with
      | [] => None
      | b :: bs => Some (mkBlob (b :: bs) "audio/wav")
      end /\
    forall now,
      audioBlob (Recorder.snapshot now
                   (Recorder.svc (RecorderOps.deliver datas w)))
      = Recorder.getAudioBlob (Recorder.svc (RecorderOps.deliver datas w)).
Proof.
  intros datas w H. split; [|reflexivity].
  unfold Recorder.getAudioBlob. rewrite chunks_deliver, H. simpl.
  rewrite <- concat_nonempty_chunks.
  destruct (filter _ datas) as [|d ds] eqn:E; [reflexivity|].
  assert (Hd : In d (filter
                (fun d => match blob_bytes d with [] => false | _ => true end)
                datas)) by (rewrite E; now left).
  apply filter_In in Hd. destruct Hd as [_ Hd].
  unfold newBlob. simpl. destruct (blob_bytes d); [discriminate Hd|].
  reflexivity.
Qed.

Lemma blob_is_the_bytes_delivered_witness :
  Recorder.getAudioBlob
    (Recorder.svc
       (RecorderOps.deliver [Samples.chunk; mkBlob [] "audio/webm";
                             Samples.lastChunk]
                            Samples.started))
  = Some (mkBlob [Byte.x01; Byte.x02; Byte.x03] "audio/wav").
Proof.
  exact (proj1 (blob_is_the_bytes_delivered
                  [Samples.chunk; mkBlob [] "audio/webm"; Samples.lastChunk]
                  Samples.started eq_refl)).
Defined.

Section LevelFacts.

Import Recorder RecorderOps.

Lemma sum_bytes (l : list Z) : forall a,
  Forall isByte l ->
  (a <= fold_left Z.add l a <= a + 255 * Z.of_nat (List.length l))%Z.
Proof.
  induction l as [|x l IH]; intros a H; simpl List.length.
  - simpl. lia.
  - inversion H as [|? ? Hx Hl]; subst. unfold isByte in Hx.
    cbn [fold_left]. specialize (IH (a + x)%Z Hl). lia.
Qed.

Lemma Forall_take {A : Type} (P : A -> Prop) (l : list A) : forall n,
  Forall P l -> Forall P (firstn n l).
Proof.
  induction l as [|x l IH]; intros n H; destruct n; simpl;
    try constructor; inversion H; subst; auto.
Qed.

Lemma fillBytes_bytes (n : nat) (data : list Z) :
  Forall isByte data -> Forall isByte (fillBytes n data).
Proof.
  intros H. unfold fillBytes. apply Forall_take.
  apply Forall_app. split; [exact H|].
  apply Forall_forall. intros x Hx. apply repeat_spec in Hx. subst x.
  unfold isByte. lia.
Qed.

Lemma ratio_in_unit (s l : Z) :
  (0 <= s <= l)%Z -> 0 <= inject_Z s / inject_Z l <= 1.
Proof.
  intros [H0 H1]. destruct (Z.eq_dec l 0) as [E|E].
  - subst l. assert (s = 0%Z) by lia. subst s.
    split; unfold Qle; simpl; lia.
  - assert (Lq : 0 < inject_Z l).
    { change 0 with (inject_Z 0). rewrite <- Zlt_Qlt. lia. }
    split.
    + apply Qle_shift_div_l; [exact Lq|]. rewrite Qmult_0_l.
      change 0 with (inject_Z 0). rewrite <- Zle_Qle. exact H0.
    + apply Qle_shift_div_r; [exact Lq|]. rewrite Qmult_1_l.
      rewrite <- Zle_Qle. exact H1.
Qed.

End LevelFacts.

(** [updateAudioLevel] keeps the level normalised and the array at its
    length, as long as the analyser delivers bytes into an array that is
    not empty. *)
Lemma updateAudioLevel_in_unit (data : list Z) (r : Recorder.Service) :
  Forall RecorderOps.isByte data ->
  Recorder.dataArray r <> Some [] ->
  0 <= Recorder.audioLevelF r <= 1 ->
  0 <= Recorder.audioLevelF (Recorder.updateAudioLevel data r) <= 1 /\
  Recorder.dataArray (Recorder.updateAudioLevel data r) <> Some [].
Proof.
  intros Hb Hn Hr. unfold Recorder.updateAudioLevel.
  destruct (Recorder.analyserNode (Recorder.nodes r)); [|split; assumption].
  destruct (Recorder.dataArray r) as [arr|] eqn:Ea;
    [|split; [exact Hr|rewrite Ea; discriminate]].
  cbn [Recorder.audioLevelF Recorder.dataArray Recorder.set_level].
  split.
  - apply ratio_in_unit.
    pose proof (sum_bytes 0
                  (fillBytes_bytes (List.length arr) Hb)) as K.
    lia.
  - intros K. inversion K as [E]. apply Hn. f_equal.
    assert (L : List.length (Recorder.fillBytes (List.length arr) data)
                = List.length arr).
    { unfold Recorder.fillBytes. rewrite length_firstn, length_app,
        repeat_length. lia. }
    rewrite E in L. destruct arr; [reflexivity|discriminate L].
Qed.

Section MachineFacts.

Import Recorder RecorderOps.

(** What an operation between start and stop leaves alone. *)
Lemma updateState_keeps (rd : Reading) (w : World) :
  browser (updateState rd w) = browser w /\
  intervalId (svc (updateState rd w)) = intervalId (svc w) /\
  stream (svc (updateState rd w)) = stream (svc w) /\
  nodes (svc (updateState rd w)) = nodes (svc w) /\
  mediaRecorder (svc (updateState rd w)) = mediaRecorder (svc w).
Proof.
  destruct (updateState_fields rd w)
    as (_ & F2 & F3 & _ & F5 & _ & _ & _ & F9).
  rewrite updateState_browser. repeat split; assumption.
Qed.

Lemma pause_keeps (now : Q) (rd : Reading) (w : World) :
  browser (pause now rd w) = browser w /\
  intervalId (svc (pause now rd w)) = intervalId (svc w) /\
  stream (svc (pause now rd w)) = stream (svc w) /\
  nodes (svc (pause now rd w)) = nodes (svc w) /\
  stateOf (mediaRecorder (svc (pause now rd w)))
  = option_map (fun st => next st (Capture.OpPause now rd))
               (stateOf (mediaRecorder (svc w))).
Proof.
  unfold pause. destruct (mediaRecorder (svc w)) as [mr|] eqn:Hmr;
    [|rewrite Hmr; repeat split].
  destruct (mr_state mr) eqn:Hst;
    try (rewrite Hmr; simpl; rewrite Hst; repeat split).
  match goal with
  | |- context [updateState rd ?w0] =>
      destruct (updateState_keeps rd w0) as (K1 & K2 & K3 & K4 & K5);
      set (w3 := updateState rd w0) in *
  end.
  cbn in K1, K2, K3, K4, K5. clearbody w3.
  assert (G : stateOf (Some (set_mr_state Paused mr))
              = option_map (fun st => next st (Capture.OpPause now rd))
                           (stateOf (Some mr)))
    by (simpl; rewrite Hst; reflexivity).
  destruct (audioContext (svc w3)) as [ctx|];
    [destruct (ctx_state ctx)|];
    cbn [svc browser set_audioContext intervalId stream nodes mediaRecorder];
    rewrite ?K1, ?K2, ?K3, ?K4, ?K5; repeat split; exact G.
Qed.

Lemma resume_keeps (now : Q) (rd : Reading) (w : World) :
  browser (resume now rd w) = browser w /\
  intervalId (svc (resume now rd w)) = intervalId (svc w) /\
  stream (svc (resume now rd w)) = stream (svc w) /\
  nodes (svc (resume now rd w)) = nodes (svc w) /\
  stateOf (mediaRecorder (svc (resume now rd w)))
  = option_map (fun st => next st (Capture.OpResume now rd))
               (stateOf (mediaRecorder (svc w))).
Proof.
  unfold resume. destruct (mediaRecorder (svc w)) as [mr|] eqn:Hmr;
    [|rewrite Hmr; repeat split].
  destruct (mr_state mr) eqn:Hst;
    try (rewrite Hmr; simpl; rewrite Hst; repeat split).
  match goal with
  | |- context [updateState rd ?w0] =>
      destruct (updateState_keeps rd w0) as (K1 & K2 & K3 & K4 & K5)
  end.
  cbn [svc browser set_startTime set_mediaRecorder intervalId stream nodes
       mediaRecorder] in K1, K2, K3, K4, K5.
  rewrite K1, K2, K3, K4, K5.
  assert (G : stateOf (Some (set_mr_state Recording mr))
              = option_map (fun st => next st (Capture.OpResume now rd))
                           (stateOf (Some mr)))
    by (simpl; rewrite Hst; reflexivity).
  destruct (audioContext (svc w)) as [ctx|];
    [destruct (ctx_state ctx)|]; repeat split; exact G.
Qed.

Lemma apply_keeps (op : Capture.Op) (w : World) :
  browser (Capture.apply w op) = browser w /\
  intervalId (svc (Capture.apply w op)) = intervalId (svc w) /\
  stream (svc (Capture.apply w op)) = stream (svc w) /\
  nodes (svc (Capture.apply w op)) = nodes (svc w) /\
  stateOf (mediaRecorder (svc (Capture.apply w op)))
  = option_map (fun st => next st op) (stateOf (mediaRecorder (svc w))).
Proof.
  assert (Id : forall o : option RecorderState,
             o = option_map (fun st => st) o) by (intros [x|]; reflexivity).
  destruct op as [rd|now rd|now rd|chunk]; cbn [Capture.apply].
  - assert (E : forall st, next st (Capture.OpTick rd) = st)
      by (intros st; destruct st; reflexivity).
    assert (G : forall w', browser w' = browser w /\
                intervalId (svc w') = intervalId (svc w) /\
                stream (svc w') = stream (svc w) /\
                nodes (svc w') = nodes (svc w) /\
                mediaRecorder (svc w') = mediaRecorder (svc w) ->
                browser w' = browser w /\
                intervalId (svc w') = intervalId (svc w) /\
                stream (svc w') = stream (svc w) /\
                nodes (svc w') = nodes (svc w) /\
                stateOf (mediaRecorder (svc w'))
                = option_map (fun st => next st (Capture.OpTick rd))
                             (stateOf (mediaRecorder (svc w)))).
    { intros w' (A & B & C & D & F). rewrite F. repeat split; try assumption.
      destruct (stateOf (mediaRecorder (svc w))) as [st|];
        cbn [option_map]; [now rewrite E|reflexivity]. }
    apply G. destruct (intervalId (svc w)) as [id|] eqn:Hid;
      [|rewrite Hid; repeat split].
    unfold tick. destruct (timerActive id (browser w)).
    + rewrite <- Hid. apply updateState_keeps.
    + rewrite Hid. repeat split.
  - apply pause_keeps.
  - apply resume_keeps.
  - unfold ondataavailable. destruct (blob_bytes chunk); cbn;
      repeat split;
      destruct (stateOf (mediaRecorder (svc w))) as [[| |]|]; reflexivity.
Qed.

Lemma runOps_state (ops : list Capture.Op) : forall w st,
  stateOf (mediaRecorder (svc w)) = Some st ->
  stateOf (mediaRecorder (svc (Capture.runOps ops w)))
  = Some (fold_left next ops st).
Proof.
  unfold Capture.runOps.
  induction ops as [|op ops IH]; intros w st H; [exact H|].
  cbn [fold_left]. apply IH.
  destruct (apply_keeps op w) as (_ & _ & _ & _ & K).
  rewrite K, H. reflexivity.
Qed.

Lemma stopped_state (last : Blob) (rd : Reading) (w : World) (st : RecorderState) :
  stateOf (mediaRecorder (svc w)) = Some st -> st <> Inactive ->
  stateOf (mediaRecorder (svc (stopped last rd w))) = Some Inactive.
Proof.
  intros H Hne. unfold stopped. rewrite H.
  assert (G : stateOf (mediaRecorder
                         (svc (onstop rd (ondataavailable last (stop w)))))
              = Some Inactive).
  { rewrite onstop_unfold. cbn [svc]. unfold set_nodes. cbn [mediaRecorder].
    destruct (updateState_keeps rd (ondataavailable last (stop w)))
      as (_ & _ & _ & _ & K).
    rewrite K. unfold ondataavailable, stop.
    destruct (mediaRecorder (svc w)) as [mr|]; [|discriminate H].
    simpl in H. inversion H; subst.
    destruct (mr_state mr); [congruence| |];
      destruct (blob_bytes last); reflexivity. }
  destruct st; [congruence|exact G|exact G].
Qed.

End MachineFacts.

(** X9: the capture follows the state machine of its operations: from a
    recorder in state [st], any run of pauses, resumes, ticks and data
    events leaves the recorder in the state the machine [next] computes
    ([pause] acts only while recording, [resume] only while paused), and
    [stop] from Recording or Paused always ends Inactive.  Out of their
    states the operations do nothing at all: [pause] while not
    recording, [resume] while not paused and [stop] while inactive return
    the world unchanged. *)
Theorem capture_follows_state_machine :
  forall w st,
    Recorder.stateOf (Recorder.mediaRecorder (Recorder.svc w)) = Some st ->
    (forall ops,
       Recorder.stateOf
         (Recorder.mediaRecorder (Recorder.svc (Capture.runOps ops w)))
       = Some (fold_left RecorderOps.next ops st)) /\
    (forall last rd,
       st <> Recorder.Inactive ->
       Recorder.stateOf
         (Recorder.mediaRecorder (Recorder.svc (Recorder.stopped last rd w)))
       = Some Recorder.Inactive) /\
    (forall now rd, st <> Recorder.Recording -> Recorder.pause now rd w = w) /\
    (forall now rd, st <> Recorder.Paused -> Recorder.resume now rd w = w) /\
    (forall last rd,
       st = Recorder.Inactive ->
       Recorder.stop w = w /\ Recorder.stopped last rd w = w).
Proof.
  intros w st H. split; [|split; [|split; [|split]]].
  - intros ops. now apply runOps_state.
  - intros last rd Hne. now apply (stopped_state last rd w H).
  - intros now rd Hne. unfold Recorder.pause.
    destruct (Recorder.mediaRecorder (Recorder.svc w)) as [mr|];
      [|reflexivity].
    simpl in H. inversion H; subst.
    destruct (Recorder.mr_state mr); congruence.
  - intros now rd Hne. unfold Recorder.resume.
    destruct (Recorder.mediaRecorder (Recorder.svc w)) as [mr|];
      [|reflexivity].
    simpl in H. inversion H; subst.
    destruct (Recorder.mr_state mr); congruence.
  - intros last rd E. subst st. unfold Recorder.stopped, Recorder.stop.
    rewrite H.
    destruct (Recorder.mediaRecorder (Recorder.svc w)) as [mr|];
      [|discriminate H].
    simpl in H. inversion H as [E]. rewrite E. split; reflexivity.
Qed.

Lemma capture_follows_state_machine_witness :
  Recorder.stateOf
    (Recorder.mediaRecorder
       (Recorder.svc (Capture.runOps Samples.pausedOnce Samples.started)))
  = Some Recorder.Recording.
Proof.
  exact (proj1 (capture_follows_state_machine Samples.started
                  (st := Recorder.Recording) eq_refl)
               Samples.pausedOnce).
Defined.

Section LeakFacts.

Import Recorder RecorderOps.

Lemma NodeId_eqb_eq (a b : NodeId) : NodeId_eqb a b = true <-> a = b.
Proof.
  destruct a as [c k], b as [c' k']. unfold NodeId_eqb. cbn [fst snd].
  rewrite andb_true_iff, Nat.eqb_eq. split.
  - intros [E K]. subst. destruct k, k'; (reflexivity || discriminate K).
  - intros E. inversion E; subst. split; [reflexivity|destruct k'; reflexivity].
Qed.

Lemma no_member (A : Type) (l : list A) : (forall x, ~ In x l) -> l = [].
Proof.
  destruct l as [|a l]; [reflexivity|].
  intros H. exfalso. apply (H a). now left.
Qed.

Lemma stopTracks_live (s : MediaStream) : forall b x,
  In x (liveTracks (stopTracks s b))
  <-> In x (liveTracks b) /\ ~ In x (tracks s).
Proof.
  unfold stopTracks. induction (tracks s) as [|t l IH]; intros b x;
    cbn [fold_left].
  - simpl. tauto.
  - rewrite IH. unfold stopTrack. cbn [liveTracks].
    rewrite filter_In, negb_true_iff, Nat.eqb_neq. simpl.
    intuition congruence.
Qed.

Lemma dropNode_edges (n : option NodeId) (b : Browser) (e : NodeId * NodeId) :
  In e (edges (dropNode n b)) <-> In e (edges b) /\ n <> Some (fst e).
Proof.
  destruct n as [id|]; cbn [dropNode disconnect edges].
  - rewrite filter_In, negb_true_iff.
    destruct (NodeId_eqb (fst e) id) eqn:E.
    + apply NodeId_eqb_eq in E. subst id. intuition congruence.
    + assert (fst e <> id) by (intros K; apply NodeId_eqb_eq in K; congruence).
      intuition congruence.
  - intuition congruence.
Qed.

Lemma dispose_edges (r : Service) (b : Browser) (e : NodeId * NodeId) :
  In e (edges (snd (disposeAudioNodes r b)))
  <-> In e (edges b) /\ ~ In (fst e) (heldNodes (nodes r)).
Proof.
  unfold disposeAudioNodes. cbn [snd].
  rewrite !dropNode_edges. unfold heldNodes.
  destruct (sourceNode (nodes r)), (analyserNode (nodes r)),
    (processorNode (nodes r)), (highpassFilter (nodes r)),
    (lowpassFilter (nodes r)), (compressorNode (nodes r));
    cbn [option_map List.app List.In]; intuition congruence.
Qed.

Lemma reset_snd (r : Service) (b : Browser) :
  snd (reset r b)
  = let b1 := match stream r with Some s => stopTracks s b | None => b end in
    let b2 := snd (disposeAudioNodes r b1) in
    match intervalId r with
    | Some id => clearInterval id b2
    | None => b2
    end.
Proof.
  unfold reset. destruct (stream r); destruct (intervalId r) eqn:E;
    cbn; rewrite ?E; reflexivity.
Qed.

Lemma reset_browser (r : Service) (b : Browser) :
  (forall t, In t (liveTracks (snd (reset r b)))
             <-> In t (liveTracks b) /\
                 forall s, stream r = Some s -> ~ In t (tracks s)) /\
  (forall e, In e (edges (snd (reset r b)))
             <-> In e (edges b) /\ ~ In (fst e) (heldNodes (nodes r))) /\
  intervals (snd (reset r b))
  = match intervalId r with
    | Some id => filter (fun t => negb (Nat.eqb (fst t) id)) (intervals b)
    | None => intervals b
    end.
Proof.
  rewrite reset_snd. cbv zeta.
  set (b1 := match stream r with Some s => stopTracks s b | None => b end).
  assert (L : forall t, In t (liveTracks b1)
                        <-> In t (liveTracks b) /\
                            forall s, stream r = Some s -> ~ In t (tracks s)).
  { intros t. unfold b1. destruct (stream r) as [s|].
    - rewrite stopTracks_live. split.
      + intros [A B]. split; [exact A|]. intros s' K. now inversion K; subst.
      + intros [A B]. split; [exact A|]. now apply B.
    - split; [intros A; split; [exact A|discriminate]|tauto]. }
  assert (E : edges b1 = edges b /\ intervals b1 = intervals b).
  { unfold b1. destruct (stream r) as [s|]; [|split; reflexivity].
    destruct (stopTracks_keeps s b) as (A & B & _). split; assumption. }
  destruct E as [E1 E2].
  destruct (dispose_keeps r b1) as (D1 & D2 & _).
  split; [|split].
  - intros t. rewrite <- L.
    destruct (intervalId r); cbn [clearInterval liveTracks]; rewrite D1;
      tauto.
  - intros e. rewrite <- E1, <- dispose_edges.
    destruct (intervalId r); cbn [clearInterval edges]; tauto.
  - destruct (intervalId r); cbn [clearInterval intervals]; rewrite D2, E2;
      reflexivity.
Qed.

(** After [reset] in a tidy world nothing is left in the browser. *)
Lemma reset_tidy (w : World) (cb : bool) :
  tidy w ->
  liveTracks (snd (reset (set_updateCallback cb (svc w)) (browser w))) = [] /\
  edges (snd (reset (set_updateCallback cb (svc w)) (browser w))) = [] /\
  intervals (snd (reset (set_updateCallback cb (svc w)) (browser w))) = [].
Proof.
  intros (A & B & C & _).
  destruct (reset_browser (set_updateCallback cb (svc w)) (browser w))
    as (L & E & T).
  cbn [set_updateCallback stream nodes intervalId] in L, E, T.
  split; [|split].
  - apply no_member. intros t K. apply L in K. destruct K as [K1 K2].
    destruct (A t K1) as (s & S1 & S2). exact (K2 s S1 S2).
  - apply no_member. intros e K. apply E in K. destruct K as [K1 K2].
    exact (K2 (B e K1)).
  - rewrite T, C. unfold ownTimers.
    destruct (intervalId (svc w)) as [id|]; [|reflexivity].
    cbn [filter fst]. now rewrite Nat.eqb_refl.
Qed.

(** [reset] of a service that holds nothing, in an empty browser. *)
Lemma reset_empty (r : Service) (b : Browser) :
  liveTracks b = [] -> edges b = [] -> intervals b = [] ->
  liveTracks (snd (reset r b)) = [] /\
  edges (snd (reset r b)) = [] /\
  intervals (snd (reset r b)) = [].
Proof.
  intros A B C. destruct (reset_browser r b) as (L & E & T).
  split; [|split].
  - apply no_member. intros t K. apply L in K. rewrite A in K. tauto.
  - apply no_member. intros e K. apply E in K. rewrite B in K. tauto.
  - rewrite T, C. destruct (intervalId r); reflexivity.
Qed.

Lemma tidy_idle (r : Service) (b : Browser) (u : list RecordingState) :
  mediaRecorder r = None -> nodes r = noNodes -> intervalId r = None ->
  liveTracks b = [] -> edges b = [] -> intervals b = [] ->
  tidy (mkWorld r b u).
Proof.
  intros M N I A B C. unfold tidy, ownTimers, capturing.
  cbn [svc browser]. rewrite A, B, C, I, N.
  repeat split; try reflexivity; intros x K; destruct K.
Qed.

Ltac chain_held E1 :=
  let e := fresh "e" in
  let K := fresh "K" in
  intros e K; cbn in K |- *; rewrite E1 in K; cbn in K;
  destruct K as [K|[K|[K|[K|[K|[]]]]]]; subst e; cbn [fst]; tauto.

Lemma tidy_recording (rd : Reading) (r : Service) (b : Browser)
      (u : list RecordingState) (s : MediaStream) (id : nat) :
  stream r = Some s -> liveTracks b = tracks s ->
  (forall e, In e (edges b) -> In (fst e) (heldNodes (nodes r))) ->
  intervalId r = Some id -> intervals b = [(id, 100%Z)] ->
  capturing (mkWorld r b u) = true ->
  tidy (updateState rd (mkWorld r b u)).
Proof.
  intros A B C D E F.
  destruct (updateState_keeps rd (mkWorld r b u)) as (K1 & K2 & K3 & K4 & K5).
  unfold tidy, capturing, ownTimers in *.
  rewrite K1, K2, K3, K4, K5. cbn [svc browser] in *.
  split; [|split; [|split]].
  - intros t K. exists s. split; [exact A|]. now rewrite <- B.
  - exact C.
  - now rewrite D.
  - intros K. rewrite K in F. discriminate F.
Qed.

Lemma tidy_start (env : StartEnv) (now : Q) (rd : Reading) (w : World) :
  tidy w -> tidy (fst (start env now rd w)).
Proof.
  intros H. unfold start.
  pose proof (reset_service (set_updateCallback true (svc w)) (browser w))
    as RS.
  pose proof (@reset_tidy w true H) as RT.
  destruct (reset (set_updateCallback true (svc w)) (browser w)) as [r1 b1].
  cbn [fst snd] in RS, RT. subst r1. destruct RT as (L1 & E1 & T1).
  destruct (userMedia env) as [m|s].
  - unfold startFailed. cbn [svc browser updates].
    match goal with
    | |- context [reset ?r ?b] =>
        pose proof (reset_service r b) as RS2;
        pose proof (@reset_empty r b L1 E1 T1) as RE;
        destruct (reset r b) as [r2 b2]
    end.
    cbn [fst snd] in RS2, RE. subst r2. destruct RE as (L2 & E2 & T2).
    cbn [fst]. now apply tidy_idle.
  - unfold buildGraph, newContext, newMediaRecorder.
    cbn -[updateState reset].
    assert (F : forall r3 b3,
               liveTracks b3 = tracks s -> stream r3 = Some s ->
               (forall e, In e (edges b3) -> In (fst e) (heldNodes (nodes r3))) ->
               intervals b3 = [] ->
               tidy (fst (startFailed "MediaRecorder is not supported"
                                      (mkWorld r3 b3 (updates w))))).
    { intros r3 b3 A B C D. unfold startFailed. cbn [svc browser updates].
      pose proof (reset_service r3 b3) as RS2.
      destruct (reset_browser r3 b3) as (L & E & T).
      destruct (reset r3 b3) as [r2 b2].
      cbn [fst snd] in RS2, L, E, T |- *. subst r2.
      apply tidy_idle; try reflexivity.
      - apply no_member. intros t K. apply L in K. destruct K as [K1 K2].
        rewrite A in K1. exact (K2 s B K1).
      - apply no_member. intros e K. apply E in K. destruct K as [K1 K2].
        exact (K2 (C e K1)).
      - rewrite T, D. destruct (intervalId r3); reflexivity. }
    destruct (opusSupported env); [|destruct (plainSupported env)].
    1, 2: cbn [fst];
      apply (@tidy_recording rd _ _ _ s (nextTimer b1));
      [ reflexivity
      | cbn [liveTracks]; now rewrite L1
      | chain_held E1
      | reflexivity
      | cbn [intervals]; now rewrite T1
      | reflexivity ].
    apply F.
    + cbn [liveTracks]. now rewrite L1.
    + reflexivity.
    + chain_held E1.
    + exact T1.
Qed.

Lemma tidy_stopped (last : Blob) (rd : Reading) (w : World) :
  tidy w -> tidy (stopped last rd w).
Proof.
  intros H. unfold stopped.
  destruct (stateOf (mediaRecorder (svc w))) as [st|] eqn:St; [|exact H].
  assert (G : st <> Inactive -> tidy (onstop rd (ondataavailable last (stop w)))).
  { intros Hne. destruct H as (A & B & C & _).
    pose proof (stopped_state last rd w St Hne) as S.
    unfold stopped in S. rewrite St in S.
    assert (S' : stateOf (mediaRecorder
                            (svc (onstop rd (ondataavailable last (stop w)))))
                 = Some Inactive) by (destruct st; [congruence|exact S|exact S]).
    clear S.
    destruct (onstop_keeps_timer rd (ondataavailable last (stop w)))
      as [T1 T2].
    destruct (ondataavailable_keeps_timer last (stop w)) as [T3 T4].
    destruct (stop_keeps_timer w) as [T5 T6].
    assert (Str : stream (svc (updateState rd (ondataavailable last (stop w))))
                  = stream (svc w)).
    { destruct (updateState_keeps rd (ondataavailable last (stop w)))
        as (_ & _ & K & _). rewrite K.
      unfold ondataavailable, stop.
      destruct (mediaRecorder (svc w)) as [mr|];
        [destruct (mr_state mr)|]; destruct (blob_bytes last); reflexivity. }
    assert (Nd : nodes (svc (updateState rd (ondataavailable last (stop w))))
                 = nodes (svc w)).
    { destruct (updateState_keeps rd (ondataavailable last (stop w)))
        as (_ & _ & _ & K & _). rewrite K.
      unfold ondataavailable, stop.
      destruct (mediaRecorder (svc w)) as [mr|];
        [destruct (mr_state mr)|]; destruct (blob_bytes last); reflexivity. }
    assert (Br : browser (updateState rd (ondataavailable last (stop w)))
                 = browser w).
    { rewrite updateState_browser. congruence. }
    assert (L : liveTracks (browser (onstop rd (ondataavailable last (stop w))))
                = []).
    { rewrite onstop_unfold. cbn [browser].
      rewrite (proj1 (dispose_keeps _ _)). unfold afterTracks.
      rewrite Str, Br. apply no_member. intros t K.
      destruct (stream (svc w)) as [s|] eqn:Es.
      - apply stopTracks_live in K. destruct K as [K1 K2].
        destruct (A t K1) as (s' & S1 & S2). inversion S1; subst. tauto.
      - destruct (A t K) as (s' & S1 & _). discriminate S1. }
    assert (E : edges (browser (onstop rd (ondataavailable last (stop w))))
                = []).
    { rewrite onstop_unfold. cbn [browser]. apply no_member. intros e K.
      apply dispose_edges in K. destruct K as [K1 K2]. rewrite Nd in K2.
      apply K2, B. unfold afterTracks in K1. rewrite Str, Br in K1.
      destruct (stream (svc w)) as [s|]; [|exact K1].
      now rewrite (proj1 (stopTracks_keeps s _)) in K1. }
    unfold tidy, capturing, ownTimers. rewrite S', L, E, T1, T2, T3, T4, T5, T6.
    split; [intros t K; destruct K|].
    split; [intros e K; destruct K|].
    split; [exact C|].
    intros _. split; [reflexivity|]. split; [reflexivity|].
    rewrite onstop_unfold. reflexivity. }
  destruct st; [exact H|apply G; discriminate|apply G; discriminate].
Qed.

Lemma tidy_apply (op : Capture.Op) (w : World) :
  tidy w -> tidy (Capture.apply w op).
Proof.
  intros (A & B & C & D).
  destruct (apply_keeps op w) as (K1 & K2 & K3 & K4 & K5).
  unfold tidy, capturing, ownTimers in *. rewrite K1, K2, K3, K4, K5.
  split; [exact A|]. split; [exact B|]. split; [exact C|].
  intros K. apply D.
  destruct (stateOf (mediaRecorder (svc w))) as [[| |]|]; try reflexivity;
    destruct op; cbn in K; discriminate K.
Qed.

Lemma tidy_session (calls : list Call) : tidy (session calls).
Proof.
  unfold session.
  assert (G : forall w, tidy w -> tidy (fold_left call calls w)).
  { induction calls as [|c calls IH]; intros w H; [exact H|].
    cbn [fold_left]. apply IH. destruct c as [env now rd|last rd|op].
    - now apply tidy_start.
    - now apply tidy_stopped.
    - now apply tidy_apply. }
  apply G. apply tidy_idle; reflexivity.
Qed.

End LeakFacts.

(** X10: telemetry timers never pile up.  However a client starts,
    pauses, resumes and stops captures (failed starts included), the
    browser holds at most one interval timer of the service, with period
    100 ms, and it is the one whose id the service remembers: [start]
    clears the timer a [stop] has left behind before it registers a new
    one. *)
Theorem at_most_one_telemetry_timer :
  forall calls,
    Recorder.intervals (Recorder.browser (RecorderOps.session calls))
    = match Recorder.intervalId (Recorder.svc (RecorderOps.session calls)) with
      | Some id => [(id, 100%Z)]
      | None => []
      end.
Proof.
  intros calls. destruct (tidy_session calls) as (_ & _ & C & _). exact C.
Qed.

(** X11: outside a capture the microphone is released.  After any
    sequence of calls, whenever no capture is under way (never started,
    stopped, or the last [start] failed), no track of any stream is live,
    no audio node is connected or held by the service; during a capture
    the live tracks are those of the stream held and every connection
    leaves a node the service holds. *)
Theorem idle_service_holds_no_track_or_node :
  forall calls,
    let w := RecorderOps.session calls in
    (RecorderOps.capturing w = false ->
     Recorder.liveTracks (Recorder.browser w) = [] /\
     Recorder.edges (Recorder.browser w) = [] /\
     Recorder.nodes (Recorder.svc w) = Recorder.noNodes) /\
    (forall t, In t (Recorder.liveTracks (Recorder.browser w)) ->
               exists s, Recorder.stream (Recorder.svc w) = Some s /\
                         In t (Recorder.tracks s)) /\
    (forall e, In e (Recorder.edges (Recorder.browser w)) ->
               In (fst e) (RecorderOps.heldNodes
                             (Recorder.nodes (Recorder.svc w)))).
Proof.
  intros calls w. destruct (tidy_session calls) as (A & B & _ & D).
  split; [exact D|]. split; [exact A|exact B].
Qed.

Lemma idle_service_holds_no_track_or_node_witness :
  let w := RecorderOps.session
             [RecorderOps.CallStart Samples.micEnv 1000 (Samples.quiet 1000);
              RecorderOps.CallOp (Capture.OpData Samples.chunk);
              RecorderOps.CallStop Samples.lastChunk (Samples.quiet 3000);
              RecorderOps.CallStart Samples.noRecorderEnv 5000
                                    (Samples.quiet 5000)] in
  Recorder.liveTracks (Recorder.browser w) = [] /\
  Recorder.edges (Recorder.browser w) = [] /\
  Recorder.nodes (Recorder.svc w) = Recorder.noNodes.
Proof.
  intros w.
  apply (proj1 (idle_service_holds_no_track_or_node
                  [RecorderOps.CallStart Samples.micEnv 1000
                                         (Samples.quiet 1000);
                   RecorderOps.CallOp (Capture.OpData Samples.chunk);
                   RecorderOps.CallStop Samples.lastChunk (Samples.quiet 3000);
                   RecorderOps.CallStart Samples.noRecorderEnv 5000
                                         (Samples.quiet 5000)])).
  vm_compute. reflexivity.
Defined.

(** ** The player: elements and timers *)

Section PlaybackFacts.

Import Playback.

Lemma nth_error_updAt (A : Type) (f : A -> A) (l : list A) : forall i j,
  nth_error (updAt i f l) j
  = if Nat.eqb i j then option_map f (nth_error l j) else nth_error l j.
Proof.
  induction l as [|x l IH]; intros i j.
  - destruct i, j; simpl; try reflexivity; destruct (Nat.eqb i j); reflexivity.
  - destruct i as [|i], j as [|j]; simpl; try reflexivity. apply IH.
Qed.

Lemma length_updAt (A : Type) (f : A -> A) (l : list A) : forall i,
  List.length (updAt i f l) = List.length l.
Proof.
  induction l as [|x l IH]; intros [|i]; simpl; try reflexivity.
  now rewrite IH.
Qed.

Lemma updateState_same (w : World) :
  svc (updateState w) = svc w /\ page (updateState w) = page w.
Proof. split; reflexivity. Qed.

(** A change of one element that keeps silent elements silent, or that
    touches the element held. *)
Lemma calm_onElement (r : Service) (p : Page) (i : nat)
      (f : Element -> Element) :
  calm r p ->
  audio r = Some i \/ (forall e, silent e -> silent (f e)) ->
  calm r (onElement i f p).
Proof.
  intros [A B] H. split; [|exact B].
  intros j e. cbn [onElement elements]. rewrite nth_error_updAt.
  destruct (Nat.eqb i j) eqn:E.
  - apply Nat.eqb_eq in E. subst j.
    destruct (nth_error (elements p) i) as [e0|] eqn:N; [|discriminate].
    cbn [option_map]. intros K Hne. inversion K; subst e.
    destruct H as [H|H]; [congruence|]. apply H. exact (A i e0 N Hne).
  - apply A.
Qed.

Lemma holding_onElement (r : Service) (p : Page) (i : nat)
      (f : Element -> Element) :
  holding r p -> holding r (onElement i f p).
Proof.
  intros (j & A & B). exists j. split; [exact A|].
  cbn [onElement elements]. now rewrite length_updAt.
Qed.

Lemma calm_onHeld (f : Element -> Element) (w : World) :
  calm (svc w) (page w) ->
  calm (svc (onHeld f w)) (page (onHeld f w)).
Proof.
  intros H. unfold onHeld. destruct (audio (svc w)) as [i|] eqn:E;
    [|exact H].
  cbn [svc page]. apply calm_onElement; [exact H|now left].
Qed.

Lemma holding_onHeld (f : Element -> Element) (w : World) :
  holding (svc w) (page w) ->
  holding (svc (onHeld f w)) (page (onHeld f w)).
Proof.
  intros H. unfold onHeld. destruct (audio (svc w)) as [i|] eqn:E;
    [|exact H].
  cbn [svc page]. now apply holding_onElement.
Qed.

Lemma silent_paused (e : Element) :
  silent e -> silent (onMedia (set_paused true) e).
Proof. intros [A B]. split; [reflexivity|exact B]. Qed.

Lemma silent_duration (d : JS.num) (e : Element) :
  silent e -> silent (onMedia (set_duration d) e).
Proof. intros [A B]. split; [exact A|exact B]. Qed.

Lemma silent_progress (t : JS.num) (e : Element) :
  silent e ->
  silent (onMedia (fun a => if Player.el_paused a then a
                            else set_currentTime t a) e).
Proof.
  intros [A B]. unfold silent, onMedia. cbn [media src]. rewrite A.
  split; [exact A|exact B].
Qed.

(** After [reset] every element is silent, no timer is registered, and
    a fresh element is held. *)
Lemma reset_silences (r : Service) (p : Page) :
  calm r p ->
  let r1 := fst (reset r p) in
  let p1 := snd (reset r p) in
  (forall i e, nth_error (elements p1) i = Some e -> silent e) /\
  intervals p1 = [] /\ intervalId r1 = None /\
  audio r1 = Some (List.length (elements p)) /\
  List.length (elements p1) = S (List.length (elements p)) /\
  updateCallback r1 = updateCallback r.
Proof.
  intros [A B]. unfold reset, newAudio.
  set (p0 := match audio r with
             | Some i =>
                 onElement i
                   (fun e => set_src NoSrc (onMedia (set_paused true) e)) p
             | None => p
             end).
  assert (S0 : forall i e, nth_error (elements p0) i = Some e -> silent e).
  { intros i e. unfold p0. destruct (audio r) as [j|] eqn:Ea.
    - cbn [onElement elements]. rewrite nth_error_updAt.
      destruct (Nat.eqb j i) eqn:E.
      + destruct (nth_error (elements p) i); [|discriminate].
        cbn [option_map]. intros K. inversion K. split; reflexivity.
      + intros K. apply (A i e K). apply Nat.eqb_neq in E. congruence.
    - intros K. apply (A i e K). discriminate. }
  assert (L0 : List.length (elements p0) = List.length (elements p)).
  { unfold p0. destruct (audio r); [|reflexivity].
    cbn [onElement elements]. apply length_updAt. }
  assert (I0 : intervals p0 = intervals p).
  { unfold p0. destruct (audio r); reflexivity. }
  assert (G : forall i e,
             nth_error (elements p0 ++
                        [mkElement (Player.mkAudio true (JS.Fin 0) JS.NaN)
                                   NoSrc false]) i = Some e -> silent e).
  { intros i e K.
    destruct (Nat.lt_ge_cases i (List.length (elements p0))) as [Lt|Ge].
    - rewrite nth_error_app1 in K by exact Lt. exact (S0 i e K).
    - rewrite nth_error_app2 in K by exact Ge.
      destruct (i - List.length (elements p0))%nat as [|k];
        [|destruct k; discriminate K].
      inversion K. split; reflexivity. }
  clearbody p0. cbv zeta.
  destruct (intervalId r) as [id|] eqn:Ei;
    cbn [fst snd clearInterval elements intervals audio intervalId
         updateCallback];
    rewrite ?length_app, ?L0, ?I0, ?B; unfold ownTimers; rewrite ?Ei;
    cbn [List.length filter fst];
    rewrite ?Nat.eqb_refl, ?Nat.add_1_r;
    (split; [exact G|]); repeat split.
Qed.

Lemma calm_attach (s : Src) (r : Service) (p : Page)
      (u : list PlayerState) :
  (forall i e, nth_error (elements p) i = Some e -> silent e) ->
  intervals p = [] ->
  calm (svc (attach s r p u)) (page (attach s r p u)) /\
  holding (svc (attach s r p u)) (page (attach s r p u)).
Proof.
  intros A B. unfold attach, newAudio, setInterval.
  cbn [svc page updateState]. split; [split|].
  - cbn [elements audio]. intros i e K Hne.
    destruct (Nat.lt_ge_cases i (List.length (elements p))) as [Lt|Ge].
    + rewrite nth_error_app1 in K by exact Lt. exact (A i e K).
    + rewrite nth_error_app2 in K by exact Ge.
      destruct (i - List.length (elements p))%nat as [|k] eqn:D;
        [|destruct k; discriminate K].
      exfalso. apply Hne. f_equal. lia.
  - cbn [intervals]. rewrite B. reflexivity.
  - exists (List.length (elements p)). split; [reflexivity|].
    cbn [elements]. rewrite length_app. simpl. lia.
Qed.

Lemma calm_load (b : Blob) (w : World) :
  calm (svc w) (page w) ->
  calm (svc (load b w)) (page (load b w)) /\
  holding (svc (load b w)) (page (load b w)).
Proof.
  intros H. unfold load.
  destruct (reset_silences H) as (A & B & _).
  destruct (reset (svc w) (page w)) as [r1 p1]. cbn [fst snd] in A, B.
  unfold createObjectURL. apply calm_attach; [exact A|exact B].
Qed.

Lemma calm_loadUrl (url : string) (w : World) :
  calm (svc w) (page w) ->
  calm (svc (loadUrl url w)) (page (loadUrl url w)) /\
  holding (svc (loadUrl url w)) (page (loadUrl url w)).
Proof.
  intros H. unfold loadUrl.
  destruct (reset_silences H) as (A & B & _).
  destruct (reset (svc w) (page w)) as [r1 p1]. cbn [fst snd] in A, B.
  apply calm_attach; [exact A|exact B].
Qed.

Lemma calm_call (c : Call) (w : World) :
  calm (svc w) (page w) /\ holding (svc w) (page w) ->
  calm (svc (call w c)) (page (call w c)) /\
  holding (svc (call w c)) (page (call w c)).
Proof.
  intros [H K].
  assert (U : forall w0, calm (svc w0) (page w0) /\ holding (svc w0) (page w0) ->
                         calm (svc (updateState w0)) (page (updateState w0)) /\
                         holding (svc (updateState w0)) (page (updateState w0)))
    by (intros w0 X; exact X).
  assert (O : forall f w0,
             calm (svc w0) (page w0) /\ holding (svc w0) (page w0) ->
             calm (svc (onHeld f w0)) (page (onHeld f w0)) /\
             holding (svc (onHeld f w0)) (page (onHeld f w0))).
  { intros f w0 [X Y]. split; [now apply calm_onHeld|now apply holding_onHeld]. }
  destruct c as [b|url|ans| | |time|seconds|seconds|ev]; cbn [call].
  - now apply calm_load.
  - now apply calm_loadUrl.
  - unfold play. destruct (audio (svc w)); [|now split].
    destruct (starts ans); destruct (rejected ans); cbn [svc page];
      try (apply U); try (apply O); now split.
  - unfold pause. destruct (audio (svc w)); [|now split].
    apply U, O. now split.
  - unfold stop. destruct (audio (svc w)); [|now split].
    apply U, O, O. now split.
  - unfold seek, assign. destruct (audio (svc w)); [|now split].
    apply U, O. now split.
  - unfold rewind, assign. destruct (audio (svc w)); [|now split].
    apply U, O. now split.
  - unfold forward, assign. destruct (audio (svc w)); [|now split].
    apply U, O. now split.
  - destruct ev as [i d|i|i t|id]; cbn [pageEvent].
    + assert (G : calm (svc w) (onElement i (onMedia (set_duration d)) (page w))
                  /\ holding (svc w)
                             (onElement i (onMedia (set_duration d)) (page w))).
      { split; [|now apply holding_onElement].
        apply calm_onElement; [exact H|right; apply silent_duration]. }
      destruct (wiredAt i w); exact G.
    + assert (G : calm (svc w) (onElement i (onMedia (set_paused true)) (page w))
                  /\ holding (svc w)
                             (onElement i (onMedia (set_paused true)) (page w))).
      { split; [|now apply holding_onElement].
        apply calm_onElement; [exact H|right; apply silent_paused]. }
      destruct (wiredAt i w); exact G.
    + cbn [svc page]. split; [|now apply holding_onElement].
      apply calm_onElement; [exact H|right; apply silent_progress].
    + destruct (timerActive id (page w)); now split.
Qed.

Lemma calm_session (calls : list Call) :
  calm (svc (session calls)) (page (session calls)) /\
  holding (svc (session calls)) (page (session calls)).
Proof.
  unfold session.
  assert (G : forall w,
             calm (svc w) (page w) /\ holding (svc w) (page w) ->
             calm (svc (fold_left call calls w))
                  (page (fold_left call calls w)) /\
             holding (svc (fold_left call calls w))
                     (page (fold_left call calls w))).
  { induction calls as [|c calls IH]; intros w H; [exact H|].
    cbn [fold_left]. apply IH. now apply calm_call. }
  apply G. split.
  - split; [|reflexivity]. intros [|[|i]] e K Hne; cbn in K; try discriminate K.
    exfalso. apply Hne. reflexivity.
  - exists 0%nat. split; [reflexivity|]. cbn. lia.
Qed.

End PlaybackFacts.

(** X12: the player never leaves an element sounding or a timer behind.
    After any sequence of calls ([load], [loadUrl], [play], [pause],
    [stop], [seek], [rewind], [forward]) and page events, the service
    holds an element; every other element it has ever constructed is
    paused and has an empty source, so at most one element can be
    heard; and at most one interval timer is registered, the one the
    service remembers: [reset] clears the previous one on every load. *)
Theorem player_one_element_one_timer :
  forall calls,
    let w := Playback.session calls in
    (exists i, Playback.audio (Playback.svc w) = Some i /\
               (i < List.length (Playback.elements (Playback.page w)))%nat) /\
    (forall i e,
        nth_error (Playback.elements (Playback.page w)) i = Some e ->
        Playback.audio (Playback.svc w) <> Some i ->
        Player.el_paused (Playback.media e) = true /\
        Playback.src e = Playback.NoSrc) /\
    Playback.intervals (Playback.page w)
    = match Playback.intervalId (Playback.svc w) with
      | Some id => [(id, 100%Z)]
      | None => []
      end.
Proof.
  intros calls w. destruct (calm_session calls) as [[A B] C].
  split; [exact C|]. split; [exact A|exact B].
Qed.

Lemma player_one_element_one_timer_witness :
  let w := Playback.session
             [Playback.CallLoad Samples.chunk;
              Playback.CallPlay (Playback.mkAnswer true None);
              Playback.CallLoadUrl "/api/audio/a.wav"] in
  exists e,
    nth_error (Playback.elements (Playback.page w)) 2 = Some e /\
    Player.el_paused (Playback.media e) = true /\
    Playback.src e = Playback.NoSrc.
Proof.
  intros w. eexists. split; [vm_compute; reflexivity|].
  apply (proj1 (proj2 (player_one_element_one_timer
                         [Playback.CallLoad Samples.chunk;
                          Playback.CallPlay (Playback.mkAnswer true None);
                          Playback.CallLoadUrl "/api/audio/a.wav"])) 2%nat).
  - vm_compute. reflexivity.
  - vm_compute. discriminate.
Defined.

(** ** The recorder: the level meter *)

Section MeterFacts.

Import Recorder RecorderOps Level.

Lemma metered_same (w w' : World) :
  audioLevelF (svc w') = audioLevelF (svc w) ->
  dataArray (svc w') = dataArray (svc w) ->
  updates w' = updates w ->
  metered w -> metered w'.
Proof. unfold metered. intros A B C. rewrite A, B, C. tauto. Qed.

Lemma metered_updateState (rd : Reading) (w : World) :
  Forall isByte (spectrum rd) -> metered w -> metered (updateState rd w).
Proof.
  intros Hb (A & B & C). unfold updateState.
  destruct (updateCallback (svc w)); [|exact (conj A (conj B C))].
  destruct (@updateAudioLevel_in_unit (spectrum rd) (svc w) Hb B A) as [L N].
  unfold metered. cbn [svc updates]. split; [exact L|]. split; [exact N|].
  apply Forall_app. split; [exact C|]. constructor; [|constructor].
  exact L.
Qed.

Lemma metered_reset (r : Service) (b : Browser) (u : list RecordingState) :
  Forall levelOk u -> metered (mkWorld (fst (reset r b)) (snd (reset r b)) u).
Proof.
  intros H. rewrite reset_service. unfold metered. cbn [svc updates
    audioLevelF dataArray].
  split; [lra|]. split; [discriminate|exact H].
Qed.

Lemma metered_pause (now : Q) (rd : Reading) (w : World) :
  Forall isByte (spectrum rd) -> metered w -> metered (pause now rd w).
Proof.
  intros Hb H. unfold pause.
  destruct (mediaRecorder (svc w)) as [mr|]; [|exact H].
  destruct (mr_state mr); try exact H.
  match goal with
  | |- context [updateState rd ?w0] =>
      assert (M : metered (updateState rd w0))
        by (apply metered_updateState; [exact Hb|];
            revert H; apply metered_same; reflexivity);
      set (w3 := updateState rd w0) in *
  end.
  clearbody w3.
  destruct (audioContext (svc w3)) as [ctx|];
    [destruct (ctx_state ctx)|]; exact M.
Qed.

Lemma metered_resume (now : Q) (rd : Reading) (w : World) :
  Forall isByte (spectrum rd) -> metered w -> metered (resume now rd w).
Proof.
  intros Hb H. unfold resume.
  destruct (mediaRecorder (svc w)) as [mr|]; [|exact H].
  destruct (mr_state mr); try exact H.
  apply metered_updateState; [exact Hb|].
  revert H. apply metered_same; try reflexivity;
    destruct (audioContext (svc w)) as [ctx|];
    try destruct (ctx_state ctx); reflexivity.
Qed.

Lemma metered_stopped (last : Blob) (rd : Reading) (w : World) :
  Forall isByte (spectrum rd) -> metered w -> metered (stopped last rd w).
Proof.
  intros Hb H. unfold stopped.
  assert (G : metered (onstop rd (ondataavailable last (stop w)))).
  { rewrite onstop_unfold.
    assert (M : metered (updateState rd (ondataavailable last (stop w)))).
    { apply metered_updateState; [exact Hb|].
      revert H. apply metered_same; unfold ondataavailable, stop;
        destruct (mediaRecorder (svc w)) as [mr|];
        try destruct (mr_state mr); destruct (blob_bytes last);
        reflexivity. }
    revert M. apply metered_same; reflexivity. }
  destruct (stateOf (mediaRecorder (svc w))) as [[| |]|]; assumption.
Qed.

Lemma metered_start (env : StartEnv) (now : Q) (rd : Reading) (w : World) :
  Forall isByte (spectrum rd) -> metered w ->
  metered (fst (start env now rd w)).
Proof.
  intros Hb (_ & _ & U). unfold start.
  pose proof (reset_service (set_updateCallback true (svc w)) (browser w))
    as RS.
  destruct (reset (set_updateCallback true (svc w)) (browser w)) as [r1 b1].
  cbn [fst] in RS. subst r1.
  assert (F : forall msg r b,
             metered (fst (startFailed msg (mkWorld r b (updates w))))).
  { intros msg r b. unfold startFailed. cbn [svc browser updates].
    pose proof (metered_reset r b U) as K.
    destruct (reset r b) as [r2 b2]. exact K. }
  destruct (userMedia env) as [m|s]; [apply F|].
  unfold buildGraph, newContext, newMediaRecorder.
  cbn -[updateState reset startFailed].
  destruct (opusSupported env); [|destruct (plainSupported env)];
    try apply F;
    cbn [fst]; (apply metered_updateState; [exact Hb|]);
    unfold metered; cbn [svc updates audioLevelF dataArray set_intervalId
                         set_mediaRecorder set_startTime];
    (split; [lra|]); (split; [discriminate|exact U]).
Qed.

Lemma metered_call (c : Call) (w : World) :
  bytesOnly c -> metered w -> metered (call w c).
Proof.
  destruct c as [env now rd|last rd|[rd|now rd|now rd|chunk]];
    unfold bytesOnly; cbn [readingOf call Capture.apply]; intros Hb H.
  - now apply metered_start.
  - now apply metered_stopped.
  - destruct (intervalId (svc w)) as [id|]; [|exact H].
    unfold tick. destruct (timerActive id (browser w)); [|exact H].
    now apply metered_updateState.
  - now apply metered_pause.
  - now apply metered_resume.
  - revert H. apply metered_same; unfold ondataavailable;
      destruct (blob_bytes chunk); reflexivity.
Qed.

Lemma metered_session (calls : list Call) :
  Forall bytesOnly calls -> metered (session calls).
Proof.
  unfold session.
  assert (G : forall w, Forall bytesOnly calls -> metered w ->
                        metered (fold_left call calls w)).
  { induction calls as [|c calls IH]; intros w Hb H; [exact H|].
    inversion Hb; subst. cbn [fold_left]. apply IH; [assumption|].
    now apply metered_call. }
  intros Hb. apply G; [exact Hb|].
  unfold metered. cbn. split; [lra|]. split; [discriminate|constructor].
Qed.

End MeterFacts.

(** X8: the level meter never leaves its scale.  Whatever calls are made
    on the recorder, as long as the analyser fills its array with bytes
    (0..255), every update handed to [onUpdate] carries an audio level
    between 0 and 1, and the array the level is averaged over is never
    empty, so the quotient of [updateAudioLevel] is always defined. *)
Theorem level_meter_stays_on_scale :
  forall calls,
    Forall Level.bytesOnly calls ->
    Forall Level.levelOk (Recorder.updates (RecorderOps.session calls)) /\
    Recorder.dataArray (Recorder.svc (RecorderOps.session calls)) <> Some [].
Proof.
  intros calls H. destruct (metered_session H) as (_ & B & C).
  split; [exact C|exact B].
Qed.

Lemma level_meter_stays_on_scale_witness :
  Forall Level.levelOk
    (Recorder.updates
       (RecorderOps.session
          [RecorderOps.CallStart Samples.micEnv 1000
             (Recorder.mkReading 1000 [255; 255; 64]%Z);
           RecorderOps.CallOp
             (Capture.OpTick (Recorder.mkReading 1100 [12; 200]%Z));
           RecorderOps.CallStop Samples.lastChunk (Samples.quiet 3000)])).
Proof.
  apply (@level_meter_stays_on_scale
           [RecorderOps.CallStart Samples.micEnv 1000
              (Recorder.mkReading 1000 [255; 255; 64]%Z);
            RecorderOps.CallOp
              (Capture.OpTick (Recorder.mkReading 1100 [12; 200]%Z));
            RecorderOps.CallStop Samples.lastChunk (Samples.quiet 3000)]).
  repeat constructor; unfold RecorderOps.isByte; lia.
Defined.

(** ** The prompts and conversations stores *)

Section PromptsFacts.

Import Prompts.

Lemma includes_In (id : Z) (ids : list Z) :
  includes id ids = true <-> In id ids.
Proof.
  unfold includes. rewrite existsb_exists. split.
  - intros (x & A & B). apply Z.eqb_eq in B. now subst.
  - intros A. exists id. split; [exact A|apply Z.eqb_refl].
Qed.

Lemma In_without (id j : Z) (ids : list Z) :
  In j (without id ids) <-> In j ids /\ j <> id.
Proof.
  unfold without. rewrite filter_In, negb_true_iff, Z.eqb_neq. tauto.
Qed.

Lemma without_absent (id : Z) (ids : list Z) :
  ~ In id ids -> without id ids = ids.
Proof.
  unfold without. induction ids as [|x ids IH]; intros H; [reflexivity|].
  cbn [filter]. destruct (Z.eqb x id) eqn:E.
  - apply Z.eqb_eq in E. subst. exfalso. apply H. now left.
  - cbn [negb]. f_equal. apply IH. intros K. apply H. now right.
Qed.

Lemma without_app (id : Z) (l1 l2 : list Z) :
  without id (l1 ++ l2) = without id l1 ++ without id l2.
Proof. unfold without. apply filter_app. Qed.

Lemma NoDup_without (id : Z) (ids : list Z) :
  NoDup ids -> NoDup (without id ids).
Proof. unfold without. apply NoDup_filter. Qed.

Lemma NoDup_snoc (id : Z) (ids : list Z) :
  NoDup ids -> ~ In id ids -> NoDup (ids ++ [id]).
Proof.
  intros A B. apply NoDup_app; [exact A|repeat constructor; intros []|].
  intros x Hx [K|[]]. subst. exact (B Hx).
Qed.

End PromptsFacts.

(** X13: [toggleSelectedPrompt] flips the selection of one prompt and of
    no other: the id is selected afterwards exactly if it was not
    before, every other id keeps its state, a selection without
    duplicates stays without duplicates, and nothing but the selection
    changes.  Toggling twice an id that was not selected restores the
    store. *)
Theorem toggle_flips_one_selection :
  forall id s,
    let s' := Prompts.toggleSelectedPrompt id s in
    (In id (Prompts.selectedPromptIds s')
     <-> ~ In id (Prompts.selectedPromptIds s)) /\
    (forall j, j <> id ->
       (In j (Prompts.selectedPromptIds s')
        <-> In j (Prompts.selectedPromptIds s))) /\
    (NoDup (Prompts.selectedPromptIds s) ->
     NoDup (Prompts.selectedPromptIds s')) /\
    Prompts.setSelectedPromptIds (Prompts.selectedPromptIds s) s' = s /\
    (~ In id (Prompts.selectedPromptIds s) ->
     Prompts.toggleSelectedPrompt id s' = s).
Proof.
  intros id s. unfold Prompts.toggleSelectedPrompt.
  destruct (Prompts.includes id (Prompts.selectedPromptIds s)) eqn:E;
    cbn [Prompts.setSelectedPromptIds Prompts.selectedPromptIds
         Prompts.prompts Prompts.isLoading Prompts.newPrompt
         Prompts.editingPromptId Prompts.promptSearchQuery].
  - apply includes_In in E.
    split; [rewrite In_without; tauto|].
    split; [intros j Hj; rewrite In_without; tauto|].
    split; [apply NoDup_without|].
    split; [destruct s; reflexivity|]. intros K. contradiction.
  - assert (N : ~ In id (Prompts.selectedPromptIds s)).
    { intros K. apply includes_In in K. congruence. }
    split; [rewrite in_app_iff; simpl; tauto|].
    split.
    { intros j Hj. rewrite in_app_iff. simpl.
      split; [intros [K|[K|[]]]; [exact K|congruence]|tauto]. }
    split; [intros D; now apply NoDup_snoc|].
    split; [destruct s; reflexivity|]. intros _.
    assert (I : Prompts.includes id (Prompts.selectedPromptIds s ++ [id])
                = true).
    { apply includes_In. rewrite in_app_iff. right. now left. }
    rewrite I, without_app, (@without_absent id _ N).
    unfold Prompts.without. cbn [filter]. rewrite Z.eqb_refl. cbn [negb].
    rewrite app_nil_r. destruct s; reflexivity.
Qed.

Lemma toggle_flips_one_selection_witness :
  NoDup (Prompts.selectedPromptIds
           (Prompts.toggleSelectedPrompt 2
              (Prompts.setSelectedPromptIds [1; 2; 3]%Z
                                            Prompts.initialState))).
Proof.
  apply (proj1 (proj2 (proj2 (toggle_flips_one_selection 2
                  (Prompts.setSelectedPromptIds [1; 2; 3]%Z
                                                Prompts.initialState))))).
  simpl. repeat constructor; simpl; intuition lia.
Defined.

(** X14: [removePrompt] leaves no reference to the prompt in the store:
    no prompt with the id remains, the id is neither selected nor the
    prompt being edited, while every other prompt (in order), every
    other selected id and another prompt being edited stay; the form
    and the search query are not touched. *)
Theorem removePrompt_leaves_no_reference :
  forall id s,
    let s' := Prompts.removePrompt id s in
    ~ In id (map Prompts.prompt_id (Prompts.prompts s')) /\
    ~ Prompts.refersTo id s' /\
    (forall j, j <> id ->
       filter (fun p => Z.eqb (Prompts.prompt_id p) j) (Prompts.prompts s')
       = filter (fun p => Z.eqb (Prompts.prompt_id p) j) (Prompts.prompts s)
       /\ (Prompts.refersTo j s' <-> Prompts.refersTo j s)) /\
    Prompts.newPrompt s' = Prompts.newPrompt s /\
    Prompts.promptSearchQuery s' = Prompts.promptSearchQuery s.
Proof.
  intros id s. unfold Prompts.removePrompt, Prompts.refersTo.
  cbn [Prompts.prompts Prompts.selectedPromptIds Prompts.editingPromptId
       Prompts.newPrompt Prompts.promptSearchQuery].
  split.
  { rewrite in_map_iff. intros (p & A & B). apply filter_In in B.
    destruct B as [_ B]. apply negb_true_iff, Z.eqb_neq in B. congruence. }
  split.
  { intros [K|K].
    - apply In_without in K. tauto.
    - destruct (Prompts.editingPromptId s) as [e|]; [|discriminate K].
      destruct (Z.eqb e id) eqn:E; [discriminate K|].
      apply Z.eqb_neq in E. congruence. }
  split; [|split; reflexivity].
  intros j Hj. split.
  - induction (Prompts.prompts s) as [|p ps IH]; [reflexivity|].
    cbn [filter]. destruct (Z.eqb (Prompts.prompt_id p) id) eqn:E;
      cbn [negb filter].
    + apply Z.eqb_eq in E.
      assert (F : Z.eqb (Prompts.prompt_id p) j = false)
        by (apply Z.eqb_neq; congruence).
      now rewrite F.
    + destruct (Z.eqb (Prompts.prompt_id p) j); [now rewrite IH|exact IH].
  - rewrite In_without.
    destruct (Prompts.editingPromptId s) as [e|].
    + destruct (Z.eqb e id) eqn:E.
      * apply Z.eqb_eq in E. subst e.
        split; [intros [[K _]|K]; [now left|discriminate K]
               |intros [K|K]; [left; tauto|congruence]].
      * tauto.
    + tauto.
Qed.

Lemma removePrompt_leaves_no_reference_witness :
  let s := Prompts.setEditingPromptId (Some 3%Z)
             (Prompts.setSelectedPromptIds [2; 3]%Z Prompts.initialState) in
  Prompts.refersTo 3 (Prompts.removePrompt 2 s) <-> Prompts.refersTo 3 s.
Proof.
  intros s.
  apply (proj1 (proj2 (proj2 (removePrompt_leaves_no_reference 2 s))) 3%Z).
  lia.
Defined.

Section ConversationsFacts.

Import Conversations.

Lemma find_filter_other (i sel : Z) (l : list ConversationWithDetails) :
  sel <> i ->
  find (fun c => Z.eqb (id c) sel)
       (filter (fun conv => negb (Z.eqb (id conv) i)) l)
  = find (fun c => Z.eqb (id c) sel) l.
Proof.
  intros H. induction l as [|c l IH]; [reflexivity|].
  cbn [filter find]. destruct (Z.eqb (id c) i) eqn:E; cbn [negb find].
  - apply Z.eqb_eq in E.
    assert (F : Z.eqb (id c) sel = false) by (apply Z.eqb_neq; congruence).
    now rewrite F.
  - destruct (Z.eqb (id c) sel); [reflexivity|exact IH].
Qed.

Lemma find_none (A : Type) (l : list A) :
  find (fun _ => false) l = None.
Proof. induction l; [reflexivity|exact IHl]. Qed.

End ConversationsFacts.

(** X15: the selected conversation survives exactly the removals of
    others.  After [removeConversation(id)] the selector
    [selectSelectedConversation] gives null if the conversation removed
    was the selected one, and otherwise the same conversation as before;
    what it gives always carries the selected id, and adding a
    conversation changes the result only if nothing with the selected
    id was there before. *)
Theorem selection_follows_removal :
  forall i s,
    Conversations.selectSelectedConversation
      (Conversations.removeConversation i s)
    = (if match Conversations.selectedConversationId s with
          | Some sel => Z.eqb sel i
          | None => false
          end
       then None
       else Conversations.selectSelectedConversation s) /\
    (forall c,
       Conversations.selectSelectedConversation s = Some c ->
       Conversations.selectedConversationId s = Some (Conversations.id c) /\
       In c (Conversations.conversations s)) /\
    (forall c c',
       Conversations.selectSelectedConversation s = Some c ->
       Conversations.selectSelectedConversation
         (Conversations.addConversation c' s) = Some c).
Proof.
  intros i s. split; [|split].
  - unfold Conversations.selectSelectedConversation,
      Conversations.removeConversation, Conversations.isSelected.
    cbn [Conversations.conversations Conversations.selectedConversationId].
    destruct (Conversations.selectedConversationId s) as [sel|].
    + destruct (Z.eqb sel i) eqn:E.
      * apply find_none.
      * apply find_filter_other. now apply Z.eqb_neq.
    + rewrite !find_none. reflexivity.
  - intros c H. unfold Conversations.selectSelectedConversation in H.
    apply find_some in H. destruct H as [A B].
    unfold Conversations.isSelected in B.
    destruct (Conversations.selectedConversationId s) as [sel|];
      [|discriminate B].
    apply Z.eqb_eq in B. split; [now rewrite B|exact A].
  - intros c c' H.
    unfold Conversations.selectSelectedConversation,
      Conversations.addConversation, Conversations.setConversations,
      Conversations.isSelected in *.
    cbn [Conversations.conversations Conversations.selectedConversationId].
    induction (Conversations.conversations s) as [|x l IH];
      [discriminate H|].
    cbn [List.app find] in *.
    destruct (match Conversations.selectedConversationId s with
              | Some sel => Z.eqb (Conversations.id x) sel
              | None => false
              end); [exact H|now apply IH].
Qed.

Lemma selection_follows_removal_witness :
  let c := Conversations.mkDetails
             (Store.mkConversation 4 None (Some 1%Z) "a.wav" "2024-05-01")
             None None None None in
  let s := Conversations.setSelectedConversationId (Some 4%Z)
             (Conversations.addConversation c Conversations.initialState) in
  Conversations.selectedConversationId s = Some (Conversations.id c) /\
  In c (Conversations.conversations s).
Proof.
  intros c s.
  apply (proj1 (proj2 (selection_follows_removal 4 s)) c).
  reflexivity.
Defined.

Section SearchFacts.

Import Conversations.

Lemma filter_all (A : Type) (f : A -> bool) (l : list A) :
  (forall x, In x l -> f x = true) -> filter f l = l.
Proof.
  induction l as [|x l IH]; intros H; [reflexivity|].
  cbn [filter]. rewrite (H x (or_introl eq_refl)). f_equal.
  apply IH. intros y Hy. apply H. now right.
Qed.

Lemma filter_ext_all (A : Type) (f g : A -> bool) (l : list A) :
  (forall x, f x = g x) -> filter f l = filter g l.
Proof.
  intros H. induction l as [|x l IH]; [reflexivity|].
  cbn [filter]. rewrite H, IH. reflexivity.
Qed.

Lemma filter_twice (A : Type) (f g : A -> bool) (l : list A) :
  filter f (filter g l) = filter (fun x => g x && f x) l.
Proof.
  induction l as [|x l IH]; [reflexivity|].
  cbn [filter]. destruct (g x); cbn [filter andb]; [|exact IH].
  destruct (f x); now rewrite IH.
Qed.

Lemma isEmpty_spec (q : string) : Text.isEmpty q = true <-> q = EmptyString.
Proof. destruct q; simpl; split; congruence. Qed.

End SearchFacts.

(** X16: the edges of the conversation filter.  With an empty query and
    no type selected the selector returns all conversations unchanged;
    selecting a type narrows the unfiltered result to the conversations
    of exactly that type (a conversation without type never matches);
    and as soon as the query is not empty, a conversation loaded without
    student, type and transcription is never returned, whatever the
    query. *)
Theorem conversation_filter_edges :
  forall toLowerCase s,
    (Conversations.searchQuery s = EmptyString ->
     Conversations.selectedTypeId s = None ->
     Conversations.selectFilteredConversations toLowerCase s
     = Conversations.conversations s) /\
    (forall t,
       Conversations.selectFilteredConversations toLowerCase
         (Conversations.setSelectedTypeId (Some t) s)
       = filter (fun c => match Conversations.typeId c with
                          | Some ct => Z.eqb ct t
                          | None => false
                          end)
                (Conversations.selectFilteredConversations toLowerCase
                   (Conversations.setSelectedTypeId None s))) /\
    (Conversations.searchQuery s <> EmptyString ->
     forall c,
       In c (Conversations.selectFilteredConversations toLowerCase s) ->
       ~ Conversations.bare c).
Proof.
  intros lower s. split; [|split].
  - intros Q T. unfold Conversations.selectFilteredConversations.
    apply filter_all. intros c _.
    unfold Conversations.matchesSearch, Conversations.matchesType.
    rewrite Q, T. reflexivity.
  - intros t. unfold Conversations.selectFilteredConversations.
    rewrite filter_twice. apply filter_ext_all. intros c.
    unfold Conversations.matchesSearch, Conversations.matchesType.
    cbn [Conversations.setSelectedTypeId Conversations.searchQuery
         Conversations.selectedTypeId Conversations.conversations].
    now rewrite andb_true_r.
  - intros Q c H (A & B & C).
    unfold Conversations.selectFilteredConversations in H.
    apply filter_In in H. destruct H as [_ H].
    apply andb_true_iff in H. destruct H as [H _].
    unfold Conversations.matchesSearch in H. rewrite A, B, C in H.
    cbn [option_map Conversations.mentions orb] in H.
    rewrite orb_false_r in H. apply isEmpty_spec in H. exact (Q H).
Qed.

Lemma conversation_filter_edges_witness :
  let c := Conversations.mkDetails
             (Store.mkConversation 4 None (Some 1%Z) "a.wav" "2024-05-01")
             None None None None in
  Conversations.selectFilteredConversations Text.asciiLower
    (Conversations.addConversation c Conversations.initialState)
  = [c].
Proof.
  intros c.
  apply (proj1 (conversation_filter_edges Text.asciiLower
                  (Conversations.addConversation c
                     Conversations.initialState)));
    reflexivity.
Defined.

Section CaseFacts.

Variable toLowerCase : string -> string.

Hypothesis lower_idem : forall x, toLowerCase (toLowerCase x) = toLowerCase x.

Hypothesis lower_empty :
  forall x, Text.isEmpty (toLowerCase x) = Text.isEmpty x.

Lemma matchesSearch_lower (s : Conversations.ConversationsState)
      (c : Conversations.ConversationWithDetails) :
  Conversations.matchesSearch toLowerCase
    (Conversations.setSearchQuery
       (toLowerCase (Conversations.searchQuery s)) s) c
  = Conversations.matchesSearch toLowerCase s c.
Proof.
  unfold Conversations.matchesSearch, Conversations.mentions.
  cbn [Conversations.setSearchQuery Conversations.searchQuery].
  rewrite lower_empty, !lower_idem. reflexivity.
Qed.

End CaseFacts.

(** X17: the search ignores the letter case of the query.  For a
    [toLowerCase] that is idempotent and keeps only the empty string
    empty, searching conversations or prompts for a query and for its
    lower-case form selects the same entries. *)
Theorem search_ignores_case_of_query :
  forall toLowerCase,
    (forall x, toLowerCase (toLowerCase x) = toLowerCase x) ->
    (forall x, Text.isEmpty (toLowerCase x) = Text.isEmpty x) ->
    (forall s,
       Conversations.selectFilteredConversations toLowerCase
         (Conversations.setSearchQuery
            (toLowerCase (Conversations.searchQuery s)) s)
       = Conversations.selectFilteredConversations toLowerCase s) /\
    (forall s,
       Prompts.selectFilteredPrompts toLowerCase
         (Prompts.setPromptSearchQuery
            (toLowerCase (Prompts.promptSearchQuery s)) s)
       = Prompts.selectFilteredPrompts toLowerCase s).
Proof.
  intros lower I E. split; intros s.
  - unfold Conversations.selectFilteredConversations.
    cbn [Conversations.setSearchQuery Conversations.conversations].
    apply filter_ext_all. intros c.
    rewrite (@matchesSearch_lower lower I E s c). reflexivity.
  - unfold Prompts.selectFilteredPrompts.
    cbn [Prompts.setPromptSearchQuery Prompts.promptSearchQuery
         Prompts.prompts].
    rewrite E, !I. reflexivity.
Qed.

Section AsciiFacts.

Lemma lowerChar_idem (c : ascii) :
  Text.lowerChar (Text.lowerChar c) = Text.lowerChar c.
Proof.
  destruct c as [[] [] [] [] [] [] [] []]; vm_compute; reflexivity.
Qed.

Lemma asciiLower_idem (x : string) :
  Text.asciiLower (Text.asciiLower x) = Text.asciiLower x.
Proof.
  induction x as [|c x IH]; [reflexivity|].
  cbn [Text.asciiLower]. now rewrite lowerChar_idem, IH.
Qed.

Lemma asciiLower_empty (x : string) :
  Text.isEmpty (Text.asciiLower x) = Text.isEmpty x.
Proof. destruct x; reflexivity. Qed.

End AsciiFacts.

Lemma search_ignores_case_of_query_witness :
  let s := Prompts.setPromptSearchQuery "SumMary"
             (Prompts.addPrompt
                (Prompts.mkPrompt 1 "Summary" "Summarise the talk"
                                  "2024-05-01" "2024-05-01")
                (Prompts.addPrompt
                   (Prompts.mkPrompt 2 "Goals" "List the goals"
                                     "2024-05-01" "2024-05-01")
                   Prompts.initialState)) in
  Prompts.selectFilteredPrompts Text.asciiLower
    (Prompts.setPromptSearchQuery
       (Text.asciiLower (Prompts.promptSearchQuery s)) s)
  = Prompts.selectFilteredPrompts Text.asciiLower s.
Proof.
  intros s.
  exact (proj2 (@search_ignores_case_of_query Text.asciiLower
                  asciiLower_idem asciiLower_empty) s).
Defined.

(** ** The queue: error texts *)

Section OutcomeFacts.

Import Store App Outcome.





End OutcomeFacts.



(** ** Audio files on the server *)

Section FileFacts.

Import FileStorage.

Lemma read_write_same (name : string) (buffer : Buffer) (d : Dir) :
  readFile name (writeFile name buffer d) = Some buffer.
Proof.
  unfold readFile. induction d as [|e d IH]; cbn [writeFile].
  - cbn [find]. unfold named at 1. cbn [fst]. now rewrite String.eqb_refl.
  - destruct (named name e) eqn:E.
    + cbn [find]. unfold named in *. cbn [fst]. now rewrite E.
    + cbn [find]. rewrite E. exact IH.
Qed.

Lemma read_write_other (name other : string) (buffer : Buffer) (d : Dir) :
  other <> name ->
  readFile other (writeFile name buffer d) = readFile other d.
Proof.
  intros H. unfold readFile. induction d as [|e d IH]; cbn [writeFile].
  - cbn [find]. unfold named. cbn [fst].
    destruct (String.eqb name other) eqn:E; [|reflexivity].
    apply String.eqb_eq in E. congruence.
  - destruct (named name e) eqn:E.
    + cbn [find]. unfold named in *. cbn [fst].
      apply String.eqb_eq in E.
      destruct (String.eqb (fst e) other) eqn:F; [|reflexivity].
      apply String.eqb_eq in F. congruence.
    + cbn [find]. destruct (named other e); [reflexivity|exact IH].
Qed.

Lemma read_filter_same (name : string) (d : Dir) :
  readFile name (filter (fun e => negb (named name e)) d) = None.
Proof.
  unfold readFile. induction d as [|e d IH]; [reflexivity|].
  cbn [filter]. destruct (named name e) eqn:E; cbn [negb]; [exact IH|].
  cbn [find]. rewrite E. exact IH.
Qed.

Lemma read_filter_other (name other : string) (d : Dir) :
  other <> name ->
  readFile other (filter (fun e => negb (named name e)) d)
  = readFile other d.
Proof.
  intros H. unfold readFile. induction d as [|e d IH]; [reflexivity|].
  cbn [filter]. destruct (named name e) eqn:E; cbn [negb find].
  - unfold named in *. apply String.eqb_eq in E.
    destruct (String.eqb (fst e) other) eqn:F; [|exact IH].
    apply String.eqb_eq in F. congruence.
  - destruct (named other e); [reflexivity|exact IH].
Qed.

End FileFacts.

(** X19: an audio file reads back as it was saved, unless it is empty.
    After [saveAudioFile(buffer, name)], [getAudioFile(name)] is
    fulfilled with exactly [buffer] if it holds at least one byte, and
    rejected with "Audio file exists but is empty" if it holds none: an
    empty recording can be saved but not read.  Files of other names are
    not affected by a save or a delete, and after a successful
    [deleteAudioFile(name)] reading the name is rejected with "Audio
    file not found". *)
Theorem saved_audio_reads_back :
  forall buffer name d,
    let d' := FileStorage.saveAudioFile buffer name d in
    FileStorage.getAudioFile name d'
    = match buffer with
      | [] => FileStorage.Rejected
                ("Audio file exists but is empty: " ++ name)
      | b :: bs => FileStorage.Fulfilled (b :: bs)
      end /\
    (forall other, other <> name ->
       FileStorage.getAudioFile other d' = FileStorage.getAudioFile other d) /\
    (forall d2, FileStorage.deleteAudioFile name d' = FileStorage.Fulfilled d2 ->
       FileStorage.getAudioFile name d2
       = FileStorage.Rejected ("Audio file not found: " ++ name) /\
       forall other, other <> name ->
         FileStorage.getAudioFile other d2
         = FileStorage.getAudioFile other d).
Proof.
  intros buffer name d. unfold FileStorage.saveAudioFile.
  unfold FileStorage.getAudioFile. split; [|split].
  - rewrite read_write_same. destruct buffer; reflexivity.
  - intros other H. now rewrite read_write_other.
  - intros d2 H. unfold FileStorage.deleteAudioFile, FileStorage.unlink in H.
    rewrite read_write_same in H. inversion H; subst d2. split.
    + now rewrite read_filter_same.
    + intros other Ho. rewrite read_filter_other by exact Ho.
      now rewrite read_write_other.
Qed.

Lemma saved_audio_reads_back_witness :
  FileStorage.getAudioFile "b.wav"
    (FileStorage.saveAudioFile [Byte.x01] "a.wav"
       [("b.wav"%string, [Byte.x02; Byte.x03])])
  = FileStorage.Fulfilled [Byte.x02; Byte.x03].
Proof.
  apply (proj1 (proj2 (saved_audio_reads_back [Byte.x01] "a.wav"
                         [("b.wav"%string, [Byte.x02; Byte.x03])]))
               "b.wav"%string).
  discriminate.
Defined.

Section StatsFacts.

Import FileStorage.

Lemma sizes_from (d : Dir) : forall a,
  fold_left (fun acc e => (acc + Z.of_nat (List.length (snd e)))%Z) d a
  = (a + sizes d)%Z.
Proof.
  unfold sizes. induction d as [|e d IH]; intros a; cbn [fold_left].
  - lia.
  - rewrite IH. symmetry. rewrite IH. lia.
Qed.

Lemma sizes_nonneg (d : Dir) : (0 <= sizes d)%Z.
Proof.
  induction d as [|e d IH]; [unfold sizes; simpl; lia|].
  unfold sizes. cbn [fold_left]. rewrite sizes_from. lia.
Qed.



End StatsFacts.


